(** * stocproc: stochastic process generators (KLE and FFT engines)

    A shallow embedding of [stocproc/stocproc.py] (and of the older base
    class in [stocproc/class_stocproc.py]) together with the properties the
    specification states about them.

    Conventions of the embedding.
    - numpy's [float64] and [complex128] are the carrier types [F] and [C]
      of the class [Numerics]; every arithmetic operation the source applies
      is an operation of that class and nothing is assumed about it, so a
      theorem proved here holds for IEEE arithmetic as well as for exact
      arithmetic.  Where a claim is about exact values the ring laws are an
      explicit hypothesis.
    - Python integers are [Z], array shapes and lengths are [nat].
    - A one dimensional array is a [list]; a two dimensional array is a
      shape together with its rows ([ndarray2]).
    - An exception is a value of [exn]; a call that can raise returns a
      [result].  The specification's error kinds are read as follows:
      InvalidConfiguration is the [ValueError] numpy raises on a shape
      mismatch, NotReady is the [RuntimeError] of [__call__].
    - A callable argument ([r_tau], [bcf], [spectral_density], [bcf_ref])
      is a function on scalars; applied to an array it is applied entry by
      entry, as numpy's vectorised functions are.
    - A division is numpy's and does not raise, with one exception: in
      [class_stocproc.StocProc_FFT.__init__] the dividend [t_max] is the
      Python number the caller passes, and the two divisions there are
      Python's, which raise [ZeroDivisionError] on a zero divisor.
    - The process-wide generator [np.random] is an explicit state [RNG].
    - Code that is not part of the two source files is a field of a class:
      numpy and scipy in [External], the repository module [stocproc_c] in
      [Kernels], the repository modules [method_kle] and [method_fft] in
      [Solvers]. *)

From Stdlib Require Import String.
From Stdlib Require Import ZArith List Bool Lia.
From Stdlib Require Import Ring Ring_theory.
From Stdlib Require Import Reals Lra.
Import ListNotations.
Local Open Scope Z_scope.

Set Implicit Arguments.

(** ** Exceptions and results *)

Inductive exn : Type :=
| RuntimeError
| ValueError
| AttributeError
| IndexError
| AssertionError
| NameError
| ZeroDivisionError.

Inductive result (A : Type) : Type :=
| Ok (a : A)
| Raise (e : exn).
Arguments Ok {A} a.
Arguments Raise {A} e.

Definition bind {A B : Type} (r : result A) (f : A -> result B) : result B :=
  match r with
  | Ok a => f a
  | Raise e => Raise e
  end.

Notation "x <- r ;; k" := (bind r (fun x => k))
  (at level 61, r at next level, right associativity).
Notation "' p <- r ;; k" := (bind r (fun p => k))
  (at level 61, p pattern, r at next level, right associativity).

Definition is_ok {A : Type} (r : result A) : bool :=
  match r with Ok _ => true | Raise _ => false end.

(** ** Scalars *)

(** [F] is float64, [C] is complex128.  [F_lit m e] is the decimal literal
    [m]e[e]; [Cmk x y] is the complex number stored as the pair of floats
    [x], [y] (what [ndarray.view(complex)] reads); [np_sum] and [np_dot] are
    numpy's reductions, whose summation order is numpy's own. *)
Class Numerics : Type := {
  F : Type;
  C : Type;
  F_of_Z : Z -> F;
  F_lit : Z -> Z -> F;
  Fadd : F -> F -> F;
  Fsub : F -> F -> F;
  Fmul : F -> F -> F;
  Fdiv : F -> F -> F;
  Fpow : F -> Z -> F;
  Fabs : F -> F;
  Fsqrt : F -> F;
  Farctan2 : F -> F -> F;
  Fceil : F -> Z;
  Fpi : F;
  Finf : F;
  Fgtb : F -> F -> bool;
  Fltb : F -> F -> bool;
  np_max : list F -> F;
  C_of_F : F -> C;
  Cmk : F -> F -> C;
  Cj : C;
  Cre : C -> F;
  Cim : C -> F;
  Cneg : C -> C;
  Cadd : C -> C -> C;
  Csub : C -> C -> C;
  Cmul : C -> C -> C;
  Cdiv : C -> C -> C;
  Cconj : C -> C;
  Cexp : C -> C;
  Cabs : C -> F;
  np_sum : list C -> C;
  np_dot : list C -> list C -> C;
  np_empty : C
}.

(** ** Arrays *)

Section Arrays.
Variables A B D : Type.

Fixpoint map2 (f : A -> B -> D) (l : list A) (r : list B) : list D :=
    match l, r with
    | a :: l', b :: r' => f a b :: map2 f l' r'
    | _, _ => []
    end.

  (** [a op b] on one dimensional arrays: equal lengths combine pointwise, a
      length one operand is broadcast, any other pair of lengths raises. *)
Definition np_binop (f : A -> B -> D) (l : list A) (r : list B)
    : result (list D) :=
    if Nat.eqb (length l) (length r) then Ok (map2 f l r)
    else match l, r with
         | [a], _ => Ok (map (f a) r)
         | _, [b] => Ok (map (fun a => f a b) l)
         | _, _ => Raise ValueError
         end.
End Arrays.

(** The length of the broadcast of two axes. *)
Definition broadcast_dim (n m : nat) : result nat :=
  if Nat.eqb n m then Ok n
  else if Nat.eqb n 1 then Ok m
  else if Nat.eqb m 1 then Ok n
  else Raise ValueError.

(** A two dimensional array: its shape and its rows.  [tabulate n m f] is
    the array of shape [(n, m)] whose entry in row [i], column [j] is
    [f i j]; [item d x i j] reads an entry ([d] is returned outside the
    shape, where no definition below reads). *)
Record ndarray2 (A : Type) : Type := mk_ndarray2 {
  shape0 : nat;
  shape1 : nat;
  rows : list (list A)
}.

Section Arrays2.
Variables A B D : Type.

Definition tabulate (n m : nat) (f : nat -> nat -> A) : ndarray2 A :=
  mk_ndarray2 n m (map (fun i => map (f i) (seq 0 m)) (seq 0 n)).

Definition row (x : ndarray2 A) (i : nat) : list A := nth i (rows x) [].

Definition item (d : A) (x : ndarray2 A) (i j : nat) : A :=
  nth j (row x i) d.

Definition column (d : A) (x : ndarray2 A) (j : nat) : list A :=
  map (fun i => item d x i j) (seq 0 (shape0 x)).

Definition flatten (x : ndarray2 A) : list A := concat (rows x).

(** [v.reshape(-1, 1)] and [v.reshape(1, -1)]. *)
Definition as_column (v : list A) : ndarray2 A :=
  mk_ndarray2 (length v) 1 (map (fun a => [a]) v).
Definition as_row (v : list A) : ndarray2 A :=
  mk_ndarray2 1 (length v) [v].

(** Index of an operand along a broadcast axis. *)
Definition bidx (n i : nat) : nat := if Nat.eqb n 1 then 0%nat else i.

(** [r[:, j] = v]: the column must have the length of [v], or [v] has
    length one and is broadcast. *)
Definition set_column (d : A) (x : ndarray2 A) (j : nat) (v : list A)
  : result (ndarray2 A) :=
  if Nat.eqb (length v) (shape0 x) || Nat.eqb (length v) 1 then
    Ok (tabulate (shape0 x) (shape1 x)
          (fun i j' => if Nat.eqb j' j then nth (bidx (length v) i) v d
                       else item d x i j'))
  else Raise ValueError.
End Arrays2.

Section Arrays2Ops.
Variables A B D : Type.

(** [x op y] on two dimensional arrays, with broadcasting. *)
Definition np_binop2 (f : A -> B -> D) (dx : A) (dy : B)
  (x : ndarray2 A) (y : ndarray2 B) : result (ndarray2 D) :=
  n <- broadcast_dim (shape0 x) (shape0 y) ;;
  m <- broadcast_dim (shape1 x) (shape1 y) ;;
  Ok (tabulate n m
        (fun i j => f (item dx x (bidx (shape0 x) i) (bidx (shape1 x) j))
                      (item dy y (bidx (shape0 y) i) (bidx (shape1 y) j)))).

Definition np_map2d (f : A -> B) (x : ndarray2 A) : ndarray2 B :=
  mk_ndarray2 (shape0 x) (shape1 x) (map (map f) (rows x)).
End Arrays2Ops.

(** Python's [l[a:b]] for a list: negative bounds count from the end and
    bounds are clipped to the list. *)
Definition clip_index (n : nat) (i : Z) : nat :=
  if i <? 0 then Z.to_nat (Z.max 0 (i + Z.of_nat n))
  else Nat.min (Z.to_nat i) n.

Definition py_slice {A : Type} (l : list A) (a b : Z) : list A :=
  let a' := clip_index (length l) a in
  let b' := clip_index (length l) b in
  firstn (b' - a') (skipn a' l).

(** [l[-1:0:-1]]: the elements from the last one down to index 1. *)
Definition py_slice_rev_to_1 {A : Type} (l : list A) : list A :=
  rev (skipn 1 l).

(** [l[0]]. *)
Definition py_item0 {A : Type} (l : list A) : result A :=
  match l with
  | x :: _ => Ok x
  | [] => Raise IndexError
  end.

(** Reading an array two entries at a time. *)
Section Views.
Variables A B : Type.
Variable mk : A -> A -> B.

Fixpoint view_pairs (a : list A) : list B :=
  match a with
  | x :: y :: a' => mk x y :: view_pairs a'
  | _ => []
  end.
End Views.

Section NumPy.
Context {NP : Numerics}.

  (** [np.arange(n)] as floats. *)
Definition np_arange (n : Z) : list F :=
    map (fun i => F_of_Z (Z.of_nat i)) (seq 0 (Z.to_nat n)).

  (** [np.linspace(start, stop, num)]: [num] evenly spaced samples, the last
      one is [stop] itself; a negative [num] raises. *)
Definition np_linspace (start stop : F) (num : Z) : result (list F) :=
    if num <? 0 then Raise ValueError
    else match Z.to_nat num with
         | O => Ok []
         | S O => Ok [start]
         | S (S n) =>
             let step := Fdiv (Fsub stop start) (F_of_Z (num - 1)) in
             Ok (map (fun i => Fadd (Fmul (F_of_Z (Z.of_nat i)) step) start)
                     (seq 0 (S n)) ++ [stop])
         end.

  (** [np.tensordot(v, m, axes=([0], [1]))]: entry [i] is the dot product of
      [v] with row [i] of [m]; the contracted axes must agree. *)
Definition np_tensordot_0_1 (v : list C) (m : ndarray2 C) : result (list C) :=
    if Nat.eqb (length v) (shape1 m)
    then Ok (map (fun i => np_dot v (row m i)) (seq 0 (shape0 m)))
    else Raise ValueError.

  (** [np.tensordot(x, y, axes=([1], [1]))]. *)
Definition np_tensordot_1_1 (x y : ndarray2 C) : result (ndarray2 C) :=
    if Nat.eqb (shape1 x) (shape1 y)
    then Ok (tabulate (shape0 x) (shape0 y)
               (fun i j => np_dot (row x i) (row y j)))
    else Raise ValueError.

  (** [a.view(np.complex)] on a float array: consecutive pairs of floats
      are the real and imaginary parts (the array has even length at its
      only use). *)
Definition view_complex (a : list F) : list C := view_pairs Cmk a.

  (** [np.max] of a two dimensional array; an empty array raises. *)
Definition np_max2d (x : ndarray2 F) : result F :=
    match flatten x with
    | [] => Raise ValueError
    | l => Ok (np_max l)
    end.
End NumPy.

(** ** Code outside the two source files *)

(** numpy's generator and transform and scipy's spline.
    [np_random_seed s] is the generator state after [np.random.seed(s)]
    (which raises for a seed out of range); [np_random_normal scale size g]
    are the [size] draws of [np.random.normal(scale=scale, size=size)] from
    state [g], and the state after them.  The data argument of
    [InterpolatedUnivariateSpline] is [None] when the caller passes the
    array numpy makes of Python's [None]. *)
Class External {NP : Numerics} : Type := {
  RNG : Type;
  np_random_seed : Z -> result RNG;
  np_random_normal : F -> nat -> RNG -> list F * RNG;
  np_fft_fft : list C -> list C;
  InterpolatedUnivariateSpline :
    list F -> option (list F) -> Z -> result (F -> F)
}.

(** The compiled module [stocproc_c], which is not under src/. *)
Class Kernels {NP : Numerics} : Type := {
  z_t : Z -> nat -> list C -> list C -> bool -> result (list C);
  eig_func_all_interp :
    Z -> list F -> list C -> list F -> list F -> ndarray2 C ->
    result (ndarray2 C)
}.

(** The modules [method_kle] and [method_fft], which are not under src/:
    the quadrature rules, the Fredholm eigen-solver and the searches for the
    integration boundary and for [(a, b, N, dx, dt)]. *)
Class Solvers {NP : Numerics} : Type := {
  get_mid_point_weights_times : F -> Z -> result (list F * list F);
  get_simpson_weights_times : F -> Z -> result (list F * list F);
  solve_hom_fredholm :
    ndarray2 C -> list F -> F -> result (list F * ndarray2 C);
  find_integral_boundary : (F -> F) -> F -> F -> F -> F -> result F;
  calc_ab_N_dx_dt :
    (F -> F) -> F -> F -> F -> F -> F -> (F -> C) -> bool -> Z ->
    result (F * F * Z * F * F)
}.

(** ** tools.ComplexInterpolatedUnivariateSpline *)

Module tools.
Module ComplexInterpolatedUnivariateSpline.
Section defs.
Context {NP : Numerics} {EX : External}.

Record obj : Type := mk {
  re_spline : F -> F;
  im_spline : F -> F
}.

(** Modelled from the spec: the module [tools] that [stocproc.py] imports
    this class from is not under src/.  The specification says the real and
    imaginary parts are interpolated independently with a spline of degree
    [k]; the class of the same name in [class_stocproc.py] does so with
    scipy's [InterpolatedUnivariateSpline]. *)
Definition __init__ (x : list F) (y : list C) (k : Z) : result obj :=
  re <- InterpolatedUnivariateSpline x (Some (map Cre y)) k ;;
  im <- InterpolatedUnivariateSpline x (Some (map Cim y)) k ;;
  Ok (mk re im).

Definition __call__ (self : obj) (time : F) : C :=
  Cadd (C_of_F (re_spline self time))
       (Cmul Cj (C_of_F (im_spline self time))).
End defs.
End ComplexInterpolatedUnivariateSpline.
End tools.

(** ** stocproc._absStocProc *)

Module _absStocProc.
Section defs.
Context {NP : Numerics} {EX : External}.

(** The attributes the base class assigns. *)
Record obj : Type := mk {
  t_max : F;
  num_grid_points : Z;
  t : list F;
  _z : option (list C);
  _interpolator : option tools.ComplexInterpolatedUnivariateSpline.obj;
  _k : Z;
  _seed : option Z;
  _one_over_sqrt_2 : F;
  _proc_cnt : Z
}.

Definition set__z (v : option (list C)) (o : obj) : obj :=
  mk (t_max o) (num_grid_points o) (t o) v (_interpolator o) (_k o)
     (_seed o) (_one_over_sqrt_2 o) (_proc_cnt o).

Definition set__interpolator
  (v : option tools.ComplexInterpolatedUnivariateSpline.obj) (o : obj) : obj :=
  mk (t_max o) (num_grid_points o) (t o) (_z o) v (_k o)
     (_seed o) (_one_over_sqrt_2 o) (_proc_cnt o).

Definition set__proc_cnt (v : Z) (o : obj) : obj :=
  mk (t_max o) (num_grid_points o) (t o) (_z o) (_interpolator o) (_k o)
     (_seed o) (_one_over_sqrt_2 o) v.

(** [__init__(self, t_max, num_grid_points, seed=None, k=3)].  Every
    attribute of the base class is assigned, so the object after the call
    does not depend on the one before it. *)
Definition __init__ (t_max : F) (num_grid_points : Z) (seed : option Z)
  (k : Z) (g : RNG) : result (obj * RNG) :=
  grid <- np_linspace (F_of_Z 0) t_max num_grid_points ;;
  g' <- match seed with
        | Some s => np_random_seed s
        | None => Ok g
        end ;;
  Ok (mk t_max num_grid_points grid None None k seed
         (Fdiv (F_of_Z 1) (Fsqrt (F_of_Z 2))) 0, g').

(** The methods a subclass provides, and its access to the inherited
    attributes. *)
Class StocProc (Self : Type) : Type := {
  super : Self -> obj;
  with_super : Self -> obj -> Self;
  _calc_z : Self -> list C -> result (list C);
  get_num_y : Self -> nat
}.

Section methods.
Context {Self : Type} {SP : StocProc Self}.

(** What [__call__] returns: the stored array when [t] is omitted, the
    interpolated value otherwise. *)
Inductive call_value : Type :=
| Raw (z : list C)
| Value (v : C).

(** [__call__(self, t=None)]; the time argument is a single float. *)
Definition __call__ (self : Self) (time : option F)
  : Self * result call_value :=
  match _z (super self) with
  | None => (self, Raise RuntimeError)
  | Some z =>
      match time with
      | None => (self, Ok (Raw z))
      | Some x =>
          match _interpolator (super self) with
          | Some itp =>
              (self,
               Ok (Value (tools.ComplexInterpolatedUnivariateSpline.__call__
                            itp x)))
          | None =>
              match tools.ComplexInterpolatedUnivariateSpline.__init__
                      (t (super self)) z (_k (super self)) with
              | Ok itp =>
                  (with_super self (set__interpolator (Some itp) (super self)),
                   Ok (Value
                         (tools.ComplexInterpolatedUnivariateSpline.__call__
                            itp x)))
              | Raise e => (self, Raise e)
              end
          end
      end
  end.

Definition get_time (self : Self) : list F := t (super self).

Definition get_z (self : Self) : option (list C) := _z (super self).

(** The random input vector [new_process] draws when [y] is omitted. *)
Definition draw_y (self : Self) (g : RNG) : list C * RNG :=
  let '(a, g') :=
    np_random_normal (_one_over_sqrt_2 (super self))
                     (2 * get_num_y self)%nat g in
  (view_complex a, g').

(** [new_process(self, y=None, seed=None)].  The attributes assigned
    before [_calc_z] runs keep their new values when it raises. *)
Definition new_process (self : Self) (y : option (list C)) (seed : option Z)
  (g : RNG) : Self * RNG * result unit :=
  let self1 :=
    with_super self (set__interpolator None (super self)) in
  let self2 :=
    with_super self1
      (set__proc_cnt (_proc_cnt (super self1) + 1) (super self1)) in
  match (match seed with
         | Some s => np_random_seed s
         | None => Ok g
         end) with
  | Raise e => (self2, g, Raise e)
  | Ok g1 =>
      let '(y', g2) :=
        match y with
        | None => draw_y self2 g1
        | Some v => (v, g1)
        end in
      match _calc_z self2 y' with
      | Ok z => (with_super self2 (set__z (Some z) (super self2)), g2, Ok tt)
      | Raise e => (self2, g2, Raise e)
      end
  end.
End methods.
End defs.
End _absStocProc.

(** ** Loops *)

(** [for i in l: body], threading the loop state and stopping at the first
    exception. *)
Fixpoint for_in {I S : Type} (l : list I) (body : I -> S -> result S) (s : S)
  : result S :=
  match l with
  | [] => Ok s
  | i :: l' => s' <- body i s ;; for_in l' body s'
  end.

(** [range(n)]. *)
Definition range (n : nat) : list nat := seq 0 n.

(** ** stocproc.StocProc_KLE *)

Module StocProc_KLE.
Section defs.
Context {NP : Numerics} {EX : External} {KN : Kernels} {SV : Solvers}.

Definition METHOD : string := "midp"%string.

(** The tuple [key] of the constructor arguments; its third component is
    [ng_fredholm], which [StocProc_KLE_tol] replaces by the tolerance. *)
Definition key_t : Type := ((F -> C) * F * (Z + F) * Z * F * bool)%type.

(** The attributes of a [StocProc_KLE] object.  The last six are assigned by
    [__init__] only and are absent ([None]) on an object restored by
    [__setstate__]; no statement of the class assigns [_sqrt_eig_val]. *)
Record obj : Type := mk {
  base : _absStocProc.obj;
  _A : ndarray2 C;
  alpha_k : list C;
  ng_fac : Z;
  kle_interp : bool;
  num_y : nat;
  key : option key_t;
  _s : option (list F);
  _w : option (list F);
  _eig_val : option (list F);
  _eig_vec : option (ndarray2 C);
  _sqrt_eig_val : option (list F)
}.

Definition set_base (self : obj) (b : _absStocProc.obj) : obj :=
  mk b (_A self) (alpha_k self) (ng_fac self) (kle_interp self) (num_y self)
     (key self) (_s self) (_w self) (_eig_val self) (_eig_vec self)
     (_sqrt_eig_val self).

Definition set_key (v : option key_t) (self : obj) : obj :=
  mk (base self) (_A self) (alpha_k self) (ng_fac self) (kle_interp self)
     (num_y self) v (_s self) (_w self) (_eig_val self) (_eig_vec self)
     (_sqrt_eig_val self).

(** The snapshot [(_A, alpha_k, seed, k, t_max, ng_fac)]. *)
Definition state : Type := (ndarray2 C * list C * option Z * Z * F * Z)%type.

Definition __getstate__ (self : obj) : state :=
  (_A self, alpha_k self, _absStocProc._seed (base self),
   _absStocProc._k (base self), _absStocProc.t_max (base self), ng_fac self).

Definition __setstate__ (st : state) (g : RNG) : result (obj * RNG) :=
  let '(A, alpha, seed, k, t_max, fac) := st in
  let interp := if fac =? 1 then false else true in
  let num_gp := shape0 A in
  let ng_fine := fac * (Z.of_nat num_gp - 1) + 1 in
  '(b, g') <- _absStocProc.__init__ t_max ng_fine seed k g ;;
  Ok (mk b A alpha fac interp (shape1 A) None None None None None None, g').

(** [_calc_corr_min_t_plus_t(s, bcf)] *)
Definition _calc_corr_min_t_plus_t (s : list F) (bcf : F -> C)
  : result (list C) :=
  s0 <- py_item0 s ;;
  let bcf_n_plus := map bcf (map (fun x => Fsub x s0) s) in
  Ok (map Cconj (py_slice_rev_to_1 bcf_n_plus) ++ bcf_n_plus).

(** The loop shared by [_calc_corr_matrix] and
    [_init_StocProc_KLE_and_get_error]:
    [for i in range(n): idx = n-1-i; r[:,i] = v[idx:idx+n]]
    on [r = np.empty((n, n))]. *)
Definition fill_columns (n : nat) (v : list C) : result (ndarray2 C) :=
  for_in (range n)
    (fun i r =>
       let idx := Z.of_nat n - 1 - Z.of_nat i in
       set_column np_empty r i (py_slice v idx (idx + Z.of_nat n)))
    (tabulate n n (fun _ _ => np_empty)).

(** [_calc_corr_matrix(s, bcf)] *)
Definition _calc_corr_matrix (s : list F) (bcf : F -> C)
  : result (ndarray2 C) :=
  let n_ := length s in
  bcf_n <- _calc_corr_min_t_plus_t s bcf ;;
  fill_columns n_ bcf_n.

(** The [align_eig_vec] loop of [__init__]. *)
Definition align (eig_vec : ndarray2 C) : result (ndarray2 C) :=
  for_in (range (shape1 eig_vec))
    (fun i ev =>
       let s := np_sum (column np_empty ev i) in
       let phase := Cexp (Cmul Cj (C_of_F (Farctan2 (Cre s) (Cim s)))) in
       set_column np_empty ev i
         (map (fun x => Cdiv x phase) (column np_empty ev i)))
    eig_vec.

(** [__init__(self, r_tau, t_max, ng_fredholm, ng_fac=4, seed=None,
    sig_min=1e-5, k=3, align_eig_vec=False)]; the argument [ng_fac] is
    [fac] here. *)
Definition __init__ (r_tau : F -> C) (t_max : F) (ng_fredholm fac : Z)
  (seed : option Z) (sig_min : F) (k : Z) (align_eig_vec : bool) (g : RNG)
  : result (obj * RNG) :=
  '(tw) <- (if String.eqb METHOD "midp"%string
            then get_mid_point_weights_times t_max ng_fredholm
            else if String.eqb METHOD "simp"%string
            then get_simpson_weights_times t_max ng_fredholm
            else Raise NameError) ;;
  let '(times, w) := tw in
  r <- _calc_corr_matrix times r_tau ;;
  '(ee) <- solve_hom_fredholm r w (Fpow sig_min 2) ;;
  let '(eig_val, eig_vec0) := ee in
  eig_vec <- (if align_eig_vec then align eig_vec0 else Ok eig_vec0) ;;
  let sqrt_eig_val := map Fsqrt eig_val in
  wu <- np_binop2 (fun a b => Cmul (C_of_F a) b) (F_of_Z 0) np_empty
          (as_column w) eig_vec ;;
  A <- np_binop2 (fun a b => Cdiv a (C_of_F b)) np_empty (F_of_Z 0)
         wu (as_row sqrt_eig_val) ;;
  let ng_fine := fac * (ng_fredholm - 1) + 1 in
  fine <- np_linspace (F_of_Z 0) t_max ng_fine ;;
  alpha <- _calc_corr_min_t_plus_t fine r_tau ;;
  '(sg) <- __setstate__ (A, alpha, seed, k, t_max, fac) g ;;
  let '(self, g') := sg in
  Ok (mk (base self) (_A self) (alpha_k self) (ng_fac self) (kle_interp self)
         (num_y self)
         (Some (r_tau, t_max, inl ng_fredholm, fac, sig_min, align_eig_vec))
         (Some times) (Some w) (Some eig_val) (Some eig_vec)
         (_sqrt_eig_val self),
      g').

(** [_calc_z(self, y)] *)
Definition _calc_z (self : obj) (y : list C) : result (list C) :=
  if kle_interp self then
    a_tmp <- np_tensordot_0_1 y (_A self) ;;
    z_t (ng_fac self) (shape0 (_A self)) (alpha_k self) a_tmp true
  else
    match _sqrt_eig_val self with
    | None => Raise AttributeError
    | Some sq =>
        ysq <- np_binop (fun a b => Cmul a (C_of_F b)) y sq ;;
        match _eig_vec self with
        | None => Raise AttributeError
        | Some ev => np_tensordot_0_1 ysq ev
        end
    end.

Definition get_num_y (self : obj) : nat := num_y self.

(** [_getkey(self)]; [cls] is [self.__class__.__name__].  The attribute
    [key] is assigned by [__init__] only. *)
Definition _getkey (cls : string) (self : obj) : result (string * key_t) :=
  match key self with
  | Some v => Ok (cls, v)
  | None => Raise AttributeError
  end.

#[export] Instance StocProc_KLE_is_StocProc : _absStocProc.StocProc obj := {
  _absStocProc.super := base;
  _absStocProc.with_super := set_base;
  _absStocProc._calc_z := _calc_z;
  _absStocProc.get_num_y := get_num_y
}.
End defs.
End StocProc_KLE.

(** ** stocproc.StocProc_KLE_tol *)

Module StocProc_KLE_tol.
Section defs.
Context {NP : Numerics} {EX : External} {KN : Kernels} {SV : Solvers}.

(** The attributes of [StocProc_KLE], and [tol]. *)
Record obj : Type := mk {
  kle : StocProc_KLE.obj;
  tol : F
}.

(** The keyword arguments [__init__] hands to [_auto_grid_points]. *)
Record kwargs : Type := mk_kwargs {
  r_tau : F -> C;
  t_max : F;
  ng_fac : Z;
  seed : option Z;
  sig_min : F;
  k : Z;
  align_eig_vec : bool
}.

(** An attribute [__init__] of [StocProc_KLE] assigns. *)
Definition attr {A : Type} (a : option A) : result A :=
  match a with
  | Some v => Ok v
  | None => Raise AttributeError
  end.

(** [_init_StocProc_KLE_and_get_error(self, ng, **kwargs)]: the object is
    initialised anew for [ng] nodes and the error of that initialisation is
    returned. *)
Definition _init_StocProc_KLE_and_get_error (ng : Z) (kw : kwargs) (g : RNG)
  : result (StocProc_KLE.obj * F * RNG) :=
  '(sg) <- StocProc_KLE.__init__ (r_tau kw) (t_max kw) ng (ng_fac kw)
             (seed kw) (sig_min kw) (k kw) (align_eig_vec kw) g ;;
  let '(self, g') := sg in
  let ng_fine := StocProc_KLE.ng_fac self * (ng - 1) + 1 in
  s <- attr (StocProc_KLE._s self) ;;
  w <- attr (StocProc_KLE._w self) ;;
  eig_val <- attr (StocProc_KLE._eig_val self) ;;
  eig_vec <- attr (StocProc_KLE._eig_vec self) ;;
  u_i_all_t <- eig_func_all_interp (StocProc_KLE.ng_fac self) s
                 (StocProc_KLE.alpha_k self) w eig_val eig_vec ;;
  let u_i_all_ast_s := np_map2d Cconj u_i_all_t in
  tmp <- np_binop2 (fun a b => Cmul (C_of_F a) b) (F_of_Z 0) np_empty
           (as_row eig_val) u_i_all_t ;;
  recs_bcf <- np_tensordot_1_1 tmp u_i_all_ast_s ;;
  refc_bcf <- (if ng_fine <? 0 then Raise ValueError
               else StocProc_KLE.fill_columns (Z.to_nat ng_fine)
                      (StocProc_KLE.alpha_k self)) ;;
  diff <- np_binop2 Csub np_empty np_empty recs_bcf refc_bcf ;;
  quot <- np_binop2 Fdiv (F_of_Z 0) (F_of_Z 0)
            (np_map2d Cabs diff) (np_map2d Cabs refc_bcf) ;;
  err <- np_max2d quot ;;
  Ok (self, err, g').

(** The first loop of [_auto_grid_points]:
    [while err > self.tol: c *= 2; ng = 2*c + 1; err = ...].
    [self] is [None] as long as no initialisation has run.  The loop need
    not terminate: [None] is returned when [fuel] iterations did not reach
    the exit. *)
Fixpoint doubling (fuel : nat) (tolerance : F) (kw : kwargs) (err : F)
  (c : Z) (self : option StocProc_KLE.obj) (g : RNG)
  : option (result (Z * option StocProc_KLE.obj * RNG)) :=
  if Fgtb err tolerance then
    match fuel with
    | O => None
    | S fuel' =>
        let c' := c * 2 in
        let ng := 2 * c' + 1 in
        match _init_StocProc_KLE_and_get_error ng kw g with
        | Raise e => Some (Raise e)
        | Ok (self', err', g') =>
            doubling fuel' tolerance kw err' c' (Some self') g'
        end
    end
  else Some (Ok (c, self, g)).

(** The second loop:
    [while (c_high - c_low) > 1: c = (c_low + c_high) // 2; ...]. *)
Fixpoint bisection (fuel : nat) (tolerance : F) (kw : kwargs)
  (c_low c_high : Z) (self : option StocProc_KLE.obj) (g : RNG)
  : option (result (option StocProc_KLE.obj * RNG)) :=
  if c_high - c_low >? 1 then
    match fuel with
    | O => None
    | S fuel' =>
        let c := (c_low + c_high) / 2 in
        let ng := 2 * c + 1 in
        match _init_StocProc_KLE_and_get_error ng kw g with
        | Raise e => Some (Raise e)
        | Ok (self', err, g') =>
            if Fgtb err tolerance
            then bisection fuel' tolerance kw c c_high (Some self') g'
            else bisection fuel' tolerance kw c_low c (Some self') g'
        end
    end
  else Some (Ok (self, g)).

(** [_auto_grid_points(self, **kwargs)] *)
Definition _auto_grid_points (fuel : nat) (tolerance : F) (kw : kwargs)
  (g : RNG) : option (result (option StocProc_KLE.obj * RNG)) :=
  match doubling fuel tolerance kw Finf 2 None g with
  | None => None
  | Some (Raise e) => Some (Raise e)
  | Some (Ok (c, self, g')) =>
      let c_low := c / 2 in
      let c_high := c in
      bisection fuel tolerance kw c_low c_high self g'
  end.

(** [__init__(self, r_tau, t_max, tol=1e-2, ng_fac=4, seed=None, k=3,
    align_eig_vec=False)] *)
Definition __init__ (fuel : nat) (r_tau0 : F -> C) (t_max0 tol0 : F)
  (fac : Z) (seed0 : option Z) (k0 : Z) (align0 : bool) (g : RNG)
  : option (result (obj * RNG)) :=
  let kw := mk_kwargs r_tau0 t_max0 fac seed0 (Fpow tol0 2) k0 align0 in
  match _auto_grid_points fuel tol0 kw g with
  | None => None
  | Some (Raise e) => Some (Raise e)
  | Some (Ok (self, g')) =>
      Some (self' <- attr self ;;
            '(key) <- attr (StocProc_KLE.key self') ;;
            let '(key0, key1, _, key3, key4, key5) := key in
            Ok (mk (StocProc_KLE.set_key
                      (Some (key0, key1, inr tol0, key3, key4, key5)) self')
                   tol0,
                g'))
  end.

#[export] Instance StocProc_KLE_tol_is_StocProc : _absStocProc.StocProc obj := {
  _absStocProc.super := fun self => StocProc_KLE.base (kle self);
  _absStocProc.with_super :=
    fun self b => mk (StocProc_KLE.set_base (kle self) b) (tol self);
  _absStocProc._calc_z := fun self => StocProc_KLE._calc_z (kle self);
  _absStocProc.get_num_y := fun self => StocProc_KLE.get_num_y (kle self)
}.
End defs.
End StocProc_KLE_tol.

(** ** stocproc.StocProc_FFT_tol *)

Module StocProc_FFT_tol.
Section defs.
Context {NP : Numerics} {EX : External} {KN : Kernels} {SV : Solvers}.

Record obj : Type := mk {
  base : _absStocProc.obj;
  yl : list F;
  omega_min_correction : list C
}.

Definition set_base (self : obj) (b : _absStocProc.obj) : obj :=
  mk b (yl self) (omega_min_correction self).

(** The first part of [__init__]: the search for [(a, b, N, dx, dt)]. *)
Definition resolve (spectral_density : F -> F) (t_max : F) (bcf_ref : F -> C)
  (intgr_tol intpl_tol : F) (negative_frequencies : bool)
  : result (F * F * Z * F * F) :=
  if negb negative_frequencies then
    b <- find_integral_boundary spectral_density (Fpow intgr_tol 2)
           (F_of_Z 1) (F_lit 1 6) (F_of_Z 1) ;;
    calc_ab_N_dx_dt spectral_density intgr_tol intpl_tol t_max (F_of_Z 0) b
      (fun tau => Cmul (bcf_ref tau) (C_of_F Fpi)) true (2 ^ 24)
  else
    b <- find_integral_boundary spectral_density (Fpow intgr_tol 2)
           (F_of_Z 1) (F_lit 1 6) (F_of_Z 1) ;;
    a <- find_integral_boundary spectral_density (Fpow intgr_tol 2)
           (F_of_Z (-1)) (F_lit 1 6) (F_of_Z (-1)) ;;
    calc_ab_N_dx_dt spectral_density intgr_tol intpl_tol t_max a b
      (fun tau => Cmul (bcf_ref tau) (C_of_F Fpi)) false (2 ^ 24).

(** [self.yl]: [omega = dx*np.arange(N)],
    [yl = np.sqrt(spectral_density(omega + a + dx/2) * dx / np.pi)]. *)
Definition sample_density (spectral_density : F -> F) (a : F) (N : Z) (dx : F)
  : list F :=
  let omega := map (fun i => Fmul dx i) (np_arange N) in
  let y :=
    map (fun om =>
           Fdiv (Fmul (spectral_density
                         (Fadd (Fadd om a) (Fdiv dx (F_of_Z 2)))) dx) Fpi)
        omega in
  map Fsqrt y.

(** [np.exp(-1j*(a+dx/2)*self.t)] *)
Definition phase_correction (a dx : F) (grid : list F) : list C :=
  map (fun x =>
         Cexp (Cmul (Cmul (Cneg Cj) (C_of_F (Fadd a (Fdiv dx (F_of_Z 2)))))
                    (C_of_F x)))
      grid.

(** [__init__(self, spectral_density, t_max, bcf_ref, intgr_tol=1e-2,
    intpl_tol=1e-2, seed=None, k=3, negative_frequencies=False)] *)
Definition __init__ (spectral_density : F -> F) (t_max : F) (bcf_ref : F -> C)
  (intgr_tol intpl_tol : F) (seed : option Z) (k : Z)
  (negative_frequencies : bool) (g : RNG) : result (obj * RNG) :=
  '(p) <- resolve spectral_density t_max bcf_ref intgr_tol intpl_tol
            negative_frequencies ;;
  let '(a, b, N, dx, dt) := p in
  if Fltb (Fabs (Fsub (Fmul (F_of_Z 2) Fpi) (Fmul (Fmul (F_of_Z N) dx) dt)))
          (F_lit 1 (-12))
  then
    let num_grid_points := Fceil (Fdiv t_max dt) + 1 in
    let t_max' := Fmul (F_of_Z (num_grid_points - 1)) dt in
    '(sg) <- _absStocProc.__init__ t_max' num_grid_points seed k g ;;
    let '(super, g') := sg in
    Ok (mk super (sample_density spectral_density a N dx)
           (phase_correction a dx (_absStocProc.t super)), g')
  else Raise AssertionError.

(** The snapshot
    [(yl, num_grid_points, omega_min_correction, t_max, seed, k)]. *)
Definition state : Type := (list F * Z * list C * F * option Z * Z)%type.

Definition __getstate__ (self : obj) : state :=
  (yl self, _absStocProc.num_grid_points (base self),
   omega_min_correction self, _absStocProc.t_max (base self),
   _absStocProc._seed (base self), _absStocProc._k (base self)).

Definition __setstate__ (st : state) (g : RNG) : result (obj * RNG) :=
  let '(yl0, num_grid_points, omc, t_max, seed, k) := st in
  '(sg) <- _absStocProc.__init__ t_max num_grid_points seed k g ;;
  let '(super, g') := sg in
  Ok (mk super yl0 omc, g').

(** [_calc_z(self, y)] *)
Definition _calc_z (self : obj) (y : list C) : result (list C) :=
  weighted <- np_binop (fun a b => Cmul (C_of_F a) b) (yl self) y ;;
  np_binop Cmul
    (py_slice (np_fft_fft weighted) 0
       (_absStocProc.num_grid_points (base self)))
    (omega_min_correction self).

Definition get_num_y (self : obj) : nat := length (yl self).

#[export] Instance StocProc_FFT_tol_is_StocProc : _absStocProc.StocProc obj := {
  _absStocProc.super := base;
  _absStocProc.with_super := set_base;
  _absStocProc._calc_z := _calc_z;
  _absStocProc.get_num_y := get_num_y
}.
End defs.
End StocProc_FFT_tol.

(** ** Python's own floats *)

(** A division of Python numbers raises [ZeroDivisionError] when its divisor
    compares equal to zero, where numpy's division returns [inf] or [nan];
    [Fis_zero x] is [x == 0]. *)
Class PythonFloat {NP : Numerics} : Type := {
  Fis_zero : F -> bool
}.

Definition py_truediv {NP : Numerics} {PF : PythonFloat} (a b : F) : result F :=
  if Fis_zero b then Raise ZeroDivisionError else Ok (Fdiv a b).

(** ** class_stocproc: the older base class *)

Module class_stocproc.
Module ComplexInterpolatedUnivariateSpline.
Section defs.
Context {NP : Numerics} {EX : External}.

(** [np.real(y)] and [np.imag(y)]; [y] is [None] when the caller passes
    Python's [None]. *)
Definition np_real (y : option (list C)) : option (list F) :=
  option_map (map Cre) y.
Definition np_imag (y : option (list C)) : option (list F) :=
  option_map (map Cim) y.

(** [__init__(self, x, y, k=2)]: [k] is not handed on, scipy's default
    degree 3 is used. *)
Definition __init__ (x : list F) (y : option (list C)) (k : Z)
  : result tools.ComplexInterpolatedUnivariateSpline.obj :=
  re <- InterpolatedUnivariateSpline x (np_real y) 3 ;;
  im <- InterpolatedUnivariateSpline x (np_imag y) 3 ;;
  Ok (tools.ComplexInterpolatedUnivariateSpline.mk re im).
End defs.
End ComplexInterpolatedUnivariateSpline.

Module _absStocProc.
Section defs.
Context {NP : Numerics} {EX : External}.
Context {Self : Type} {SP : _absStocProc.StocProc Self}.

(** [__call__(self, t)]: there is no test of [self._z]. *)
Definition __call__ (self : Self) (time : F) : Self * result C :=
  match _absStocProc._interpolator (_absStocProc.super self) with
  | Some itp =>
      (self, Ok (tools.ComplexInterpolatedUnivariateSpline.__call__ itp time))
  | None =>
      match ComplexInterpolatedUnivariateSpline.__init__
              (_absStocProc.t (_absStocProc.super self))
              (_absStocProc._z (_absStocProc.super self))
              (_absStocProc._k (_absStocProc.super self)) with
      | Ok itp =>
          (_absStocProc.with_super self
             (_absStocProc.set__interpolator (Some itp)
                (_absStocProc.super self)),
           Ok (tools.ComplexInterpolatedUnivariateSpline.__call__ itp time))
      | Raise e => (self, Raise e)
      end
  end.

(** [new_process(self, y=None, seed=None)]: as in [stocproc.py], without
    the counter [_proc_cnt]. *)
Definition new_process (self : Self) (y : option (list C)) (seed : option Z)
  (g : RNG) : Self * RNG * result unit :=
  let self1 :=
    _absStocProc.with_super self
      (_absStocProc.set__interpolator None (_absStocProc.super self)) in
  match (match seed with
         | Some s => np_random_seed s
         | None => Ok g
         end) with
  | Raise e => (self1, g, Raise e)
  | Ok g1 =>
      let '(y', g2) :=
        match y with
        | None => _absStocProc.draw_y self1 g1
        | Some v => (v, g1)
        end in
      match _absStocProc._calc_z self1 y' with
      | Ok z =>
          (_absStocProc.with_super self1
             (_absStocProc.set__z (Some z) (_absStocProc.super self1)),
           g2, Ok tt)
      | Raise e => (self1, g2, Raise e)
      end
  end.
End defs.
End _absStocProc.
(** [class_stocproc.StocProc_FFT]: the transform method on a grid given by
    its number of points.  What [__init__] prints when [verbose] is
    positive is left out. *)
Module StocProc_FFT.
Section defs.
Context {NP : Numerics} {EX : External} {PF : PythonFloat}.

(** The attributes of the older base class and of [StocProc_FFT]. *)
Record obj : Type := mk {
  _verbose : Z;
  t_max : F;
  num_grid_points : Z;
  t : list F;
  _z : option (list C);
  _interpolator : option tools.ComplexInterpolatedUnivariateSpline.obj;
  _k : Z;
  _one_over_sqrt_2 : F;
  n_dft : Z;
  delta_omega : F;
  sqrt_spectral_density_over_pi_times_sqrt_delta_omega : list F
}.

(** [__init__(self, spectral_density, t_max, num_grid_points, seed=None,
    verbose=0, k=3)], with the [__init__] of the older base class it calls
    first.  [t_max] is a Python number, so
    [delta_t = t_max / (num_grid_points-1)] and
    [2 * np.pi / (delta_t * self.n_dft)] are divisions of Python numbers:
    the first raises when [num_grid_points] is 1, the second when the
    product is zero. *)
Definition __init__ (spectral_density : F -> F) (t_max : F)
  (num_grid_points : Z) (seed : option Z) (verbose : Z) (k : Z) (g : RNG)
  : result (obj * RNG) :=
  grid <- np_linspace (F_of_Z 0) t_max num_grid_points ;;
  g' <- match seed with
        | Some s => np_random_seed s
        | None => Ok g
        end ;;
  let n_dft := num_grid_points * 2 - 1 in
  delta_t <- (if num_grid_points - 1 =? 0
              then Raise ZeroDivisionError
              else Ok (Fdiv t_max (F_of_Z (num_grid_points - 1)))) ;;
  delta_omega <-
    py_truediv (Fmul (F_of_Z 2) Fpi) (Fmul delta_t (F_of_Z n_dft)) ;;
  let omega := map (fun i => Fmul delta_omega i) (np_arange n_dft) in
  let weights :=
    map (fun om =>
           Fmul (Fsqrt (Fdiv (spectral_density om) Fpi)) (Fsqrt delta_omega))
        omega in
  Ok (mk verbose t_max num_grid_points grid None None k
         (Fdiv (F_of_Z 1) (Fsqrt (F_of_Z 2))) n_dft delta_omega weights,
      g').

(** [_calc_z(self, y)] *)
Definition _calc_z (self : obj) (y : list C) : result (list C) :=
  weighted_integrand <-
    np_binop (fun a b => Cmul (C_of_F a) b)
      (sqrt_spectral_density_over_pi_times_sqrt_delta_omega self) y ;;
  Ok (py_slice (np_fft_fft weighted_integrand) 0 (num_grid_points self)).

(** [get_num_y(self)] *)
Definition get_num_y (self : obj) : Z := n_dft self.
End defs.
End StocProc_FFT.
End class_stocproc.

(** ** Engines *)

(** An engine is an object of one of the three classes of [stocproc.py]. *)
Inductive engine {NP : Numerics} : Type :=
| KLE (e : StocProc_KLE.obj)
| KLE_tol (e : StocProc_KLE_tol.obj)
| FFT_tol (e : StocProc_FFT_tol.obj).

Section Engines.
Context {NP : Numerics} {EX : External} {KN : Kernels} {SV : Solvers}.

#[export] Instance engine_is_StocProc : _absStocProc.StocProc engine := {
  _absStocProc.super := fun e =>
    match e with
    | KLE o => StocProc_KLE.base o
    | KLE_tol o => StocProc_KLE.base (StocProc_KLE_tol.kle o)
    | FFT_tol o => StocProc_FFT_tol.base o
    end;
  _absStocProc.with_super := fun e b =>
    match e with
    | KLE o => KLE (StocProc_KLE.set_base o b)
    | KLE_tol o =>
        KLE_tol (StocProc_KLE_tol.mk
                   (StocProc_KLE.set_base (StocProc_KLE_tol.kle o) b)
                   (StocProc_KLE_tol.tol o))
    | FFT_tol o => FFT_tol (StocProc_FFT_tol.set_base o b)
    end;
  _absStocProc._calc_z := fun e =>
    match e with
    | KLE o => StocProc_KLE._calc_z o
    | KLE_tol o => StocProc_KLE._calc_z (StocProc_KLE_tol.kle o)
    | FFT_tol o => StocProc_FFT_tol._calc_z o
    end;
  _absStocProc.get_num_y := fun e =>
    match e with
    | KLE o => StocProc_KLE.get_num_y o
    | KLE_tol o => StocProc_KLE.get_num_y (StocProc_KLE_tol.kle o)
    | FFT_tol o => StocProc_FFT_tol.get_num_y o
    end
}.

(** The calls of the process interface, and a history of such calls. *)
Inductive call : Type :=
| Call_new_process (y : option (list C)) (seed : option Z)
| Call___call__ (time : option F)
| Call_get_z
| Call_get_time.

(** One call: the engine and the generator after it, and whether it
    returned. *)
Definition step (s : engine * RNG) (c : call) : engine * RNG * bool :=
  let '(e, g) := s in
  match c with
  | Call_new_process y seed =>
      let '(e', g', r) := _absStocProc.new_process e y seed g in
      (e', g', is_ok r)
  | Call___call__ time =>
      let '(e', r) := _absStocProc.__call__ e time in
      (e', g, is_ok r)
  | Call_get_z => (e, g, true)
  | Call_get_time => (e, g, true)
  end.

Fixpoint run (s : engine * RNG) (h : list call) : engine * RNG :=
  match h with
  | [] => s
  | c :: h' => run (fst (step s c)) h'
  end.

(** Whether a call of a history is a [new_process] that returned. *)
Fixpoint some_new_process_returned (s : engine * RNG) (h : list call) : bool :=
  match h with
  | [] => false
  | c :: h' =>
      match c with
      | Call_new_process _ _ =>
          snd (step s c) || some_new_process_returned (fst (step s c)) h'
      | _ => some_new_process_returned (fst (step s c)) h'
      end
  end.
End Engines.

(** ** An exact integer interpretation

    Floats are integers and complex numbers are Gaussian integers, so that
    the definitions above can be run.  Quotients and roots are rounded
    down, a literal is rounded up to the next integer, [pi] is 3, the
    exponential is constant; the transform is the discrete Fourier
    transform for the lengths 1, 2 and 4, whose roots of unity are Gaussian
    integers.  [z_t] is the double sum over the doubled lag vector;
    the quadrature, the eigen-solver and the boundary searches return fixed
    small answers. *)

Module Toy.

Definition Cz : Type := (Z * Z)%type.

Definition cadd (x y : Cz) : Cz := (fst x + fst y, snd x + snd y).
Definition csub (x y : Cz) : Cz := (fst x - fst y, snd x - snd y).
Definition cmul (x y : Cz) : Cz :=
  (fst x * fst y - snd x * snd y, fst x * snd y + snd x * fst y).
Definition cconj (x : Cz) : Cz := (fst x, - snd x).
Definition cdiv (x y : Cz) : Cz :=
  let d := fst y * fst y + snd y * snd y in
  let n := cmul x (cconj y) in
  (fst n / d, snd n / d).
Definition csum (l : list Cz) : Cz := fold_left cadd l (0, 0).

Fixpoint cpow (x : Cz) (n : nat) : Cz :=
  match n with
  | O => (1, 0)
  | S n' => cmul x (cpow x n')
  end.

Definition lit (m e : Z) : Z :=
  if e <? 0 then - ((- m) / 10 ^ (- e)) else m * 10 ^ e.

#[export] Instance numerics : Numerics := {
  F := Z;
  C := Cz;
  F_of_Z := fun x => x;
  F_lit := lit;
  Fadd := Z.add;
  Fsub := Z.sub;
  Fmul := Z.mul;
  Fdiv := Z.div;
  Fpow := Z.pow;
  Fabs := Z.abs;
  Fsqrt := Z.sqrt;
  Farctan2 := fun _ _ => 0;
  Fceil := fun x => x;
  Fpi := 3;
  Finf := 2 ^ 1024;
  Fgtb := Z.gtb;
  Fltb := Z.ltb;
  np_max := fun l => fold_right Z.max (hd 0 l) l;
  C_of_F := fun x => (x, 0);
  Cmk := fun x y => (x, y);
  Cj := (0, 1);
  Cre := fst;
  Cim := snd;
  Cneg := fun x => (- fst x, - snd x);
  Cadd := cadd;
  Csub := csub;
  Cmul := cmul;
  Cdiv := cdiv;
  Cconj := cconj;
  Cexp := fun _ => (1, 0);
  Cabs := fun x => Z.sqrt (fst x * fst x + snd x * snd x);
  np_sum := csum;
  np_dot := fun a b => csum (map2 cmul a b);
  np_empty := (0, 0)
}.

(** The discrete Fourier transform [X_k = sum_j x_j w^(j k)] with
    [w = exp(-2 pi i / n)] for [n] in 1, 2, 4. *)
Definition dft (x : list Cz) : list Cz :=
  let n := length x in
  let w : Cz := match n with
                | 2%nat => (-1, 0)
                | 4%nat => (0, -1)
                | _ => (1, 0)
                end in
  map (fun k =>
         csum (map (fun j => cmul (nth j x (0, 0)) (cpow w (j * k)))
                   (seq 0 n)))
      (seq 0 n).

(** A step function through the data: the value at the first node that is
    not before [x]. *)
Fixpoint step_interp (xs ys : list Z) (x : Z) : Z :=
  match xs, ys with
  | a :: xs', b :: ys' =>
      if (x <=? a) || (match xs' with [] => true | _ => false end) then b
      else step_interp xs' ys' x
  | _, _ => 0
  end.

(** [z_j = sum_i a_i alpha_k[(n2 - 1) + j - fac i]] for the [n2] nodes of
    the fine grid. *)
Definition z_t (fac : Z) (n1 : nat) (alpha : list Cz) (a : list Cz)
  (kahan : bool) : result (list Cz) :=
  let n2 := Z.to_nat (fac * (Z.of_nat n1 - 1) + 1) in
  Ok (map (fun j =>
             csum (map (fun i =>
                          cmul (nth i a (0, 0))
                               (nth (Z.to_nat (Z.of_nat n2 - 1 + Z.of_nat j
                                               - fac * Z.of_nat i))
                                    alpha (0, 0)))
                       (seq 0 n1)))
          (seq 0 n2)).

#[export] Instance external : External := {
  RNG := Z;
  np_random_seed := fun s => if s <? 0 then Raise ValueError else Ok s;
  np_random_normal := fun scale n g =>
    (map (fun i => scale * (g + Z.of_nat i)) (seq 0 n), g + Z.of_nat n);
  np_fft_fft := dft;
  InterpolatedUnivariateSpline := fun x y k =>
    match y with
    | Some v =>
        if Nat.eqb (length x) (length v) && (k <? Z.of_nat (length x))
        then Ok (step_interp x v)
        else Raise ValueError
    | None => Raise ValueError
    end
}.

#[export] Instance kernels : Kernels := {
  z_t := z_t;
  eig_func_all_interp := fun fac time_axis alpha w eig_val eig_vec =>
    let n1 := length time_axis in
    let n2 := Z.to_nat (fac * (Z.of_nat n1 - 1) + 1) in
    Ok (tabulate n2 (length eig_val)
          (fun _ _ => if (9 <=? n1)%nat then (1, 0) else (2, 0)))
}.

#[export] Instance solvers : Solvers := {
  get_mid_point_weights_times := fun t_max ng =>
    if ng <? 2 then Raise ValueError
    else grid <- np_linspace 0 t_max ng ;;
         Ok (grid, map (fun _ => 1) grid);
  get_simpson_weights_times := fun t_max ng =>
    if (ng <? 3) || Z.even ng then Raise ValueError
    else grid <- np_linspace 0 t_max ng ;;
         Ok (grid, map (fun _ => 1) grid);
  solve_hom_fredholm := fun r w eps =>
    Ok ([4; 1], tabulate (length w) 2 (fun i j => (2, 2 * Z.of_nat j)));
  find_integral_boundary := fun f tolerance ref_val max_val x0 =>
    Ok (2 * x0);
  calc_ab_N_dx_dt := fun f intgr_tol intpl_tol t_max a b ft_ref opt_b_only
                         N_max =>
    let N := 2 in
    let dx := (b - a) / N in
    Ok (a, b, N, dx, 2 * 3 / (N * dx))
}.

#[export] Instance python_float : PythonFloat := {
  Fis_zero := fun x => x =? 0
}.

End Toy.

(** ** Runs on the integer interpretation *)

(** The value of a call that returned. *)
Definition returned {A : Type} (r : result A) : is_ok r = true -> A :=
  match r as r0 return is_ok r0 = true -> A with
  | Ok a => fun _ => a
  | Raise _ => fun H => False_rect A (Bool.diff_false_true H)
  end.

Module ToyRun.
Import Toy.

(** A KLE engine on three nodes with the constant kernel 5. *)
Definition r_tau : Z -> Cz := fun _ => (5, 0).

Definition kle_init (fac : Z) : result (StocProc_KLE.obj * RNG) :=
  StocProc_KLE.__init__ r_tau 4 3 fac None 1 3 false 0.

Definition kle : StocProc_KLE.obj := fst (returned (kle_init 2) eq_refl).
Definition kle_plain : StocProc_KLE.obj := fst (returned (kle_init 1) eq_refl).

(** An FFT engine for the density [12 (x + 1)^2] on [0, 3]. *)
Definition spectral_density : Z -> Z := fun x => 12 * (x + 1) * (x + 1).
Definition bcf_ref : Z -> Cz := fun _ => (1, 0).

Definition fft_init : result (StocProc_FFT_tol.obj * RNG) :=
  StocProc_FFT_tol.__init__ spectral_density 3 bcf_ref 1 1 None 1 false 0.

Definition fft : StocProc_FFT_tol.obj := fst (returned fft_init eq_refl).

(** A state of the generator. *)
Definition g0 : RNG := 0.

(** What the quadrature and the eigen-solver return for [kle_init]. *)
Definition times : list F := [0; 2; 4].
Definition weights : list F := [1; 1; 1].
Definition eig_val : list F := [4; 1].
Definition eig_vec : ndarray2 C :=
  tabulate 3 2 (fun i j => (2, 2 * Z.of_nat j)).

(** An equidistant grid with step 3 and a kernel with
    [R(-x) = conj(R(x))]. *)
Definition lag_grid : list F := [1; 4; 7].
Definition lag_kernel : F -> C := fun x => (x * x, x).

(** An input vector of length one. *)
Definition y1 : list C := [(3, 1)].

(** An input vector for the two modes of the KLE engine. *)
Definition y2 : list C := [(1, 0); (0, 1)].

(** The keyword arguments of a search with tolerance 1. *)
Definition kw : StocProc_KLE_tol.kwargs :=
  StocProc_KLE_tol.mk_kwargs r_tau 4 2 None 1 3 false.

Definition probe (ng : Z) : result (StocProc_KLE.obj * F * RNG) :=
  StocProc_KLE_tol._init_StocProc_KLE_and_get_error ng kw g0.

(** A history without a [new_process] that returns: the vector handed to
    the second call is too short. *)
Definition idle_history : list call :=
  [Call___call__ None; Call_new_process (Some [(1, 0)]) None; Call_get_z].

(** A history with two realizations and evaluations in between. *)
Definition busy_history : list call :=
  [Call_new_process (Some y2) None;
   Call___call__ (Some 2);
   Call_new_process None (Some 7);
   Call___call__ (Some 1);
   Call_get_time].

(** A history with one realization and one evaluation. *)
Definition short_history : list call :=
  [Call_new_process (Some y2) None; Call___call__ (Some 1)].


(** A tolerance engine: the search with tolerance 1. *)
Definition kle_tol_init : option (result (StocProc_KLE_tol.obj * RNG)) :=
  StocProc_KLE_tol.__init__ 5 r_tau 4 1 2 None 3 false g0.

Definition kle_tol_result : result (StocProc_KLE_tol.obj * RNG) :=
  match kle_tol_init with
  | Some r => r
  | None => Raise RuntimeError
  end.

Definition kle_tol : StocProc_KLE_tol.obj :=
  fst (returned kle_tol_result eq_refl).

(** A KLE engine built with the seed 7. *)
Definition kle_seeded_init : result (StocProc_KLE.obj * RNG) :=
  StocProc_KLE.__init__ r_tau 4 3 2 (Some 7) 1 3 false g0.

(** A KLE engine with aligned eigenvectors. *)
Definition kle_aligned_init : result (StocProc_KLE.obj * RNG) :=
  StocProc_KLE.__init__ r_tau 4 3 2 None 1 3 true g0.

Definition kle_aligned : StocProc_KLE.obj :=
  fst (returned kle_aligned_init eq_refl).

(** The matrices of the runs: the correlation matrix of the three nodes of
    [kle] and the one of [lag_grid]. *)
Definition corr : ndarray2 C :=
  returned (StocProc_KLE._calc_corr_matrix times r_tau) eq_refl.

Definition lag_corr : ndarray2 C :=
  returned (StocProc_KLE._calc_corr_matrix lag_grid lag_kernel)
    eq_refl.

(** The older transform engine on two grid points, and an input vector for
    its three frequencies. *)
Definition older_fft_init
  : result (class_stocproc.StocProc_FFT.obj * RNG) :=
  class_stocproc.StocProc_FFT.__init__ spectral_density 1 2 None 0 3
    g0.

Definition older_fft : class_stocproc.StocProc_FFT.obj :=
  fst (returned older_fft_init eq_refl).

Definition y3 : list C := [(1, 0); (0, 1); (1, 1)].

(** Times and tolerances for the constructor of the FFT engine. *)
Definition t3 : F := 3.
Definition t_neg : F := -6.
Definition tol_one : F := 1.
End ToyRun.

(** ** The random input vector as random variables

    A reading of [np.random.normal(scale, size)] over the reals: the
    [k]-th draw of the stream is [scale * G k], where the [G k] are random
    variables on a sample space [Omega], and [E] is the expectation.  A
    complex random variable is the pair of its real and imaginary parts. *)

Section RandomInput.
Local Open Scope R_scope.
Variable Omega : Type.
Variable E : (Omega -> R) -> R.
Variable G : nat -> Omega -> R.

Definition rv : Type := Omega -> R.
Definition crv : Type := (rv * rv)%type.

Definition normal (scale : R) (size : nat) : list rv :=
  map (fun k w => scale * G k w) (seq 0 size).

(** What is assumed of the expectation and of the first [size] draws: the
    expectation is linear, and the draws are uncorrelated with second
    moment one, as independent standard normal variables are. *)
Definition sampler_contract (size : nat) : Prop :=
  (forall f g : rv, (forall w, f w = g w) -> E f = E g) /\
  (forall f g : rv, E (fun w => f w + g w) = E f + E g) /\
  (forall (c : R) (f : rv), E (fun w => c * f w) = c * E f) /\
  (forall k l, (k < size)%nat -> (l < size)%nat ->
               E (fun w => G k w * G l w) = if Nat.eqb k l then 1 else 0).

(** [y * conj(z)] and the expectation of a complex random variable. *)
Definition mul_conj (y z : crv) : crv :=
  (fun w => fst y w * fst z w + snd y w * snd z w,
   fun w => snd y w * fst z w - fst y w * snd z w).

Definition expectation (y : crv) : R * R := (E (fst y), E (snd y)).

(** The vector [new_process] draws for [num_y] input variables:
    [np.random.normal(scale=scale, size=2*num_y).view(np.complex)]. *)
Definition random_input (scale : R) (num_y : nat) : list crv :=
  view_pairs (fun x y : rv => (x, y)) (normal scale (2 * num_y)).

Definition zero_crv : crv := (fun _ => 0, fun _ => 0).
End RandomInput.

(** [self._one_over_sqrt_2 = 1/np.sqrt(2)] over the reals. *)
Definition one_over_sqrt_2 : R := (1 / sqrt 2)%R.

(** Two fair signs: a sample space of four points of weight 1/4 each, the
    first draw is the first sign, the second draw the second. *)
Module Coins.
Local Open Scope R_scope.

Definition Omega : Type := (bool * bool)%type.

Definition sign (b : bool) : R := if b then 1 else -1.

Definition E (f : Omega -> R) : R :=
  (f (true, true) + f (true, false) + f (false, true) + f (false, false)) / 4.

Definition G (k : nat) (w : Omega) : R :=
  match k with
  | O => sign (fst w)
  | S O => sign (snd w)
  | _ => 0
  end.
End Coins.

(** ** Specification vocabulary *)

Section Vocabulary.
Context {NP : Numerics} {EX : External} {KN : Kernels} {SV : Solvers}.

(** An engine as a constructor or a snapshot import returns it. *)
Inductive constructed : engine -> Prop :=
| constructed_KLE r_tau t_max ng fac seed sig_min k al g o g' :
    StocProc_KLE.__init__ r_tau t_max ng fac seed sig_min k al g = Ok (o, g') ->
    constructed (KLE o)
| restored_KLE st g o g' :
    StocProc_KLE.__setstate__ st g = Ok (o, g') ->
    constructed (KLE o)
| constructed_KLE_tol fuel r_tau t_max tolerance fac seed k al g o g' :
    StocProc_KLE_tol.__init__ fuel r_tau t_max tolerance fac seed k al g
    = Some (Ok (o, g')) ->
    constructed (KLE_tol o)
| constructed_FFT_tol sd t_max bcf_ref intgr_tol intpl_tol seed k neg g o g' :
    StocProc_FFT_tol.__init__ sd t_max bcf_ref intgr_tol intpl_tol seed k neg g
    = Ok (o, g') ->
    constructed (FFT_tol o)
| restored_FFT_tol st g o g' :
    StocProc_FFT_tol.__setstate__ st g = Ok (o, g') ->
    constructed (FFT_tol o).

(** Two engines built by the same constructor from the same arguments; the
    state of the process-wide generator at the two constructions (and the
    iteration bound of the model) is not part of the configuration. *)
Inductive same_configuration : engine -> engine -> Prop :=
| same_KLE r_tau t_max ng fac seed sig_min k al g1 g2 o1 o2 g1' g2' :
    StocProc_KLE.__init__ r_tau t_max ng fac seed sig_min k al g1
    = Ok (o1, g1') ->
    StocProc_KLE.__init__ r_tau t_max ng fac seed sig_min k al g2
    = Ok (o2, g2') ->
    same_configuration (KLE o1) (KLE o2)
| same_KLE_tol fuel1 fuel2 r_tau t_max tolerance fac seed k al g1 g2
               o1 o2 g1' g2' :
    StocProc_KLE_tol.__init__ fuel1 r_tau t_max tolerance fac seed k al g1
    = Some (Ok (o1, g1')) ->
    StocProc_KLE_tol.__init__ fuel2 r_tau t_max tolerance fac seed k al g2
    = Some (Ok (o2, g2')) ->
    same_configuration (KLE_tol o1) (KLE_tol o2)
| same_FFT_tol sd t_max bcf_ref intgr_tol intpl_tol seed k neg g1 g2
               o1 o2 g1' g2' :
    StocProc_FFT_tol.__init__ sd t_max bcf_ref intgr_tol intpl_tol seed k neg g1
    = Ok (o1, g1') ->
    StocProc_FFT_tol.__init__ sd t_max bcf_ref intgr_tol intpl_tol seed k neg g2
    = Ok (o2, g2') ->
    same_configuration (FFT_tol o1) (FFT_tol o2).

(** The cached interpolator, when there is one, is the spline through the
    time grid and the current realization. *)
Definition coherent (e : engine) : Prop :=
  forall itp,
    _absStocProc._interpolator (_absStocProc.super e) = Some itp ->
    exists z,
      _absStocProc._z (_absStocProc.super e) = Some z /\
      tools.ComplexInterpolatedUnivariateSpline.__init__
        (_absStocProc.t (_absStocProc.super e)) z
        (_absStocProc._k (_absStocProc.super e)) = Ok itp.

(** Snapshot export followed by import into a fresh instance.  An object
    of class [StocProc_KLE_tol] restored this way has the attributes of
    [StocProc_KLE] only. *)
Definition export_import (e : engine) (g : RNG) : result (engine * RNG) :=
  match e with
  | KLE o =>
      '(r) <- StocProc_KLE.__setstate__ (StocProc_KLE.__getstate__ o) g ;;
      Ok (KLE (fst r), snd r)
  | KLE_tol o =>
      '(r) <- StocProc_KLE.__setstate__
                (StocProc_KLE.__getstate__ (StocProc_KLE_tol.kle o)) g ;;
      Ok (KLE (fst r), snd r)
  | FFT_tol o =>
      '(r) <- StocProc_FFT_tol.__setstate__
                (StocProc_FFT_tol.__getstate__ o) g ;;
      Ok (FFT_tol (fst r), snd r)
  end.

(** An engine without a realization and without an interpolator. *)
Definition fresh (b : _absStocProc.obj) : Prop :=
  _absStocProc._z b = None /\ _absStocProc._interpolator b = None.

(** The attributes of the base class after [new_process] has run up to the
    call of [_calc_z]. *)
Definition entered (b : _absStocProc.obj) : _absStocProc.obj :=
  _absStocProc.set__proc_cnt (_absStocProc._proc_cnt b + 1)
    (_absStocProc.set__interpolator None b).

(** The attributes of the base class that no call of the process interface
    assigns. *)
Definition same_settings (b b' : _absStocProc.obj) : Prop :=
  _absStocProc.t_max b' = _absStocProc.t_max b /\
  _absStocProc.num_grid_points b' = _absStocProc.num_grid_points b /\
  _absStocProc.t b' = _absStocProc.t b /\
  _absStocProc._k b' = _absStocProc._k b /\
  _absStocProc._seed b' = _absStocProc._seed b /\
  _absStocProc._one_over_sqrt_2 b' = _absStocProc._one_over_sqrt_2 b.

(** [e'] is [e] up to the realization, the interpolator and the counter. *)
Definition same_core (e e' : engine) : Prop :=
  exists b', e' = _absStocProc.with_super e b' /\
             same_settings (_absStocProc.super e) b'.

(** What [__setstate__] makes of a snapshot of [o], given the attributes
    [b] of the base class. *)
Definition KLE_import (o : StocProc_KLE.obj) (b : _absStocProc.obj)
  : StocProc_KLE.obj :=
  StocProc_KLE.mk b (StocProc_KLE._A o) (StocProc_KLE.alpha_k o)
    (StocProc_KLE.ng_fac o) (StocProc_KLE.kle_interp o)
    (shape1 (StocProc_KLE._A o)) None None None None None None.

(** The snapshot of a KLE object can be imported, and the import is the
    object up to the attributes of the base class. *)
Definition KLE_restorable (o : StocProc_KLE.obj) : Prop :=
  StocProc_KLE._sqrt_eig_val o = None /\
  StocProc_KLE.num_y o = shape1 (StocProc_KLE._A o) /\
  StocProc_KLE.kle_interp o
  = (if StocProc_KLE.ng_fac o =? 1 then false else true) /\
  forall g, exists b g',
    StocProc_KLE.__setstate__ (StocProc_KLE.__getstate__ o) g
    = Ok (KLE_import o b, g') /\ fresh b.

(** The same for an FFT object. *)
Definition FFT_restorable (o : StocProc_FFT_tol.obj) : Prop :=
  forall g, exists b g',
    StocProc_FFT_tol.__setstate__ (StocProc_FFT_tol.__getstate__ o) g
    = Ok (StocProc_FFT_tol.mk b (StocProc_FFT_tol.yl o)
            (StocProc_FFT_tol.omega_min_correction o), g') /\
    fresh b /\
    _absStocProc.num_grid_points b
    = _absStocProc.num_grid_points (StocProc_FFT_tol.base o).

(** The engines on which the length of the input vector is what numpy
    checks: a KLE engine with oversampling ([ng_fac] other than 1), and an
    FFT engine as long as neither the input vector nor the sampled density
    has length one (numpy broadcasts an array of length one). *)
Definition length_is_checked (e : engine) (y : list C) : Prop :=
  match e with
  | KLE o => StocProc_KLE.ng_fac o <> 1
  | KLE_tol o => StocProc_KLE.ng_fac (StocProc_KLE_tol.kle o) <> 1
  | FFT_tol o => length y <> 1%nat /\ length (StocProc_FFT_tol.yl o) <> 1%nat
  end.

Definition restorable (e : engine) : Prop :=
  match e with
  | KLE o => KLE_restorable o
  | KLE_tol o => KLE_restorable (StocProc_KLE_tol.kle o)
  | FFT_tol o => FFT_restorable o
  end.

(** A KLE engine with [ng_fac = 1]. *)
Definition plain_KLE (e : engine) : Prop :=
  match e with
  | KLE o => StocProc_KLE.ng_fac o = 1
  | KLE_tol o => StocProc_KLE.ng_fac (StocProc_KLE_tol.kle o) = 1
  | FFT_tol _ => False
  end.

(** The times of the grid advance by a common step. *)
Definition equidistant (s : list F) (d : F) : Prop :=
  exists delta, forall k, (Datatypes.S k < length s)%nat ->
                          nth (Datatypes.S k) s d = Fadd (nth k s d) delta.

(** [R(-tau) = conj(R(tau))]. *)
Definition hermitian (bcf : F -> C) : Prop :=
  forall x, bcf (Fsub (F_of_Z 0) x) = Cconj (bcf x).

(** The arithmetic of the times is that of a ring. *)
Definition exact_arithmetic : Prop :=
  ring_theory (F_of_Z 0) (F_of_Z 1) Fadd Fmul Fsub
    (fun x => Fsub (F_of_Z 0) x) eq.

(** The scale [__init__] of the base class stores for the sampler. *)
Definition has_scale (b : _absStocProc.obj) : Prop :=
  _absStocProc._one_over_sqrt_2 b = Fdiv (F_of_Z 1) (Fsqrt (F_of_Z 2)).

(** A property of objects holds of an attribute holder that may still be
    empty. *)
Definition holds_opt (P : StocProc_KLE.obj -> Prop)
  (self : option StocProc_KLE.obj) : Prop :=
  forall o, self = Some o -> P o.
End Vocabulary.

(** ** Calls on an engine of either kind *)

Section Dispatch.
Context {NP : Numerics} {EX : External} {KN : Kernels} {SV : Solvers}.

(** [e._getkey()]: [StocProc_KLE] defines the method and [StocProc_KLE_tol]
    inherits it; [StocProc_FFT_tol] has none. *)
Definition _getkey (e : engine) : result (string * StocProc_KLE.key_t) :=
  match e with
  | KLE o => StocProc_KLE._getkey "StocProc_KLE" o
  | KLE_tol o => StocProc_KLE._getkey "StocProc_KLE_tol" (StocProc_KLE_tol.kle o)
  | FFT_tol _ => Raise AttributeError
  end.

(** A snapshot of either kind of engine. *)
Inductive snapshot : Type :=
| KLE_state (st : StocProc_KLE.state)
| FFT_state (st : StocProc_FFT_tol.state).

(** [e.__getstate__()] *)
Definition __getstate__ (e : engine) : snapshot :=
  match e with
  | KLE o => KLE_state (StocProc_KLE.__getstate__ o)
  | KLE_tol o => KLE_state (StocProc_KLE.__getstate__ (StocProc_KLE_tol.kle o))
  | FFT_tol o => FFT_state (StocProc_FFT_tol.__getstate__ o)
  end.

(** The number of calls of [new_process] in a history. *)
Fixpoint count_new_process (h : list call) : Z :=
  match h with
  | [] => 0
  | Call_new_process _ _ :: h' => 1 + count_new_process h'
  | _ :: h' => count_new_process h'
  end.

(** The generator after a constructor that was given [seed]. *)
Definition seeded (seed : option Z) (g g' : RNG) : Prop :=
  match seed with
  | Some s => np_random_seed s = Ok g'
  | None => g' = g
  end.

(** The factor [align_eig_vec] divides a column of eigenvector entries
    by: [np.exp(1j * np.arctan2(np.real(s), np.imag(s)))] for the sum [s]
    of the column. *)
Definition column_phase (col : list C) : C :=
  let s := np_sum col in
  Cexp (Cmul Cj (C_of_F (Farctan2 (Cre s) (Cim s)))).

(** The inherited attributes of a constructed engine are those the
    [__init__] of the base class returned. *)
Definition base_initialised (b : _absStocProc.obj) : Prop :=
  exists t_max n seed k g g',
    _absStocProc.__init__ t_max n seed k g = Ok (b, g').

(** The KLE attributes of an engine. *)
Definition KLE_part (e : engine) : option StocProc_KLE.obj :=
  match e with
  | KLE o => Some o
  | KLE_tol o => Some (StocProc_KLE_tol.kle o)
  | FFT_tol _ => None
  end.
End Dispatch.

(** * Properties *)

Lemma bind_Ok {A B : Type} (r : result A) (f : A -> result B) (b : B) :
  bind r f = Ok b -> exists a, r = Ok a /\ f a = Ok b.
Proof.
  destruct r as [a|e]; simpl; intros H; [exists a; auto | discriminate].
Qed.

Tactic Notation "inv_bind" hyp(H) "as" simple_intropattern(p) :=
  let Hb := fresh "Hb" in
  apply bind_Ok in H; destruct H as [p [Hb H]]; cbv beta iota in H.

Ltac inv_binds H :=
  repeat (let a := fresh "a" in
          let Hb := fresh "Hb" in
          apply bind_Ok in H; destruct H as [a [Hb H]]; cbv beta iota in H).

(** Splits an equation between tuples without reducing its components. *)
Ltac split_pair H :=
  repeat match type of H with
         | (_, _) = (_, _) =>
             let H1 := fresh H in
             apply pair_equal_spec in H; destruct H as [H1 H];
             try split_pair H1
         end.

(** *** The older base class *)

Section OlderBaseClass.
Context {NP : Numerics} {EX : External}.
Context {Self : Type} {SP : _absStocProc.StocProc Self}.

(** [__call__] of [class_stocproc.py] has no test of [_z]: without an
    interpolator it hands [_z] to the spline constructor, [None] included,
    and raises what scipy raises. *)
Lemma class_stocproc_call_without_realization (self : Self) (x : F) ex :
  _absStocProc._z (_absStocProc.super self) = None ->
  _absStocProc._interpolator (_absStocProc.super self) = None ->
  InterpolatedUnivariateSpline (_absStocProc.t (_absStocProc.super self))
    None 3 = Raise ex ->
  class_stocproc._absStocProc.__call__ self x = (self, Raise ex).
Proof.
  intros Hz Hi Hs. unfold class_stocproc._absStocProc.__call__.
  rewrite Hi, Hz.
  unfold class_stocproc.ComplexInterpolatedUnivariateSpline.__init__.
  cbn [class_stocproc.ComplexInterpolatedUnivariateSpline.np_real option_map].
  rewrite Hs. reflexivity.
Qed.

(** With a realization it builds the two splines (of scipy's default
    degree), stores the pair and returns its value. *)
Lemma class_stocproc_call_builds (self : Self) z re im (x : F) :
  _absStocProc._z (_absStocProc.super self) = Some z ->
  _absStocProc._interpolator (_absStocProc.super self) = None ->
  InterpolatedUnivariateSpline (_absStocProc.t (_absStocProc.super self))
    (Some (map Cre z)) 3 = Ok re ->
  InterpolatedUnivariateSpline (_absStocProc.t (_absStocProc.super self))
    (Some (map Cim z)) 3 = Ok im ->
  class_stocproc._absStocProc.__call__ self x =
  (_absStocProc.with_super self
     (_absStocProc.set__interpolator
        (Some (tools.ComplexInterpolatedUnivariateSpline.mk re im))
        (_absStocProc.super self)),
   Ok (Cadd (C_of_F (re x)) (Cmul Cj (C_of_F (im x))))).
Proof.
  intros Hz Hi Hre Him. unfold class_stocproc._absStocProc.__call__.
  rewrite Hi, Hz.
  unfold class_stocproc.ComplexInterpolatedUnivariateSpline.__init__.
  cbn [class_stocproc.ComplexInterpolatedUnivariateSpline.np_real
       class_stocproc.ComplexInterpolatedUnivariateSpline.np_imag option_map].
  rewrite Hre, Him. reflexivity.
Qed.

Lemma class_stocproc_call_cached (self : Self) itp (x : F) :
  _absStocProc._interpolator (_absStocProc.super self) = Some itp ->
  class_stocproc._absStocProc.__call__ self x =
  (self, Ok (tools.ComplexInterpolatedUnivariateSpline.__call__ itp x)).
Proof.
  intros Hi. unfold class_stocproc._absStocProc.__call__.
  rewrite Hi. reflexivity.
Qed.

(** A [new_process] of [class_stocproc.py] that returned has stored a
    realization and left no interpolator behind. *)
Lemma class_stocproc_new_process_returned (self : Self) y seed g self1 g1 :
  (forall (s : Self) b,
      _absStocProc.super (_absStocProc.with_super s b) = b) ->
  class_stocproc._absStocProc.new_process self y seed g = (self1, g1, Ok tt) ->
  exists z,
    _absStocProc._z (_absStocProc.super self1) = Some z /\
    _absStocProc._interpolator (_absStocProc.super self1) = None.
Proof.
  intros L H. unfold class_stocproc._absStocProc.new_process in H.
  destruct (match seed with
            | Some s => np_random_seed s
            | None => Ok g
            end) as [g0|ex]; [|split_pair H; discriminate].
  destruct (match y with
            | Some v => _
            | None => _
            end) as [y' g2].
  destruct (_absStocProc._calc_z _ y') as [z|ex]; split_pair H;
    [|discriminate].
  subst. exists z. rewrite !L. split; reflexivity.
Qed.
End OlderBaseClass.

Section Lifecycle.
Context {NP : Numerics} {EX : External} {KN : Kernels} {SV : Solvers}.

Lemma super_with_super (e : engine) (b : _absStocProc.obj) :
  _absStocProc.super (_absStocProc.with_super e b) = b.
Proof. destruct e as [o|o|o]; reflexivity. Qed.

(** *** Construction leaves the engine without a realization *)

Lemma base_init_fresh t_max n seed k g b g' :
  _absStocProc.__init__ t_max n seed k g = Ok (b, g') -> fresh b.
Proof.
  unfold _absStocProc.__init__. intros H.
  inv_bind H as grid. inv_bind H as g1. inversion H; subst.
  split; reflexivity.
Qed.

Lemma KLE_setstate_fresh st g o g' :
  StocProc_KLE.__setstate__ st g = Ok (o, g') -> fresh (StocProc_KLE.base o).
Proof.
  unfold StocProc_KLE.__setstate__.
  destruct st as [[[[[A alpha] seed] k] t_max] fac]. intros H.
  inv_bind H as [b g1]. inversion H; subst. simpl.
  eapply base_init_fresh; eauto.
Qed.

Lemma KLE_init_fresh r_tau t_max ng fac seed sig_min k al g o g' :
  StocProc_KLE.__init__ r_tau t_max ng fac seed sig_min k al g = Ok (o, g') ->
  fresh (StocProc_KLE.base o).
Proof.
  unfold StocProc_KLE.__init__. intros H.
  inv_bind H as [times w]. inv_bind H as r.
  inv_bind H as [eig_val eig_vec0]. inv_bind H as eig_vec.
  inv_bind H as wu. inv_bind H as A. inv_bind H as fine.
  inv_bind H as alpha. inv_bind H as [self g1].
  inversion H; subst. simpl.
  eapply KLE_setstate_fresh; eauto.
Qed.

Lemma init_and_error_is_init ng kw g o err g' :
  StocProc_KLE_tol._init_StocProc_KLE_and_get_error ng kw g = Ok (o, err, g') ->
  StocProc_KLE.__init__ (StocProc_KLE_tol.r_tau kw) (StocProc_KLE_tol.t_max kw)
    ng (StocProc_KLE_tol.ng_fac kw) (StocProc_KLE_tol.seed kw)
    (StocProc_KLE_tol.sig_min kw) (StocProc_KLE_tol.k kw)
    (StocProc_KLE_tol.align_eig_vec kw) g = Ok (o, g').
Proof.
  unfold StocProc_KLE_tol._init_StocProc_KLE_and_get_error. intros H.
  inv_bind H as [self g1]. inv_binds H.
  inversion H; subst. assumption.
Qed.

Lemma doubling_S fuel tolerance kw err c self g :
  StocProc_KLE_tol.doubling (S fuel) tolerance kw err c self g =
  if Fgtb err tolerance then
    match StocProc_KLE_tol._init_StocProc_KLE_and_get_error
            (2 * (c * 2) + 1) kw g with
    | Raise e => Some (Raise e)
    | Ok (self', err', g') =>
        StocProc_KLE_tol.doubling fuel tolerance kw err' (c * 2) (Some self') g'
    end
  else Some (Ok (c, self, g)).
Proof. reflexivity. Qed.

Lemma doubling_O tolerance kw err c self g :
  StocProc_KLE_tol.doubling O tolerance kw err c self g =
  if Fgtb err tolerance then None else Some (Ok (c, self, g)).
Proof. reflexivity. Qed.

Lemma bisection_S fuel tolerance kw c_low c_high self g :
  StocProc_KLE_tol.bisection (S fuel) tolerance kw c_low c_high self g =
  if c_high - c_low >? 1 then
    match StocProc_KLE_tol._init_StocProc_KLE_and_get_error
            (2 * ((c_low + c_high) / 2) + 1) kw g with
    | Raise e => Some (Raise e)
    | Ok (self', err, g') =>
        if Fgtb err tolerance
        then StocProc_KLE_tol.bisection fuel tolerance kw
               ((c_low + c_high) / 2) c_high (Some self') g'
        else StocProc_KLE_tol.bisection fuel tolerance kw
               c_low ((c_low + c_high) / 2) (Some self') g'
    end
  else Some (Ok (self, g)).
Proof. reflexivity. Qed.

Lemma bisection_O tolerance kw c_low c_high self g :
  StocProc_KLE_tol.bisection O tolerance kw c_low c_high self g =
  if c_high - c_low >? 1 then None else Some (Ok (self, g)).
Proof. reflexivity. Qed.

(** A property of every object [StocProc_KLE.__init__] returns holds of the
    object the search ends with. *)
Section SearchInvariant.
Variable P : StocProc_KLE.obj -> Prop.
Variable kw : StocProc_KLE_tol.kwargs.
Hypothesis P_init :
  forall ng g o g',
    StocProc_KLE.__init__ (StocProc_KLE_tol.r_tau kw)
      (StocProc_KLE_tol.t_max kw) ng (StocProc_KLE_tol.ng_fac kw)
      (StocProc_KLE_tol.seed kw) (StocProc_KLE_tol.sig_min kw)
      (StocProc_KLE_tol.k kw) (StocProc_KLE_tol.align_eig_vec kw) g
    = Ok (o, g') ->
    P o.

Lemma doubling_invariant fuel tolerance :
  forall err c self g c' self' g',
    holds_opt P self ->
    StocProc_KLE_tol.doubling fuel tolerance kw err c self g
    = Some (Ok (c', self', g')) ->
    holds_opt P self'.
Proof.
  induction fuel as [|fuel IH]; intros err c self g c' self' g' Hs H.
  - rewrite doubling_O in H. destruct (Fgtb err tolerance); try discriminate.
    inversion H; subst; assumption.
  - rewrite doubling_S in H. destruct (Fgtb err tolerance).
    + destruct (StocProc_KLE_tol._init_StocProc_KLE_and_get_error
                  (2 * (c * 2) + 1) kw g) as [[[o e] g1]|] eqn:Hi;
        try discriminate.
      eapply IH; [|exact H].
      intros o' Ho'. inversion Ho'; subst.
      eapply P_init, init_and_error_is_init; eauto.
    + inversion H; subst; assumption.
Qed.

Lemma bisection_invariant fuel tolerance :
  forall c_low c_high self g self' g',
    holds_opt P self ->
    StocProc_KLE_tol.bisection fuel tolerance kw c_low c_high self g
    = Some (Ok (self', g')) ->
    holds_opt P self'.
Proof.
  induction fuel as [|fuel IH]; intros c_low c_high self g self' g' Hs H.
  - rewrite bisection_O in H. destruct (c_high - c_low >? 1);
      try discriminate. inversion H; subst; assumption.
  - rewrite bisection_S in H. destruct (c_high - c_low >? 1).
    + destruct (StocProc_KLE_tol._init_StocProc_KLE_and_get_error
                  (2 * ((c_low + c_high) / 2) + 1) kw g)
        as [[[o e] g1]|] eqn:Hi; try discriminate.
      assert (Ho : holds_opt P (Some o)).
      { intros o' Ho'. inversion Ho'; subst.
        eapply P_init, init_and_error_is_init; eauto. }
      destruct (Fgtb e tolerance); eapply IH; eauto.
    + inversion H; subst; assumption.
Qed.

Lemma auto_grid_points_invariant fuel tolerance g self' g' :
  StocProc_KLE_tol._auto_grid_points fuel tolerance kw g
  = Some (Ok (self', g')) ->
  holds_opt P self'.
Proof.
  unfold StocProc_KLE_tol._auto_grid_points. intros H.
  destruct (StocProc_KLE_tol.doubling fuel tolerance kw Finf 2 None g)
    as [[[[c self] g1]|]|] eqn:Hd; try discriminate.
  eapply bisection_invariant; [|exact H].
  eapply doubling_invariant; [|exact Hd]. intros o' Ho'. discriminate.
Qed.
End SearchInvariant.

(** The object of class [StocProc_KLE_tol] is the one the search ends
    with, its [key] replaced. *)
Lemma KLE_tol_init_inv fuel r_tau t_max tolerance fac seed k al g o g' :
  StocProc_KLE_tol.__init__ fuel r_tau t_max tolerance fac seed k al g
  = Some (Ok (o, g')) ->
  exists self key,
    StocProc_KLE_tol._auto_grid_points fuel tolerance
      (StocProc_KLE_tol.mk_kwargs r_tau t_max fac seed (Fpow tolerance 2) k al)
      g = Some (Ok (Some self, g')) /\
    o = StocProc_KLE_tol.mk (StocProc_KLE.set_key key self) tolerance.
Proof.
  unfold StocProc_KLE_tol.__init__. intros H.
  destruct (StocProc_KLE_tol._auto_grid_points fuel tolerance _ g)
    as [[[self g1]|]|] eqn:Ha; try discriminate.
  inversion H as [H']; clear H.
  inv_bind H' as o1. inv_bind H' as [[[[[k0 k1] k2] k3] k4] k5].
  inversion H'; subst.
  destruct self as [self|]; simpl in Hb; [|discriminate].
  inversion Hb; subst. eauto.
Qed.

Lemma KLE_tol_init_fresh fuel r_tau t_max tolerance fac seed k al g o g' :
  StocProc_KLE_tol.__init__ fuel r_tau t_max tolerance fac seed k al g
  = Some (Ok (o, g')) ->
  fresh (StocProc_KLE.base (StocProc_KLE_tol.kle o)).
Proof.
  intros H. apply KLE_tol_init_inv in H.
  destruct H as [self [key [Ha Ho]]]. subst o. simpl.
  eapply (auto_grid_points_invariant
            (fun o => fresh (StocProc_KLE.base o))); [|exact Ha|reflexivity].
  intros ng g1 o g1' Hi. eapply KLE_init_fresh; eauto.
Qed.

Lemma FFT_setstate_fresh st g o g' :
  StocProc_FFT_tol.__setstate__ st g = Ok (o, g') ->
  fresh (StocProc_FFT_tol.base o).
Proof.
  unfold StocProc_FFT_tol.__setstate__.
  destruct st as [[[[[yl0 n] omc] t_max] seed] k]. intros H.
  inv_bind H as [b g1]. inversion H; subst. simpl.
  eapply base_init_fresh; eauto.
Qed.

Lemma FFT_init_fresh sd t_max bcf_ref intgr_tol intpl_tol seed k neg g o g' :
  StocProc_FFT_tol.__init__ sd t_max bcf_ref intgr_tol intpl_tol seed k neg g
  = Ok (o, g') ->
  fresh (StocProc_FFT_tol.base o).
Proof.
  unfold StocProc_FFT_tol.__init__. intros H.
  inv_bind H as [[[[a b] N] dx] dt].
  destruct (Fltb _ _); try discriminate.
  inv_bind H as [b0 g1]. inversion H; subst. simpl.
  eapply base_init_fresh; eauto.
Qed.

Lemma constructed_fresh (e : engine) :
  constructed e -> fresh (_absStocProc.super e).
Proof.
  intros H. destruct H; simpl.
  - eapply KLE_init_fresh; eauto.
  - eapply KLE_setstate_fresh; eauto.
  - eapply KLE_tol_init_fresh; eauto.
  - eapply FFT_init_fresh; eauto.
  - eapply FFT_setstate_fresh; eauto.
Qed.

(** *** What one call does to the inherited attributes *)

Lemma new_process_cases (e : engine) y seed g :
  let self2 := _absStocProc.with_super e (entered (_absStocProc.super e)) in
  forall e1 g1 r,
    _absStocProc.new_process e y seed g = (e1, g1, r) ->
    (exists ex, r = Raise ex /\ e1 = self2) \/
    (exists y' z,
        r = Ok tt /\
        _absStocProc._calc_z self2 y' = Ok z /\
        (forall v, y = Some v -> y' = v) /\
        e1 = _absStocProc.with_super self2
               (_absStocProc.set__z (Some z) (entered (_absStocProc.super e)))).
Proof.
  intros self2 e1 g1 r. unfold _absStocProc.new_process.
  assert (Hs2 :
    _absStocProc.with_super
      (_absStocProc.with_super e
         (_absStocProc.set__interpolator None (_absStocProc.super e)))
      (_absStocProc.set__proc_cnt
         (_absStocProc._proc_cnt
            (_absStocProc.super
               (_absStocProc.with_super e
                  (_absStocProc.set__interpolator None (_absStocProc.super e))))
          + 1)
         (_absStocProc.super
            (_absStocProc.with_super e
               (_absStocProc.set__interpolator None (_absStocProc.super e)))))
    = self2).
  { unfold self2, entered. rewrite super_with_super.
    destruct e as [o|o|o]; reflexivity. }
  rewrite Hs2.
  destruct (match seed with Some s => np_random_seed s | None => Ok g end)
    as [g0|ex].
  - destruct (match y with
              | Some v => (v, g0)
              | None => _absStocProc.draw_y self2 g0
              end) as [y' g2] eqn:Hy.
    destruct (_absStocProc._calc_z self2 y') as [z|ex] eqn:Hz;
      intros [= <- <- <-].
    + right. exists y', z. repeat split; auto.
      * intros v Hv. subst y. inversion Hy; reflexivity.
      * change (_absStocProc.with_super self2
                  (_absStocProc.set__z (Some z) (_absStocProc.super self2))
                = _absStocProc.with_super self2
                    (_absStocProc.set__z (Some z)
                       (entered (_absStocProc.super e)))).
        unfold self2. rewrite super_with_super. reflexivity.
    + left. exists ex. split; reflexivity.
  - intros [= <- <- <-]. left. exists ex. split; reflexivity.
Qed.

Lemma new_process_effect (e : engine) y seed g e1 g1 r :
  _absStocProc.new_process e y seed g = (e1, g1, r) ->
  _absStocProc._interpolator (_absStocProc.super e1) = None /\
  _absStocProc.t (_absStocProc.super e1) = _absStocProc.t (_absStocProc.super e) /\
  _absStocProc._k (_absStocProc.super e1) = _absStocProc._k (_absStocProc.super e) /\
  (is_ok r = false ->
   _absStocProc._z (_absStocProc.super e1) = _absStocProc._z (_absStocProc.super e)) /\
  (is_ok r = true ->
   exists z, _absStocProc._z (_absStocProc.super e1) = Some z).
Proof.
  intros H. apply new_process_cases in H.
  destruct H as [[ex [Hr He]]|[y' [z [Hr [Hz [Hy He]]]]]]; subst;
    rewrite super_with_super; simpl; repeat split; auto;
    try discriminate; intros _; eauto.
Qed.

Lemma call_effect (e : engine) time e1 r :
  _absStocProc.__call__ e time = (e1, r) ->
  _absStocProc._z (_absStocProc.super e1) = _absStocProc._z (_absStocProc.super e) /\
  _absStocProc.t (_absStocProc.super e1) = _absStocProc.t (_absStocProc.super e) /\
  _absStocProc._k (_absStocProc.super e1) = _absStocProc._k (_absStocProc.super e) /\
  (e1 = e \/
   exists z itp,
     _absStocProc._z (_absStocProc.super e) = Some z /\
     _absStocProc._interpolator (_absStocProc.super e) = None /\
     tools.ComplexInterpolatedUnivariateSpline.__init__
       (_absStocProc.t (_absStocProc.super e)) z
       (_absStocProc._k (_absStocProc.super e)) = Ok itp /\
     e1 = _absStocProc.with_super e
            (_absStocProc.set__interpolator (Some itp) (_absStocProc.super e))).
Proof.
  unfold _absStocProc.__call__.
  destruct (_absStocProc._z (_absStocProc.super e)) as [z|] eqn:Hz.
  - destruct time as [x|].
    + destruct (_absStocProc._interpolator (_absStocProc.super e))
        as [itp|] eqn:Hi.
      * intros H; split_pair H; subst. repeat split; auto.
      * destruct (tools.ComplexInterpolatedUnivariateSpline.__init__ _ _ _)
          as [itp|ex] eqn:Hc; intros H; split_pair H; subst.
        -- rewrite super_with_super. simpl. repeat split; auto.
           right. exists z, itp. repeat split; auto.
        -- repeat split; auto.
    + intros H; split_pair H; subst. repeat split; auto.
  - intros H; split_pair H; subst. repeat split; auto.
Qed.

Lemma step_new_process (e : engine) g y seed e1 g1 r :
  _absStocProc.new_process e y seed g = (e1, g1, r) ->
  step (e, g) (Call_new_process y seed) = (e1, g1, is_ok r).
Proof. intros H. unfold step. rewrite H. reflexivity. Qed.

Lemma step___call__ (e : engine) g time e1 r :
  _absStocProc.__call__ e time = (e1, r) ->
  step (e, g) (Call___call__ time) = (e1, g, is_ok r).
Proof. intros H. unfold step. rewrite H. reflexivity. Qed.

Lemma step_keeps_not_ready (e : engine) g c :
  _absStocProc._z (_absStocProc.super e) = None ->
  (match c with
   | Call_new_process _ _ => snd (step (e, g) c) = false
   | _ => True
   end) ->
  _absStocProc._z (_absStocProc.super (fst (fst (step (e, g) c)))) = None.
Proof.
  intros Hz Hc. destruct c as [y seed|time| |]; auto.
  - destruct (_absStocProc.new_process e y seed g) as [[e1 g1] r] eqn:Hn.
    rewrite (step_new_process _ _ _ _ Hn) in *. cbn [fst snd] in *.
    apply new_process_effect in Hn.
    destruct Hn as [_ [_ [_ [Hf _]]]]. rewrite Hf; auto.
  - destruct (_absStocProc.__call__ e time) as [e1 r] eqn:Hn.
    rewrite (step___call__ _ g _ Hn). cbn [fst snd].
    apply call_effect in Hn. destruct Hn as [Hn _]. congruence.
Qed.

Lemma run_cons (s : engine * RNG) c h :
  run s (c :: h) = run (fst (step s c)) h.
Proof. reflexivity. Qed.

Lemma run_keeps_not_ready (h : list call) :
  forall e g,
    _absStocProc._z (_absStocProc.super e) = None ->
    some_new_process_returned (e, g) h = false ->
    _absStocProc._z (_absStocProc.super (fst (run (e, g) h))) = None.
Proof.
  induction h as [|c h IH]; intros e g Hz Hh; auto.
  rewrite run_cons.
  pose proof (step_keeps_not_ready e g c Hz) as Hk.
  destruct (step (e, g) c) as [[e1 g1] ok] eqn:Hs.
  cbn [fst snd] in *.
  assert (Hc : (match c with
                | Call_new_process _ _ => ok = false
                | _ => True
                end) /\ some_new_process_returned (e1, g1) h = false).
  { destruct c; cbn [some_new_process_returned] in Hh; rewrite Hs in Hh;
      cbn [fst snd] in Hh; auto.
    apply orb_false_iff in Hh. tauto. }
  destruct Hc as [Hc Hh']. apply IH; auto.
Qed.

Lemma call_not_ready (e : engine) time :
  _absStocProc._z (_absStocProc.super e) = None ->
  _absStocProc.__call__ e time = (e, Raise RuntimeError).
Proof. intros Hz. unfold _absStocProc.__call__. rewrite Hz. reflexivity. Qed.

Lemma call_builds (e : engine) z re im x :
  _absStocProc._z (_absStocProc.super e) = Some z ->
  _absStocProc._interpolator (_absStocProc.super e) = None ->
  InterpolatedUnivariateSpline (_absStocProc.t (_absStocProc.super e))
    (Some (map Cre z)) (_absStocProc._k (_absStocProc.super e)) = Ok re ->
  InterpolatedUnivariateSpline (_absStocProc.t (_absStocProc.super e))
    (Some (map Cim z)) (_absStocProc._k (_absStocProc.super e)) = Ok im ->
  _absStocProc.__call__ e (Some x) =
  (_absStocProc.with_super e
     (_absStocProc.set__interpolator
        (Some (tools.ComplexInterpolatedUnivariateSpline.mk re im))
        (_absStocProc.super e)),
   Ok (_absStocProc.Value
         (Cadd (C_of_F (re x)) (Cmul Cj (C_of_F (im x)))))).
Proof.
  intros Hz Hi Hre Him. unfold _absStocProc.__call__.
  rewrite Hz, Hi.
  unfold tools.ComplexInterpolatedUnivariateSpline.__init__.
  rewrite Hre, Him. reflexivity.
Qed.

Lemma call_cached (e : engine) z itp x :
  _absStocProc._z (_absStocProc.super e) = Some z ->
  _absStocProc._interpolator (_absStocProc.super e) = Some itp ->
  _absStocProc.__call__ e (Some x) =
  (e, Ok (_absStocProc.Value
            (tools.ComplexInterpolatedUnivariateSpline.__call__ itp x))).
Proof.
  intros Hz Hi. unfold _absStocProc.__call__. rewrite Hz, Hi. reflexivity.
Qed.

(** C3 (the code departs from the claim).  An engine of [stocproc.py] that
    was constructed and on which no [new_process] has returned yet raises
    the [RuntimeError] of [__call__] for every argument, omitted or not.
    After a [new_process] that returned there is a realization [z] and no
    interpolator; the first [__call__] with a time then builds the splines
    through the real and through the imaginary parts of [z] over the time
    grid, stores the pair as the interpolator and returns
    [re(t) + 1j*im(t)]; the next [__call__] answers from the stored pair and
    leaves the engine as it is.

    [__call__] of the base class in [class_stocproc.py] lacks the test of
    [self._z] that [__call__] of [stocproc.py] has.  On an object of any of
    its subclasses that has no realization and no interpolator, as its
    [__init__] leaves it, it hands [None] to the spline constructor and
    raises what scipy raises there, not an error of its own.  After a
    [new_process] that returned it does what the claim says: the first
    [__call__] builds the two splines (of scipy's default degree), stores
    the pair and returns [re(t) + 1j*im(t)], and the next [__call__] answers
    from the stored pair. *)
Theorem call_before_and_after_new_process :
  (forall (e0 : engine) (g0 : RNG) (h : list call),
    constructed e0 ->
    some_new_process_returned (e0, g0) h = false ->
    (forall time,
        _absStocProc.__call__ (fst (run (e0, g0) h)) time
        = (fst (run (e0, g0) h), Raise RuntimeError)) /\
    (forall (e : engine) (g : RNG) y seed e1 g1,
        _absStocProc.new_process e y seed g = (e1, g1, Ok tt) ->
        exists z,
          _absStocProc.get_z e1 = Some z /\
          _absStocProc._interpolator (_absStocProc.super e1) = None /\
          forall re im x,
            InterpolatedUnivariateSpline (_absStocProc.get_time e1)
              (Some (map Cre z)) (_absStocProc._k (_absStocProc.super e1))
            = Ok re ->
            InterpolatedUnivariateSpline (_absStocProc.get_time e1)
              (Some (map Cim z)) (_absStocProc._k (_absStocProc.super e1))
            = Ok im ->
            let itp := tools.ComplexInterpolatedUnivariateSpline.mk re im in
            let e2 :=
              _absStocProc.with_super e1
                (_absStocProc.set__interpolator (Some itp)
                   (_absStocProc.super e1)) in
            _absStocProc.__call__ e1 (Some x)
            = (e2, Ok (_absStocProc.Value
                         (Cadd (C_of_F (re x)) (Cmul Cj (C_of_F (im x)))))) /\
            _absStocProc._interpolator (_absStocProc.super e2) = Some itp /\
            forall x',
              _absStocProc.__call__ e2 (Some x')
              = (e2, Ok (_absStocProc.Value
                           (Cadd (C_of_F (re x'))
                                 (Cmul Cj (C_of_F (im x')))))))) /\
  (forall (Self : Type) (SP : _absStocProc.StocProc Self),
    (forall (s : Self) b,
        _absStocProc.super (_absStocProc.with_super s b) = b) ->
    (forall (self : Self) (x : F),
        _absStocProc._z (_absStocProc.super self) = None ->
        _absStocProc._interpolator (_absStocProc.super self) = None ->
        class_stocproc._absStocProc.__call__ self x
        = match class_stocproc.ComplexInterpolatedUnivariateSpline.__init__
                  (_absStocProc.t (_absStocProc.super self)) None
                  (_absStocProc._k (_absStocProc.super self)) with
          | Ok itp =>
              (_absStocProc.with_super self
                 (_absStocProc.set__interpolator (Some itp)
                    (_absStocProc.super self)),
               Ok (tools.ComplexInterpolatedUnivariateSpline.__call__ itp x))
          | Raise ex => (self, Raise ex)
          end /\
        forall ex,
          InterpolatedUnivariateSpline
            (_absStocProc.t (_absStocProc.super self)) None 3 = Raise ex ->
          class_stocproc._absStocProc.__call__ self x = (self, Raise ex)) /\
    (forall (self : Self) y seed (g : RNG) self1 g1,
        class_stocproc._absStocProc.new_process self y seed g
        = (self1, g1, Ok tt) ->
        exists z,
          _absStocProc._z (_absStocProc.super self1) = Some z /\
          _absStocProc._interpolator (_absStocProc.super self1) = None /\
          forall re im x,
            InterpolatedUnivariateSpline
              (_absStocProc.t (_absStocProc.super self1))
              (Some (map Cre z)) 3 = Ok re ->
            InterpolatedUnivariateSpline
              (_absStocProc.t (_absStocProc.super self1))
              (Some (map Cim z)) 3 = Ok im ->
            let itp := tools.ComplexInterpolatedUnivariateSpline.mk re im in
            let self2 :=
              _absStocProc.with_super self1
                (_absStocProc.set__interpolator (Some itp)
                   (_absStocProc.super self1)) in
            class_stocproc._absStocProc.__call__ self1 x
            = (self2, Ok (Cadd (C_of_F (re x)) (Cmul Cj (C_of_F (im x))))) /\
            _absStocProc._interpolator (_absStocProc.super self2)
            = Some itp /\
            forall x',
              class_stocproc._absStocProc.__call__ self2 x'
              = (self2,
                 Ok (Cadd (C_of_F (re x')) (Cmul Cj (C_of_F (im x'))))))).
Proof.
  split.
  - intros e0 g0 h Hc Hh. split.
    + intros time. apply call_not_ready. apply run_keeps_not_ready; auto.
      apply constructed_fresh in Hc. apply Hc.
    + intros e g y seed e1 g1 Hn.
      pose proof (new_process_effect _ _ _ _ Hn) as [Hi [_ [_ [_ Hz]]]].
      destruct (Hz eq_refl) as [z Hz']. exists z.
      split; [exact Hz'|]. split; [exact Hi|].
      intros re im x Hre Him itp e2. split; [|split].
      * exact (call_builds e1 x Hz' Hi Hre Him).
      * unfold e2. rewrite super_with_super. reflexivity.
      * intros x'.
        apply (call_cached e2 (z := z) (itp := itp)).
        -- unfold e2. rewrite super_with_super. exact Hz'.
        -- unfold e2. rewrite super_with_super. reflexivity.
  - intros Self SP L. split.
    + intros self x Hz Hi. split.
      * unfold class_stocproc._absStocProc.__call__. rewrite Hi, Hz.
        reflexivity.
      * intros ex Hs.
        exact (class_stocproc_call_without_realization self x Hz Hi Hs).
    + intros self y seed g self1 g1 Hn.
      destruct (class_stocproc_new_process_returned _ _ _ _ L Hn)
        as [z [Hz Hi]].
      exists z. split; [exact Hz|]. split; [exact Hi|].
      intros re im x Hre Him itp self2. split; [|split].
      * exact (class_stocproc_call_builds self1 x Hz Hi Hre Him).
      * unfold self2. rewrite L. reflexivity.
      * intros x'.
        rewrite (class_stocproc_call_cached self2 (itp := itp) x').
        -- reflexivity.
        -- unfold self2. rewrite L. reflexivity.
Qed.

(** *** The cached interpolator is never stale *)

Lemma step_coherent (e : engine) g c :
  coherent e -> coherent (fst (fst (step (e, g) c))).
Proof.
  intros Hc. destruct c as [y seed|time| |]; auto.
  - destruct (_absStocProc.new_process e y seed g) as [[e1 g1] r] eqn:Hn.
    rewrite (step_new_process _ _ _ _ Hn). cbn [fst snd].
    apply new_process_effect in Hn. destruct Hn as [Hi _].
    intros itp Hitp. congruence.
  - destruct (_absStocProc.__call__ e time) as [e1 r] eqn:Hn.
    rewrite (step___call__ _ g _ Hn). cbn [fst snd].
    apply call_effect in Hn.
    destruct Hn as [_ [_ [_ [He|[z [itp [Hz [Hi [Hb He]]]]]]]]]; subst; auto.
    intros itp' Hitp. rewrite super_with_super in *. simpl in *.
    exists z. split; congruence.
Qed.

Lemma run_coherent (h : list call) :
  forall e g, coherent e -> coherent (fst (run (e, g) h)).
Proof.
  induction h as [|c h IH]; intros e g Hc; auto.
  rewrite run_cons.
  pose proof (step_coherent g c Hc) as Hs.
  destruct (step (e, g) c) as [[e1 g1] ok]. cbn [fst snd] in *.
  apply IH; auto.
Qed.

Lemma constructed_coherent (e : engine) : constructed e -> coherent e.
Proof.
  intros Hc itp Hi. apply constructed_fresh in Hc. destruct Hc as [_ Hn].
  congruence.
Qed.

(** C9.  In every state an engine reaches from its construction through
    calls of the process interface: [__call__], [get_z] and [get_time]
    leave the realization as it is; [new_process] leaves no interpolator
    behind, whether [_calc_z] returns or raises, and the realization
    changes only when it returns; the stored interpolator, when there is
    one, is the spline through the current realization; so the value an
    evaluation returns is the value of the spline through the realization
    current at that evaluation. *)
Theorem realization_changed_only_by_new_process :
  forall (e0 : engine) (g0 : RNG) (h : list call),
    constructed e0 ->
    (forall c,
        match c with Call_new_process _ _ => False | _ => True end ->
        _absStocProc.get_z (fst (fst (step (run (e0, g0) h) c)))
        = _absStocProc.get_z (fst (run (e0, g0) h))) /\
    (forall y seed e1 g1 r,
        _absStocProc.new_process (fst (run (e0, g0) h)) y seed
          (snd (run (e0, g0) h)) = (e1, g1, r) ->
        _absStocProc._interpolator (_absStocProc.super e1) = None /\
        (is_ok r = false ->
         _absStocProc.get_z e1 = _absStocProc.get_z (fst (run (e0, g0) h)))) /\
    coherent (fst (run (e0, g0) h)) /\
    (forall x e1 v,
        _absStocProc.__call__ (fst (run (e0, g0) h)) (Some x)
        = (e1, Ok (_absStocProc.Value v)) ->
        exists z itp,
          _absStocProc.get_z (fst (run (e0, g0) h)) = Some z /\
          tools.ComplexInterpolatedUnivariateSpline.__init__
            (_absStocProc.get_time (fst (run (e0, g0) h))) z
            (_absStocProc._k (_absStocProc.super (fst (run (e0, g0) h))))
          = Ok itp /\
          v = tools.ComplexInterpolatedUnivariateSpline.__call__ itp x).
Proof.
  intros e0 g0 h Hc.
  assert (Hco : coherent (fst (run (e0, g0) h)))
    by (apply run_coherent, constructed_coherent; exact Hc).
  destruct (run (e0, g0) h) as [e g]. cbn [fst snd] in *.
  split; [|split; [|split]].
  - intros c Hno. destruct c as [y seed|time| |]; try contradiction; auto.
    destruct (_absStocProc.__call__ e time) as [e1 r] eqn:Hn.
    rewrite (step___call__ _ g _ Hn). cbn [fst snd].
    apply call_effect in Hn. unfold _absStocProc.get_z. tauto.
  - intros y seed e1 g1 r Hn. apply new_process_effect in Hn.
    unfold _absStocProc.get_z. tauto.
  - exact Hco.
  - intros x e1 v. unfold _absStocProc.__call__, _absStocProc.get_z,
      _absStocProc.get_time.
    destruct (_absStocProc._z (_absStocProc.super e)) as [z|] eqn:Hz.
    + destruct (_absStocProc._interpolator (_absStocProc.super e))
        as [itp|] eqn:Hi.
      * intros H. split_pair H. exists z, itp.
        destruct (Hco itp Hi) as [z' [Hz' Hb]].
        rewrite Hz in Hz'. inversion Hz'; subst z'.
        repeat split; auto. congruence.
      * destruct (tools.ComplexInterpolatedUnivariateSpline.__init__ _ _ _)
          as [itp|ex] eqn:Hb; intros H; split_pair H; try discriminate.
        exists z, itp. repeat split; auto. congruence.
    + intros H. split_pair H. discriminate.
Qed.

End Lifecycle.

(** *** The lifecycle on the integer interpretation *)

Lemma returned_spec {A : Type} (r : result A) (H : is_ok r = true) :
  r = Ok (returned r H).
Proof.
  destruct r as [a|e]; [reflexivity|discriminate].
Defined.

Lemma triple_eta {A B D : Type} (r : A * B * D) (b : B) (d : D) :
  snd (fst r) = b -> snd r = d -> r = (fst (fst r), b, d).
Proof.
  destruct r as [[a b'] d']. simpl. intros <- <-. reflexivity.
Defined.

Section LifecycleRuns.
Import Toy.

Lemma toy_kle_constructed : constructed (KLE ToyRun.kle).
Proof.
  eapply (constructed_KLE (NP := numerics) (EX := external) (KN := kernels)
            (SV := solvers) ToyRun.r_tau 4 3 2 None 1 3 false 0
            (o := ToyRun.kle) (g' := 0)).
  reflexivity.
Defined.

Lemma call_before_and_after_new_process_witness :
  constructed (KLE ToyRun.kle) /\
  some_new_process_returned (KLE ToyRun.kle, ToyRun.g0) ToyRun.idle_history = false /\
  _absStocProc.__call__ (fst (run (KLE ToyRun.kle, ToyRun.g0) ToyRun.idle_history))
    (Some 2)
  = (fst (run (KLE ToyRun.kle, ToyRun.g0) ToyRun.idle_history), Raise RuntimeError) /\
  snd (_absStocProc.new_process (KLE ToyRun.kle) (Some ToyRun.y2)
         None ToyRun.g0) = Ok tt /\
  (exists z,
    _absStocProc.get_z
      (fst (fst (_absStocProc.new_process (KLE ToyRun.kle)
                   (Some ToyRun.y2) None ToyRun.g0))) = Some z) /\
  snd (class_stocproc._absStocProc.new_process (KLE ToyRun.kle)
         (Some ToyRun.y2) None ToyRun.g0) = Ok tt /\
  exists z,
    _absStocProc._z
      (_absStocProc.super
         (fst (fst (class_stocproc._absStocProc.new_process (KLE ToyRun.kle)
                      (Some ToyRun.y2) None ToyRun.g0)))) = Some z.
Proof.
  destruct (call_before_and_after_new_process (NP := numerics)
              (EX := external) (KN := kernels) (SV := solvers)) as [T U].
  pose proof (T (KLE ToyRun.kle) ToyRun.g0 ToyRun.idle_history
                toy_kle_constructed) as T'.
  assert (Hh : some_new_process_returned (KLE ToyRun.kle, ToyRun.g0)
                 ToyRun.idle_history = false) by reflexivity.
  destruct (T' Hh) as [T1 T2].
  split; [exact toy_kle_constructed|]. split; [exact Hh|].
  split; [apply T1|]. split; [reflexivity|].
  split.
  - destruct (T2 (KLE ToyRun.kle) ToyRun.g0 (Some ToyRun.y2) None
                (fst (fst (_absStocProc.new_process (KLE ToyRun.kle)
                             (Some ToyRun.y2) None ToyRun.g0)))
                ToyRun.g0 (triple_eta _ eq_refl eq_refl)) as [z [Hz _]].
    exists z. exact Hz.
  - split; [reflexivity|].
    destruct (U engine engine_is_StocProc
                (super_with_super (NP := numerics) (EX := external)
                   (KN := kernels))) as [_ U2].
    destruct (U2 (KLE ToyRun.kle) (Some ToyRun.y2) None ToyRun.g0
                (fst (fst (class_stocproc._absStocProc.new_process
                             (KLE ToyRun.kle) (Some ToyRun.y2) None
                             ToyRun.g0)))
                ToyRun.g0 (triple_eta _ eq_refl eq_refl)) as [z [Hz _]].
    exists z. exact Hz.
Defined.

(** The call that departs from C3, run on the integer interpretation.  The
    object is as a constructor leaves it: a time grid, no realization, no
    interpolator (the attributes [__call__] of [class_stocproc.py] reads).
    No [new_process] has returned, and that [__call__] does not raise the
    [RuntimeError] that [__call__] of [stocproc.py] raises on the same
    object: it raises the error of the spline constructor, here a
    [ValueError]. *)
Lemma older_call_before_new_process_is_not_RuntimeError :
  _absStocProc._z (_absStocProc.super (KLE ToyRun.kle)) = None /\
  _absStocProc._interpolator (_absStocProc.super (KLE ToyRun.kle)) = None /\
  class_stocproc._absStocProc.__call__ (KLE ToyRun.kle) 2
  = (KLE ToyRun.kle, Raise ValueError) /\
  class_stocproc._absStocProc.__call__ (KLE ToyRun.kle) 2
  <> (KLE ToyRun.kle, Raise RuntimeError) /\
  _absStocProc.__call__ (KLE ToyRun.kle) (Some 2)
  = (KLE ToyRun.kle, Raise RuntimeError).
Proof.
  assert (H : class_stocproc._absStocProc.__call__ (KLE ToyRun.kle) 2
              = (KLE ToyRun.kle, Raise ValueError)) by reflexivity.
  split; [reflexivity|]. split; [reflexivity|]. split; [exact H|].
  split; [|reflexivity].
  rewrite H. intros E. apply pair_equal_spec in E. destruct E as [_ E].
  discriminate E.
Qed.

Lemma realization_changed_only_by_new_process_witness :
  constructed (KLE ToyRun.kle) /\
  coherent (fst (run (KLE ToyRun.kle, ToyRun.g0) ToyRun.busy_history)) /\
  match _absStocProc._interpolator
          (_absStocProc.super
             (fst (run (KLE ToyRun.kle, ToyRun.g0) ToyRun.busy_history))) with
  | Some _ => true
  | None => false
  end = true.
Proof.
  split; [exact toy_kle_constructed|]. split.
  - apply (realization_changed_only_by_new_process (NP := numerics)
             (EX := external) (KN := kernels) (SV := solvers)
             (e0 := KLE ToyRun.kle) ToyRun.g0 ToyRun.busy_history
             toy_kle_constructed).
  - reflexivity.
Defined.

End LifecycleRuns.

(** ** The immutable part of an engine *)

Section Immutable.
Context {NP : Numerics} {EX : External} {KN : Kernels} {SV : Solvers}.

Lemma with_super_super (e : engine) :
  _absStocProc.with_super e (_absStocProc.super e) = e.
Proof.
  destruct e as [o|o|o]; destruct o as [o0 ?]; try destruct o0;
    reflexivity.
Qed.

Lemma with_super_twice (e : engine) b b' :
  _absStocProc.with_super (_absStocProc.with_super e b) b'
  = _absStocProc.with_super e b'.
Proof. destruct e as [o|o|o]; reflexivity. Qed.

Lemma same_settings_refl b : same_settings b b.
Proof. repeat split. Qed.

Lemma same_core_refl (e : engine) : same_core e e.
Proof.
  exists (_absStocProc.super e). split.
  - symmetry. apply with_super_super.
  - apply same_settings_refl.
Qed.

Lemma same_core_trans (e1 e2 e3 : engine) :
  same_core e1 e2 -> same_core e2 e3 -> same_core e1 e3.
Proof.
  intros [b [-> Hb]] [b' [-> Hb']]. exists b'. split.
  - apply with_super_twice.
  - rewrite super_with_super in Hb'. unfold same_settings in *.
    intuition congruence.
Qed.

Lemma same_core_with_super (e : engine) b :
  same_settings (_absStocProc.super e) b ->
  same_core e (_absStocProc.with_super e b).
Proof. intros H. exists b. auto. Qed.

Lemma new_process_unfold (e : engine) y seed g :
  let self2 := _absStocProc.with_super e (entered (_absStocProc.super e)) in
  _absStocProc.new_process e y seed g =
  match (match seed with
         | Some s => np_random_seed s
         | None => Ok g
         end) with
  | Raise ex => (self2, g, Raise ex)
  | Ok g1 =>
      let '(y', g2) :=
        match y with
        | None => _absStocProc.draw_y self2 g1
        | Some v => (v, g1)
        end in
      match _absStocProc._calc_z self2 y' with
      | Ok z =>
          (_absStocProc.with_super e
             (_absStocProc.set__z (Some z) (entered (_absStocProc.super e))),
           g2, Ok tt)
      | Raise ex => (self2, g2, Raise ex)
      end
  end.
Proof.
  intros self2. unfold _absStocProc.new_process.
  replace (_absStocProc.with_super
      (_absStocProc.with_super e
         (_absStocProc.set__interpolator None (_absStocProc.super e)))
      (_absStocProc.set__proc_cnt
         (_absStocProc._proc_cnt
            (_absStocProc.super
               (_absStocProc.with_super e
                  (_absStocProc.set__interpolator None (_absStocProc.super e))))
          + 1)
         (_absStocProc.super
            (_absStocProc.with_super e
               (_absStocProc.set__interpolator None (_absStocProc.super e))))))
    with self2
    by (unfold self2, entered; rewrite super_with_super, with_super_twice;
        reflexivity).
  destruct (match seed with Some s => np_random_seed s | None => Ok g end);
    [|reflexivity].
  destruct (match y with
            | Some v => (v, a)
            | None => _absStocProc.draw_y self2 a
            end) as [y' g2].
  destruct (_absStocProc._calc_z self2 y'); [|reflexivity].
  unfold self2. rewrite super_with_super, with_super_twice. reflexivity.
Qed.

Lemma entered_same_settings b : same_settings b (entered b).
Proof. repeat split. Qed.

Lemma step_same_core (e : engine) g c :
  same_core e (fst (fst (step (e, g) c))).
Proof.
  destruct c as [y seed|time| |]; try apply same_core_refl.
  - destruct (_absStocProc.new_process e y seed g) as [[e1 g1] r] eqn:Hn.
    rewrite (step_new_process _ _ _ _ Hn). cbn [fst snd].
    apply new_process_cases in Hn.
    destruct Hn as [[ex [Hr He]]|[y' [z [Hr [Hz [Hy He]]]]]]; subst.
    + apply same_core_with_super, entered_same_settings.
    + rewrite with_super_twice. apply same_core_with_super.
      repeat split.
  - destruct (_absStocProc.__call__ e time) as [e1 r] eqn:Hn.
    rewrite (step___call__ _ g _ Hn). cbn [fst snd].
    apply call_effect in Hn.
    destruct Hn as [_ [_ [_ [He|[z [itp [Hz [Hi [Hb He]]]]]]]]]; subst.
    + apply same_core_refl.
    + apply same_core_with_super. repeat split.
Qed.

Lemma run_same_core (h : list call) :
  forall e g, same_core e (fst (run (e, g) h)).
Proof.
  induction h as [|c h IH]; intros e g; [apply same_core_refl|].
  rewrite run_cons.
  pose proof (step_same_core e g c) as Hs.
  destruct (step (e, g) c) as [[e1 g1] ok]. cbn [fst snd] in *.
  eapply same_core_trans; [exact Hs|apply IH].
Qed.

Lemma calc_z_same_core (e e' : engine) :
  same_core e e' ->
  forall y, _absStocProc._calc_z e' y = _absStocProc._calc_z e y.
Proof.
  intros [b [-> Hb]] y. destruct e as [o|o|o]; try reflexivity.
  destruct Hb as [_ [Hn _]]. simpl in *.
  unfold StocProc_FFT_tol._calc_z. simpl. rewrite Hn. reflexivity.
Qed.

Lemma get_num_y_same_core (e e' : engine) :
  same_core e e' -> _absStocProc.get_num_y e' = _absStocProc.get_num_y e.
Proof. intros [b [-> Hb]]. destruct e as [o|o|o]; reflexivity. Qed.

Lemma export_import_same_core (e e' : engine) g :
  same_core e e' -> export_import e' g = export_import e g.
Proof.
  intros [b [-> Hb]].
  destruct Hb as [Ht [Hn [_ [Hk [Hs _]]]]].
  destruct e as [o|o|o]; simpl in *.
  - unfold StocProc_KLE.__getstate__. simpl. rewrite Ht, Hk, Hs. reflexivity.
  - unfold StocProc_KLE.__getstate__. simpl. rewrite Ht, Hk, Hs. reflexivity.
  - unfold StocProc_FFT_tol.__getstate__. simpl.
    rewrite Ht, Hk, Hs, Hn. reflexivity.
Qed.

(** With an explicit input vector the outcome of [new_process] is that of
    the seeding and of [_calc_z], and the realization stored is the value of
    [_calc_z]. *)
Lemma new_process_explicit (e : engine) v seed g e1 g1 r :
  _absStocProc.new_process e (Some v) seed g = (e1, g1, r) ->
  r = (_ <- match seed with
            | Some s => np_random_seed s
            | None => Ok g
            end ;;
       _ <- _absStocProc._calc_z e v ;; Ok tt) /\
  (r = Ok tt ->
   exists z, _absStocProc._calc_z e v = Ok z /\
             _absStocProc.get_z e1 = Some z).
Proof.
  rewrite new_process_unfold.
  assert (Hz : _absStocProc._calc_z
                 (_absStocProc.with_super e (entered (_absStocProc.super e))) v
               = _absStocProc._calc_z e v).
  { apply calc_z_same_core, same_core_with_super, entered_same_settings. }
  destruct (match seed with Some s => np_random_seed s | None => Ok g end)
    as [g0|ex]; cbn [bind].
  - rewrite Hz. destruct (_absStocProc._calc_z e v) as [z|ex]; cbn [bind];
      intros H; split_pair H; subst; split; auto; try discriminate.
    intros _. exists z. split; auto.
    unfold _absStocProc.get_z. rewrite super_with_super. reflexivity.
  - intros H; split_pair H; subst. split; auto. discriminate.
Qed.

(** *** Construction does not depend on the state of the generator *)

Lemma base_init_indep t_max n seed k g1 b g1' :
  _absStocProc.__init__ t_max n seed k g1 = Ok (b, g1') ->
  forall g2, exists g2', _absStocProc.__init__ t_max n seed k g2 = Ok (b, g2').
Proof.
  unfold _absStocProc.__init__. intros H g2.
  inv_bind H as grid. inv_bind H as gg. inversion H; subst.
  rewrite Hb. cbn [bind]. destruct seed as [s|].
  - rewrite Hb0. cbn [bind]. eauto.
  - cbn [bind]. eauto.
Qed.

Lemma base_init_fields t_max n seed k g b g' :
  _absStocProc.__init__ t_max n seed k g = Ok (b, g') ->
  _absStocProc.t_max b = t_max /\ _absStocProc.num_grid_points b = n /\
  _absStocProc._k b = k /\ _absStocProc._seed b = seed.
Proof.
  unfold _absStocProc.__init__. intros H.
  inv_bind H as grid. inv_bind H as gg. inversion H; subst.
  repeat split.
Qed.

Lemma KLE_setstate_indep st g1 o g1' :
  StocProc_KLE.__setstate__ st g1 = Ok (o, g1') ->
  forall g2, exists g2', StocProc_KLE.__setstate__ st g2 = Ok (o, g2').
Proof.
  unfold StocProc_KLE.__setstate__.
  destruct st as [[[[[A alpha] seed] k] t_max] fac]. intros H g2.
  inv_bind H as [b gg]. inversion H; subst.
  destruct (base_init_indep _ _ _ _ _ Hb g2) as [g2' Hg]. rewrite Hg.
  cbn [bind]. eauto.
Qed.

Lemma KLE_init_indep r_tau t_max ng fac seed sig_min k al g1 o g1' :
  StocProc_KLE.__init__ r_tau t_max ng fac seed sig_min k al g1 = Ok (o, g1') ->
  forall g2, exists g2',
    StocProc_KLE.__init__ r_tau t_max ng fac seed sig_min k al g2 = Ok (o, g2').
Proof.
  unfold StocProc_KLE.__init__. intros H g2.
  inv_bind H as [times w]. rewrite Hb. cbn [bind].
  inv_bind H as r. rewrite Hb0. cbn [bind].
  inv_bind H as [eig_val eig_vec0]. rewrite Hb1. cbn [bind].
  inv_bind H as eig_vec. rewrite Hb2. cbn [bind].
  inv_bind H as wu. rewrite Hb3. cbn [bind].
  inv_bind H as A. rewrite Hb4. cbn [bind].
  inv_bind H as fine. rewrite Hb5. cbn [bind].
  inv_bind H as alpha. rewrite Hb6. cbn [bind].
  inv_bind H as [self gg].
  destruct (KLE_setstate_indep _ _ Hb7 g2) as [g2' Hg]. rewrite Hg.
  cbn [bind]. inversion H; subst. eauto.
Qed.

Lemma init_and_error_indep ng kw g1 o err g1' :
  StocProc_KLE_tol._init_StocProc_KLE_and_get_error ng kw g1
  = Ok (o, err, g1') ->
  forall g2, exists g2',
    StocProc_KLE_tol._init_StocProc_KLE_and_get_error ng kw g2
    = Ok (o, err, g2').
Proof.
  unfold StocProc_KLE_tol._init_StocProc_KLE_and_get_error. intros H g2.
  inv_bind H as [self gg].
  destruct (KLE_init_indep _ _ _ _ _ _ _ _ _ Hb g2) as [g2' Hg]. rewrite Hg.
  cbn [bind].
  destruct (_ <- StocProc_KLE_tol.attr (StocProc_KLE._s self) ;; _)
    as [[[o' err'] gx]|ex] eqn:Hrest; [|discriminate].
  assert (Hshape : exists v,
             (s <- StocProc_KLE_tol.attr (StocProc_KLE._s self) ;;
              w <- StocProc_KLE_tol.attr (StocProc_KLE._w self) ;;
              eig_val <- StocProc_KLE_tol.attr (StocProc_KLE._eig_val self) ;;
              eig_vec <- StocProc_KLE_tol.attr (StocProc_KLE._eig_vec self) ;;
              u_i_all_t <- eig_func_all_interp (StocProc_KLE.ng_fac self) s
                             (StocProc_KLE.alpha_k self) w eig_val eig_vec ;;
              tmp <- np_binop2 (fun a b => Cmul (C_of_F a) b) (F_of_Z 0)
                       np_empty (as_row eig_val) u_i_all_t ;;
              recs_bcf <- np_tensordot_1_1 tmp (np_map2d Cconj u_i_all_t) ;;
              refc_bcf <- (if StocProc_KLE.ng_fac self * (ng - 1) + 1 <? 0
                           then Raise ValueError
                           else StocProc_KLE.fill_columns
                                  (Z.to_nat
                                     (StocProc_KLE.ng_fac self * (ng - 1) + 1))
                                  (StocProc_KLE.alpha_k self)) ;;
              diff <- np_binop2 Csub np_empty np_empty recs_bcf refc_bcf ;;
              quot <- np_binop2 Fdiv (F_of_Z 0) (F_of_Z 0)
                        (np_map2d Cabs diff) (np_map2d Cabs refc_bcf) ;;
              np_max2d quot) = Ok v /\ v = err /\ self = o).
  { clear Hg. inv_binds Hrest. inversion Hrest; subst.
    inversion H; subst. exists err.
    rewrite Hb0, Hb1, Hb2, Hb3. cbn [bind].
    rewrite Hb4. cbn [bind]. rewrite Hb5. cbn [bind]. rewrite Hb6.
    cbn [bind]. rewrite Hb7. cbn [bind]. rewrite Hb8. cbn [bind].
    rewrite Hb9. cbn [bind]. auto. }
  destruct Hshape as [v [Hv [-> ->]]].
  exists g2'.
  clear Hrest H. inv_binds Hv.
  rewrite Hb0, Hb1, Hb2, Hb3. cbn [bind].
  rewrite Hb4. cbn [bind]. rewrite Hb5. cbn [bind]. rewrite Hb6.
  cbn [bind]. rewrite Hb7. cbn [bind]. rewrite Hb8. cbn [bind].
  rewrite Hb9. cbn [bind]. rewrite Hv. reflexivity.
Qed.

Lemma doubling_indep tolerance kw fuel1 :
  forall err c self g1 c1 self1 g1' fuel2 g2 c2 self2 g2',
    StocProc_KLE_tol.doubling fuel1 tolerance kw err c self g1
    = Some (Ok (c1, self1, g1')) ->
    StocProc_KLE_tol.doubling fuel2 tolerance kw err c self g2
    = Some (Ok (c2, self2, g2')) ->
    c1 = c2 /\ self1 = self2.
Proof.
  induction fuel1 as [|fuel1 IH];
    intros err c self g1 c1 self1 g1' fuel2 g2 c2 self2 g2' H1 H2.
  - rewrite doubling_O in H1. destruct fuel2.
    + rewrite doubling_O in H2. destruct (Fgtb err tolerance);
        try discriminate. inversion H1; inversion H2; subst; auto.
    + rewrite doubling_S in H2. destruct (Fgtb err tolerance);
        try discriminate. inversion H1; inversion H2; subst; auto.
  - rewrite doubling_S in H1. destruct fuel2.
    + rewrite doubling_O in H2. destruct (Fgtb err tolerance);
        try discriminate. inversion H1; inversion H2; subst; auto.
    + rewrite doubling_S in H2. destruct (Fgtb err tolerance).
      * destruct (StocProc_KLE_tol._init_StocProc_KLE_and_get_error
                    (2 * (c * 2) + 1) kw g1) as [[[o e] ga]|] eqn:Hi;
          try discriminate.
        destruct (init_and_error_indep _ _ _ Hi g2) as [gb Hj].
        rewrite Hj in H2. eapply IH; eauto.
      * inversion H1; inversion H2; subst; auto.
Qed.

Lemma bisection_indep tolerance kw fuel1 :
  forall c_low c_high self g1 self1 g1' fuel2 g2 self2 g2',
    StocProc_KLE_tol.bisection fuel1 tolerance kw c_low c_high self g1
    = Some (Ok (self1, g1')) ->
    StocProc_KLE_tol.bisection fuel2 tolerance kw c_low c_high self g2
    = Some (Ok (self2, g2')) ->
    self1 = self2.
Proof.
  induction fuel1 as [|fuel1 IH];
    intros c_low c_high self g1 self1 g1' fuel2 g2 self2 g2' H1 H2.
  - rewrite bisection_O in H1. destruct fuel2.
    + rewrite bisection_O in H2. destruct (c_high - c_low >? 1);
        try discriminate. inversion H1; inversion H2; subst; auto.
    + rewrite bisection_S in H2. destruct (c_high - c_low >? 1);
        try discriminate. inversion H1; inversion H2; subst; auto.
  - rewrite bisection_S in H1. destruct fuel2.
    + rewrite bisection_O in H2. destruct (c_high - c_low >? 1);
        try discriminate. inversion H1; inversion H2; subst; auto.
    + rewrite bisection_S in H2. destruct (c_high - c_low >? 1).
      * destruct (StocProc_KLE_tol._init_StocProc_KLE_and_get_error
                    (2 * ((c_low + c_high) / 2) + 1) kw g1)
          as [[[o e] ga]|] eqn:Hi; try discriminate.
        destruct (init_and_error_indep _ _ _ Hi g2) as [gb Hj].
        rewrite Hj in H2. destruct (Fgtb e tolerance); eapply IH; eauto.
      * inversion H1; inversion H2; subst; auto.
Qed.

Lemma auto_grid_points_indep tolerance kw fuel1 fuel2 g1 g2 s1 s2 g1' g2' :
  StocProc_KLE_tol._auto_grid_points fuel1 tolerance kw g1
  = Some (Ok (s1, g1')) ->
  StocProc_KLE_tol._auto_grid_points fuel2 tolerance kw g2
  = Some (Ok (s2, g2')) ->
  s1 = s2.
Proof.
  unfold StocProc_KLE_tol._auto_grid_points. intros H1 H2.
  destruct (StocProc_KLE_tol.doubling fuel1 tolerance kw Finf 2 None g1)
    as [[[[c1 x1] ga]|]|] eqn:Hd1; try discriminate.
  destruct (StocProc_KLE_tol.doubling fuel2 tolerance kw Finf 2 None g2)
    as [[[[c2 x2] gb]|]|] eqn:Hd2; try discriminate.
  assert (Hcx : c1 = c2 /\ x1 = x2) by (eapply doubling_indep; eauto).
  destruct Hcx as [-> ->].
  eapply bisection_indep; eauto.
Qed.

Lemma KLE_tol_init_indep fuel1 fuel2 r_tau t_max tolerance fac seed k al
      g1 g2 o1 o2 g1' g2' :
  StocProc_KLE_tol.__init__ fuel1 r_tau t_max tolerance fac seed k al g1
  = Some (Ok (o1, g1')) ->
  StocProc_KLE_tol.__init__ fuel2 r_tau t_max tolerance fac seed k al g2
  = Some (Ok (o2, g2')) ->
  o1 = o2.
Proof.
  unfold StocProc_KLE_tol.__init__. intros H1 H2.
  destruct (StocProc_KLE_tol._auto_grid_points fuel1 tolerance _ g1)
    as [[[s1 ga]|]|] eqn:Ha1; try discriminate.
  destruct (StocProc_KLE_tol._auto_grid_points fuel2 tolerance _ g2)
    as [[[s2 gb]|]|] eqn:Ha2; try discriminate.
  assert (Hs : s1 = s2) by (eapply auto_grid_points_indep; eauto).
  subst s2.
  inversion H1 as [H1']. inversion H2 as [H2']. clear H1 H2.
  inv_bind H1' as x1. inv_bind H2' as x2.
  rewrite Hb in Hb0. inversion Hb0; subst x2.
  inv_bind H1' as [[[[[a0 a1] a2] a3] a4] a5].
  inv_bind H2' as [[[[[b0 b1] b2] b3] b4] b5].
  rewrite Hb1 in Hb2. inversion Hb2; subst.
  inversion H1'; inversion H2'; subst. reflexivity.
Qed.

Lemma FFT_init_indep sd t_max bcf_ref intgr_tol intpl_tol seed k neg
      g1 o g1' :
  StocProc_FFT_tol.__init__ sd t_max bcf_ref intgr_tol intpl_tol seed k neg g1
  = Ok (o, g1') ->
  forall g2, exists g2',
    StocProc_FFT_tol.__init__ sd t_max bcf_ref intgr_tol intpl_tol seed k neg g2
    = Ok (o, g2').
Proof.
  unfold StocProc_FFT_tol.__init__. intros H g2.
  inv_bind H as [[[[a b] N] dx] dt]. rewrite Hb. cbn [bind].
  destruct (Fltb _ _); try discriminate.
  inv_bind H as [b0 gg].
  destruct (base_init_indep _ _ _ _ _ Hb0 g2) as [g2' Hg]. rewrite Hg.
  cbn [bind]. inversion H; subst. eauto.
Qed.

Lemma same_configuration_eq (e1 e2 : engine) :
  same_configuration e1 e2 -> e1 = e2.
Proof.
  intros H. destruct H.
  - destruct (KLE_init_indep _ _ _ _ _ _ _ _ _ H g2) as [gx Hx].
    rewrite Hx in H0. inversion H0; reflexivity.
  - f_equal. eapply KLE_tol_init_indep; eauto.
  - destruct (FFT_init_indep _ _ _ _ _ _ _ _ _ H g2) as [gx Hx].
    rewrite Hx in H0. inversion H0; reflexivity.
Qed.

(** C10.  Two engines built from the same configuration, each after any
    history of calls of its own and whatever the states of the generator,
    map the same input vector to the same value of [_calc_z]; so
    [new_process] with that vector (and the same [seed] argument) has the
    same outcome on both, and when it returns both store the same
    realization. *)
Theorem new_process_deterministic :
  forall (e1 e2 : engine) (g1 g2 : RNG) (h1 h2 : list call)
         (y : list C) (seed : option Z) (ga gb : RNG)
         (a b : engine) (ga' gb' : RNG) (ra rb : result unit),
    same_configuration e1 e2 ->
    _absStocProc.new_process (fst (run (e1, g1) h1)) (Some y) seed ga
    = (a, ga', ra) ->
    _absStocProc.new_process (fst (run (e2, g2) h2)) (Some y) seed gb
    = (b, gb', rb) ->
    _absStocProc._calc_z (fst (run (e1, g1) h1)) y
    = _absStocProc._calc_z (fst (run (e2, g2) h2)) y /\
    ra = rb /\
    (ra = Ok tt ->
     exists z, _absStocProc.get_z a = Some z /\
               _absStocProc.get_z b = Some z).
Proof.
  intros e1 e2 g1 g2 h1 h2 y seed ga gb a b ga' gb' ra rb Hc Ha Hb.
  apply same_configuration_eq in Hc. subst e2.
  assert (Hz : _absStocProc._calc_z (fst (run (e1, g1) h1)) y
               = _absStocProc._calc_z (fst (run (e1, g2) h2)) y).
  { rewrite (calc_z_same_core (run_same_core h1 e1 g1)).
    rewrite (calc_z_same_core (run_same_core h2 e1 g2)). reflexivity. }
  apply new_process_explicit in Ha. apply new_process_explicit in Hb.
  destruct Ha as [Hra Ha]. destruct Hb as [Hrb Hb].
  assert (Hr : ra = rb).
  { rewrite Hra, Hrb, Hz. destruct seed as [s|]; [|reflexivity].
    destruct (np_random_seed s); reflexivity. }
  split; [exact Hz|]. split; [exact Hr|].
  intros Hok. destruct (Ha Hok) as [z [Hza Hga]].
  assert (Hok' : rb = Ok tt) by congruence.
  destruct (Hb Hok') as [z' [Hzb Hgb]].
  exists z. split; auto. rewrite Hz in Hza. congruence.
Qed.

End Immutable.

Section ImmutableRuns.
Import Toy.

Lemma toy_kle_same_configuration :
  same_configuration (KLE ToyRun.kle) (KLE ToyRun.kle).
Proof.
  apply (same_KLE (NP := numerics) (EX := external) (KN := kernels)
           (SV := solvers) ToyRun.r_tau 4 3 2 None 1 3 false ToyRun.g0 5
           (o1 := ToyRun.kle) (o2 := ToyRun.kle)
           (g1' := 0) (g2' := 5)); reflexivity.
Defined.

Lemma new_process_deterministic_witness :
  same_configuration (KLE ToyRun.kle) (KLE ToyRun.kle) /\
  _absStocProc._calc_z
    (fst (run (KLE ToyRun.kle, ToyRun.g0) ToyRun.busy_history)) ToyRun.y2
  = _absStocProc._calc_z
      (fst (run (KLE ToyRun.kle, 5) ToyRun.idle_history)) ToyRun.y2 /\
  snd (_absStocProc.new_process
         (fst (run (KLE ToyRun.kle, ToyRun.g0) ToyRun.busy_history))
         (Some ToyRun.y2) None ToyRun.g0)
  = snd (_absStocProc.new_process
           (fst (run (KLE ToyRun.kle, 5) ToyRun.idle_history))
           (Some ToyRun.y2) None 9).
Proof.
  split; [exact toy_kle_same_configuration|].
  pose proof (new_process_deterministic (NP := numerics) (EX := external)
                (KN := kernels) (SV := solvers)
                ToyRun.g0 5 ToyRun.busy_history ToyRun.idle_history
                ToyRun.y2 None ToyRun.g0 9
                toy_kle_same_configuration
                (triple_eta _ eq_refl eq_refl)
                (triple_eta _ eq_refl eq_refl)) as T.
  split; [apply T|apply T].
Defined.

End ImmutableRuns.

(** ** Snapshots *)

Section Snapshots.
Context {NP : Numerics} {EX : External} {KN : Kernels} {SV : Solvers}.

Lemma KLE_setstate_restorable st g o g' :
  StocProc_KLE.__setstate__ st g = Ok (o, g') -> KLE_restorable o.
Proof.
  intros H. pose proof H as H0. unfold StocProc_KLE.__setstate__ in H.
  destruct st as [[[[[A alpha] seed] k] t_max] fac].
  inv_bind H as [b gg]. inversion H; subst. clear H.
  destruct (base_init_fields _ _ _ _ _ Hb) as [Ht [_ [Hk Hs]]].
  split; [reflexivity|]. split; [reflexivity|]. split; [reflexivity|].
  intros g2. unfold StocProc_KLE.__getstate__. simpl.
  rewrite Ht, Hk, Hs.
  destruct (KLE_setstate_indep _ _ H0 g2) as [g2' Hg].
  exists b, g2'. split; [exact Hg|]. eapply base_init_fresh; eauto.
Qed.

Lemma KLE_init_restorable r_tau t_max ng fac seed sig_min k al g o g' :
  StocProc_KLE.__init__ r_tau t_max ng fac seed sig_min k al g = Ok (o, g') ->
  KLE_restorable o.
Proof.
  unfold StocProc_KLE.__init__. intros H.
  inv_bind H as [times w]. inv_bind H as r.
  inv_bind H as [eig_val eig_vec0]. inv_bind H as eig_vec.
  inv_bind H as wu. inv_bind H as A. inv_bind H as fine.
  inv_bind H as alpha. inv_bind H as [self g1].
  inversion H; subst. clear H.
  apply KLE_setstate_restorable in Hb7.
  destruct Hb7 as [Hsq [Hny [Hki Hre]]].
  split; [exact Hsq|]. split; [exact Hny|]. split; [exact Hki|]. exact Hre.
Qed.

Lemma KLE_set_key_restorable key o :
  KLE_restorable o -> KLE_restorable (StocProc_KLE.set_key key o).
Proof. intros H. exact H. Qed.

Lemma KLE_tol_init_restorable fuel r_tau t_max tolerance fac seed k al g o g' :
  StocProc_KLE_tol.__init__ fuel r_tau t_max tolerance fac seed k al g
  = Some (Ok (o, g')) ->
  KLE_restorable (StocProc_KLE_tol.kle o).
Proof.
  intros H. apply KLE_tol_init_inv in H.
  destruct H as [self [key [Ha Ho]]]. subst o. simpl.
  apply KLE_set_key_restorable.
  eapply (auto_grid_points_invariant KLE_restorable); [|exact Ha|reflexivity].
  intros ng g1 o g1' Hi. eapply KLE_init_restorable; eauto.
Qed.

Lemma FFT_setstate_restorable st g o g' :
  StocProc_FFT_tol.__setstate__ st g = Ok (o, g') -> FFT_restorable o.
Proof.
  intros H. pose proof H as H0. unfold StocProc_FFT_tol.__setstate__ in H.
  destruct st as [[[[[yl0 n] omc] t_max] seed] k].
  inv_bind H as [b gg]. inversion H; subst. clear H.
  destruct (base_init_fields _ _ _ _ _ Hb) as [Ht [Hn [Hk Hs]]].
  intros g2. unfold StocProc_FFT_tol.__getstate__. simpl.
  rewrite Ht, Hk, Hs, Hn.
  unfold StocProc_FFT_tol.__setstate__.
  destruct (base_init_indep _ _ _ _ _ Hb g2) as [g2' Hg]. rewrite Hg.
  cbn [bind]. exists b, g2'. split; [reflexivity|].
  split; [eapply base_init_fresh; eauto|auto].
Qed.

Lemma FFT_init_restorable sd t_max bcf_ref intgr_tol intpl_tol seed k neg
      g o g' :
  StocProc_FFT_tol.__init__ sd t_max bcf_ref intgr_tol intpl_tol seed k neg g
  = Ok (o, g') ->
  FFT_restorable o.
Proof.
  unfold StocProc_FFT_tol.__init__. intros H.
  inv_bind H as [[[[a b] N] dx] dt].
  destruct (Fltb _ _); try discriminate.
  inv_bind H as [b0 gg]. inversion H; subst. clear H.
  destruct (base_init_fields _ _ _ _ _ Hb0) as [Ht [Hn [Hk Hs]]].
  intros g2. unfold StocProc_FFT_tol.__getstate__. simpl.
  rewrite Ht, Hk, Hs, Hn.
  unfold StocProc_FFT_tol.__setstate__.
  destruct (base_init_indep _ _ _ _ _ Hb0 g2) as [g2' Hg]. rewrite Hg.
  cbn [bind]. exists b0, g2'. split; [reflexivity|].
  split; [eapply base_init_fresh; eauto|auto].
Qed.

Lemma KLE_import_calc_z (o : StocProc_KLE.obj) b y :
  StocProc_KLE._sqrt_eig_val o = None ->
  StocProc_KLE._calc_z (KLE_import o b) y = StocProc_KLE._calc_z o y.
Proof.
  intros Hsq. unfold StocProc_KLE._calc_z, KLE_import. simpl.
  rewrite Hsq. reflexivity.
Qed.

Lemma export_import_constructed (e : engine) :
  constructed e ->
  forall g, exists e' g',
    export_import e g = Ok (e', g') /\
    fresh (_absStocProc.super e') /\
    _absStocProc.get_num_y e' = _absStocProc.get_num_y e /\
    forall y, _absStocProc._calc_z e' y = _absStocProc._calc_z e y.
Proof.
  intros Hc g.
  assert (HK : forall o, KLE_restorable o ->
             exists o' g',
               StocProc_KLE.__setstate__ (StocProc_KLE.__getstate__ o) g
               = Ok (o', g') /\
               fresh (StocProc_KLE.base o') /\
               StocProc_KLE.get_num_y o' = StocProc_KLE.get_num_y o /\
               forall y, StocProc_KLE._calc_z o' y = StocProc_KLE._calc_z o y).
  { intros o [Hsq [Hny [_ Hre]]]. destruct (Hre g) as [b [g' [Hs Hf]]].
    exists (KLE_import o b), g'. split; [exact Hs|]. split; [exact Hf|].
    split; [unfold StocProc_KLE.get_num_y; simpl; congruence|].
    intros y. apply KLE_import_calc_z; auto. }
  assert (HF : forall o, FFT_restorable o ->
             exists o' g',
               StocProc_FFT_tol.__setstate__
                 (StocProc_FFT_tol.__getstate__ o) g = Ok (o', g') /\
               fresh (StocProc_FFT_tol.base o') /\
               StocProc_FFT_tol.get_num_y o' = StocProc_FFT_tol.get_num_y o /\
               forall y, StocProc_FFT_tol._calc_z o' y
                         = StocProc_FFT_tol._calc_z o y).
  { intros o Hre. destruct (Hre g) as [b [g' [Hs [Hf Hn]]]].
    eexists _, g'. split; [exact Hs|]. split; [exact Hf|].
    split; [reflexivity|].
    intros y. unfold StocProc_FFT_tol._calc_z. simpl. rewrite Hn.
    reflexivity. }
  destruct Hc as [? ? ? ? ? ? ? ? ? o gx H|? ? o gx H
                  |? ? ? ? ? ? ? ? ? o gx H
                  |? ? ? ? ? ? ? ? ? o gx H|? ? o gx H];
    unfold export_import.
  - destruct (HK o (KLE_init_restorable _ _ _ _ _ _ _ _ _ H))
      as [o' [g' [Hs R]]].
    rewrite Hs. cbn [bind fst snd]. exists (KLE o'), g'. split; auto.
  - destruct (HK o (KLE_setstate_restorable _ _ H)) as [o' [g' [Hs R]]].
    rewrite Hs. cbn [bind fst snd]. exists (KLE o'), g'. split; auto.
  - destruct (HK _ (KLE_tol_init_restorable _ _ _ _ _ _ _ _ _ H))
      as [o' [g' [Hs R]]].
    rewrite Hs. cbn [bind fst snd]. exists (KLE o'), g'. split; auto.
  - destruct (HF o (FFT_init_restorable _ _ _ _ _ _ _ _ _ H))
      as [o' [g' [Hs R]]].
    rewrite Hs. cbn [bind fst snd]. exists (FFT_tol o'), g'. split; auto.
  - destruct (HF o (FFT_setstate_restorable _ _ H)) as [o' [g' [Hs R]]].
    rewrite Hs. cbn [bind fst snd]. exists (FFT_tol o'), g'. split; auto.
Qed.

(** Engines with the same [_calc_z] realize an input vector alike. *)
Lemma same_calc_z_same_realization (e1 e2 : engine) y seed ga gb
      a ga' ra b gb' rb :
  _absStocProc._calc_z e1 y = _absStocProc._calc_z e2 y ->
  _absStocProc.new_process e1 (Some y) seed ga = (a, ga', ra) ->
  _absStocProc.new_process e2 (Some y) seed gb = (b, gb', rb) ->
  ra = rb /\
  (ra = Ok tt ->
   exists z, _absStocProc.get_z a = Some z /\ _absStocProc.get_z b = Some z).
Proof.
  intros Hz Ha Hb.
  apply new_process_explicit in Ha. apply new_process_explicit in Hb.
  destruct Ha as [Hra Ha]. destruct Hb as [Hrb Hb].
  assert (Hr : ra = rb).
  { rewrite Hra, Hrb, Hz. destruct seed as [s|]; [|reflexivity].
    destruct (np_random_seed s); reflexivity. }
  split; [exact Hr|].
  intros Hok. destruct (Ha Hok) as [z [Hza Hga]].
  assert (Hok' : rb = Ok tt) by congruence.
  destruct (Hb Hok') as [z' [Hzb Hgb]].
  exists z. split; auto. rewrite Hz in Hza. congruence.
Qed.

(** C5.  For an engine in any state it reaches from its construction,
    exporting the snapshot and importing it into a fresh instance returns
    an engine without a realization which maps every input vector to the
    same value of [_calc_z] as the original, so that [new_process] with
    that vector has the same outcome on both and stores the same
    realization.  The import is [__setstate__], which is defined from numpy
    alone ([External]): neither the solvers nor the searches of [Solvers]
    are among its arguments. *)
Theorem snapshot_round_trip :
  forall (e0 : engine) (g0 : RNG) (h : list call) (g : RNG),
    constructed e0 ->
    exists e' g',
      @export_import NP EX (fst (run (e0, g0) h)) g = Ok (e', g') /\
      fresh (_absStocProc.super e') /\
      _absStocProc.get_num_y e' = _absStocProc.get_num_y (fst (run (e0, g0) h)) /\
      forall y,
        _absStocProc._calc_z e' y
        = _absStocProc._calc_z (fst (run (e0, g0) h)) y /\
        forall seed ga gb a ga' ra b gb' rb,
          _absStocProc.new_process e' (Some y) seed ga = (a, ga', ra) ->
          _absStocProc.new_process (fst (run (e0, g0) h)) (Some y) seed gb
          = (b, gb', rb) ->
          ra = rb /\
          (ra = Ok tt ->
           exists z, _absStocProc.get_z a = Some z /\
                     _absStocProc.get_z b = Some z).
Proof.
  intros e0 g0 h g Hc.
  destruct (export_import_constructed Hc g) as [e' [g' [He [Hf [Hn Hz]]]]].
  pose proof (run_same_core h e0 g0) as Hs.
  exists e', g'. split.
  - rewrite (export_import_same_core g Hs). exact He.
  - split; [exact Hf|]. split.
    + rewrite (get_num_y_same_core Hs). exact Hn.
    + intros y.
      assert (Hy : _absStocProc._calc_z e' y
                   = _absStocProc._calc_z (fst (run (e0, g0) h)) y).
      { rewrite (calc_z_same_core Hs). apply Hz. }
      split; [exact Hy|].
      intros seed ga gb a ga' ra b gb' rb Ha Hb.
      eapply same_calc_z_same_realization; eauto.
Qed.

End Snapshots.

Section SnapshotRuns.
Import Toy.

Lemma toy_fft_constructed : constructed (FFT_tol ToyRun.fft).
Proof.
  apply (constructed_FFT_tol (NP := numerics) (EX := external)
           (KN := kernels) (SV := solvers) ToyRun.spectral_density 3
           ToyRun.bcf_ref 1 1 None 1 false ToyRun.g0
           (o := ToyRun.fft) (g' := 0)).
  reflexivity.
Defined.

Lemma snapshot_round_trip_witness :
  constructed (FFT_tol ToyRun.fft) /\
  exists e' g',
    export_import
      (fst (run (FFT_tol ToyRun.fft, ToyRun.g0)
              ToyRun.short_history)) 3 = Ok (e', g') /\
    _absStocProc._calc_z e' ToyRun.y2
    = _absStocProc._calc_z
        (fst (run (FFT_tol ToyRun.fft, ToyRun.g0)
                ToyRun.short_history)) ToyRun.y2.
Proof.
  split; [exact toy_fft_constructed|].
  destruct (snapshot_round_trip (NP := numerics) (EX := external)
              (KN := kernels) (SV := solvers) ToyRun.g0
              ToyRun.short_history 3 toy_fft_constructed)
    as [e' [g' [He [_ [_ Hz]]]]].
  exists e', g'. split; [exact He|]. apply Hz.
Defined.

End SnapshotRuns.

(** ** Input vectors of the wrong length *)

Section InputLength.
Context {NP : Numerics} {EX : External} {KN : Kernels} {SV : Solvers}.

Lemma constructed_restorable (e : engine) : constructed e -> restorable e.
Proof.
  intros H. destruct H; simpl.
  - eapply KLE_init_restorable; eauto.
  - eapply KLE_setstate_restorable; eauto.
  - eapply KLE_tol_init_restorable; eauto.
  - eapply FFT_init_restorable; eauto.
  - eapply FFT_setstate_restorable; eauto.
Qed.

Lemma np_binop_mismatch {A B D : Type} (f : A -> B -> D) l r :
  length l <> length r -> length l <> 1%nat -> length r <> 1%nat ->
  np_binop f l r = Raise ValueError.
Proof.
  intros Hne Hl Hr. unfold np_binop.
  destruct (Nat.eqb_spec (length l) (length r)) as [E|_]; [contradiction|].
  destruct l as [|a [|a' l]]; destruct r as [|b [|b' r]]; simpl in *;
    try reflexivity; congruence.
Qed.

Lemma np_tensordot_0_1_mismatch (v : list C) (m : ndarray2 C) :
  length v <> shape1 m -> np_tensordot_0_1 v m = Raise ValueError.
Proof.
  intros H. unfold np_tensordot_0_1.
  destruct (Nat.eqb_spec (length v) (shape1 m)); [contradiction|reflexivity].
Qed.

Lemma KLE_calc_z_mismatch (o : StocProc_KLE.obj) y :
  KLE_restorable o ->
  StocProc_KLE.ng_fac o <> 1 ->
  length y <> StocProc_KLE.get_num_y o ->
  StocProc_KLE._calc_z o y = Raise ValueError.
Proof.
  intros [_ [Hny [Hki _]]] Hfac Hlen.
  unfold StocProc_KLE._calc_z. rewrite Hki.
  destruct (Z.eqb_spec (StocProc_KLE.ng_fac o) 1); [contradiction|].
  rewrite np_tensordot_0_1_mismatch; [reflexivity|].
  unfold StocProc_KLE.get_num_y in Hlen. congruence.
Qed.

Lemma calc_z_mismatch (e : engine) y :
  restorable e ->
  length_is_checked e y ->
  length y <> _absStocProc.get_num_y e ->
  _absStocProc._calc_z e y = Raise ValueError.
Proof.
  intros Hr Hc Hlen. destruct e as [o|o|o]; simpl in *.
  - apply KLE_calc_z_mismatch; auto.
  - apply KLE_calc_z_mismatch; auto.
  - destruct Hc as [Hy Hyl]. unfold StocProc_FFT_tol._calc_z.
    rewrite np_binop_mismatch; auto.
Qed.

(** *** The number of input variables of a KLE engine *)

Lemma broadcast_dim_1_l m : broadcast_dim 1 m = Ok m.
Proof.
  unfold broadcast_dim. destruct (Nat.eqb_spec 1 m); [subst|]; reflexivity.
Qed.

Lemma broadcast_dim_same n : broadcast_dim n n = Ok n.
Proof. unfold broadcast_dim. rewrite Nat.eqb_refl. reflexivity. Qed.

Lemma np_binop2_shape {A B D : Type} (f : A -> B -> D) dx dy x y z :
  np_binop2 f dx dy x y = Ok z ->
  broadcast_dim (shape0 x) (shape0 y) = Ok (shape0 z) /\
  broadcast_dim (shape1 x) (shape1 y) = Ok (shape1 z).
Proof.
  unfold np_binop2. intros H. inv_bind H as n. inv_bind H as m.
  inversion H; subst. simpl. auto.
Qed.

Lemma set_column_shape {A : Type} (d : A) x j v x' :
  set_column d x j v = Ok x' ->
  shape0 x' = shape0 x /\ shape1 x' = shape1 x.
Proof.
  unfold set_column. destruct (_ || _); [|discriminate].
  intros H; inversion H; subst. simpl. auto.
Qed.

Lemma for_in_invariant {I S : Type} (P : S -> Prop)
      (body : I -> S -> result S) :
  (forall i s s', body i s = Ok s' -> P s -> P s') ->
  forall l s s', for_in l body s = Ok s' -> P s -> P s'.
Proof.
  intros Hbody. induction l as [|i l IH]; intros s s' H Hs; simpl in H.
  - inversion H; subst; assumption.
  - inv_bind H as s1. eapply IH; eauto.
Qed.

Lemma align_shape (ev ev' : ndarray2 C) :
  StocProc_KLE.align ev = Ok ev' -> shape1 ev' = shape1 ev.
Proof.
  unfold StocProc_KLE.align. intros H.
  apply (for_in_invariant (fun x => shape1 x = shape1 ev)) in H; auto.
  intros i s s' Hs Hp. apply set_column_shape in Hs.
  destruct Hs as [_ Hs]. congruence.
Qed.

Lemma KLE_init_num_y r_tau t_max ng fac seed sig_min k al g o g'
      times w r eig_val eig_vec :
  get_mid_point_weights_times t_max ng = Ok (times, w) ->
  StocProc_KLE._calc_corr_matrix times r_tau = Ok r ->
  solve_hom_fredholm r w (Fpow sig_min 2) = Ok (eig_val, eig_vec) ->
  shape1 eig_vec = length eig_val ->
  StocProc_KLE.__init__ r_tau t_max ng fac seed sig_min k al g = Ok (o, g') ->
  StocProc_KLE.get_num_y o = length eig_val /\
  shape1 (StocProc_KLE._A o) = length eig_val.
Proof.
  intros Hq Hr Hsolve Hshape H. unfold StocProc_KLE.__init__ in H.
  change (String.eqb StocProc_KLE.METHOD "midp") with true in H.
  cbv iota in H. rewrite Hq in H. cbn [bind] in H. cbv beta iota in H.
  rewrite Hr in H. cbn [bind] in H. rewrite Hsolve in H.
  cbn [bind] in H. cbv beta iota in H.
  inv_bind H as ev. inv_bind H as wu. inv_bind H as A. inv_bind H as fine.
  inv_bind H as alpha. inv_bind H as [self g1].
  inversion H; subst. clear H.
  assert (Hev : shape1 ev = length eig_val).
  { destruct al; [apply align_shape in Hb|inversion Hb; subst]; congruence. }
  apply np_binop2_shape in Hb0. destruct Hb0 as [_ Hwu].
  apply np_binop2_shape in Hb1. destruct Hb1 as [_ HA].
  simpl in Hwu, HA. rewrite broadcast_dim_1_l in Hwu.
  inversion Hwu as [Hwu']. rewrite <- Hwu', Hev in HA.
  rewrite length_map, broadcast_dim_same in HA. inversion HA as [HA'].
  unfold StocProc_KLE.__setstate__ in Hb4. inv_bind Hb4 as [b gg].
  inversion Hb4; subst. simpl. unfold StocProc_KLE.get_num_y. simpl.
  auto.
Qed.

Lemma length_is_checked_same_core (e e' : engine) y :
  same_core e e' -> length_is_checked e y -> length_is_checked e' y.
Proof.
  intros [b [-> _]] H. destruct e as [o|o|o]; exact H.
Qed.

Lemma restorable_calc_z_mismatch (e0 e : engine) y :
  constructed e0 -> same_core e0 e ->
  length_is_checked e0 y ->
  length y <> _absStocProc.get_num_y e0 ->
  _absStocProc._calc_z e y = Raise ValueError.
Proof.
  intros Hc Hs Hl Hn. rewrite (calc_z_same_core Hs).
  apply calc_z_mismatch; auto. apply constructed_restorable; auto.
Qed.

(** C1 (amended).  [new_process] itself does not compare the length of [y]
    with [get_num_y()]; the operations of [_calc_z] do.  On a KLE engine
    with oversampling ([ng_fac] other than 1), and on an FFT engine when
    neither [y] nor the sampled density has length one, an explicit [y]
    whose length differs from [get_num_y()] makes [new_process] raise
    numpy's [ValueError] (provided the seeding, when a seed is given, does
    not raise first), and the realization stays as it was.  The number
    [get_num_y()] of a KLE engine is the number of eigenvalues the solver
    returned, when the eigenvector array has one column for each of
    them. *)
Theorem wrong_length_input_is_rejected :
  (forall (e0 : engine) (g0 : RNG) (h : list call) (y : list C)
          (seed : option Z) (g : RNG) (e1 : engine) (g1 : RNG)
          (r : result unit),
      constructed e0 ->
      length_is_checked e0 y ->
      length y <> _absStocProc.get_num_y (fst (run (e0, g0) h)) ->
      match seed with
      | Some s => is_ok (np_random_seed s) = true
      | None => True
      end ->
      _absStocProc.new_process (fst (run (e0, g0) h)) (Some y) seed g
      = (e1, g1, r) ->
      r = Raise ValueError /\
      _absStocProc.get_z e1 = _absStocProc.get_z (fst (run (e0, g0) h))) /\
  (forall r_tau t_max ng fac seed sig_min k al g o g' times w r eig_val eig_vec,
      get_mid_point_weights_times t_max ng = Ok (times, w) ->
      StocProc_KLE._calc_corr_matrix times r_tau = Ok r ->
      solve_hom_fredholm r w (Fpow sig_min 2) = Ok (eig_val, eig_vec) ->
      shape1 eig_vec = length eig_val ->
      StocProc_KLE.__init__ r_tau t_max ng fac seed sig_min k al g
      = Ok (o, g') ->
      _absStocProc.get_num_y (KLE o) = length eig_val).
Proof.
  split.
  - intros e0 g0 h y seed g e1 g1 r Hc Hl Hn Hseed Hnp.
    pose proof (run_same_core h e0 g0) as Hs.
    assert (Hz : _absStocProc._calc_z (fst (run (e0, g0) h)) y
                 = Raise ValueError).
    { eapply restorable_calc_z_mismatch; eauto.
      rewrite <- (get_num_y_same_core Hs). exact Hn. }
    pose proof (new_process_effect _ _ _ _ Hnp) as [_ [_ [_ [Hkeep _]]]].
    apply new_process_explicit in Hnp. destruct Hnp as [Hr _].
    rewrite Hz in Hr.
    assert (Hr' : r = Raise ValueError).
    { rewrite Hr. destruct seed as [s|]; [|reflexivity].
      destruct (np_random_seed s); [reflexivity|discriminate]. }
    split; [exact Hr'|]. unfold _absStocProc.get_z. apply Hkeep.
    rewrite Hr'. reflexivity.
  - intros r_tau t_max ng fac seed sig_min k al g o g' times w r eig_val
           eig_vec Hq Hr Hsolve Hshape H.
    apply (KLE_init_num_y _ _ _ _ _ _ _ _ _ Hq Hr Hsolve Hshape H).
Qed.

End InputLength.

Section InputLengthRuns.
Import Toy.

(** C1, as stated, fails: the FFT engine for two frequencies takes an
    input vector of length one, which numpy broadcasts against the sampled
    density, and stores a realization. *)
Lemma length_one_input_is_broadcast :
  length ToyRun.y1 <> _absStocProc.get_num_y (FFT_tol ToyRun.fft) /\
  snd (_absStocProc.new_process (FFT_tol ToyRun.fft) (Some ToyRun.y1) None
         ToyRun.g0) = Ok tt /\
  _absStocProc.get_z
    (fst (fst (_absStocProc.new_process (FFT_tol ToyRun.fft)
                 (Some ToyRun.y1) None ToyRun.g0)))
  = Some [(18, 6); (-6, -2)].
Proof.
  split; [|split].
  - vm_compute. discriminate.
  - reflexivity.
  - reflexivity.
Qed.

Lemma wrong_length_input_is_rejected_witness :
  constructed (KLE ToyRun.kle) /\
  length_is_checked (KLE ToyRun.kle) ToyRun.y1 /\
  length ToyRun.y1
  <> _absStocProc.get_num_y
       (fst (run (KLE ToyRun.kle, ToyRun.g0) ToyRun.short_history)) /\
  snd (_absStocProc.new_process
         (fst (run (KLE ToyRun.kle, ToyRun.g0) ToyRun.short_history))
         (Some ToyRun.y1) (Some 3) ToyRun.g0)
  = Raise ValueError /\
  _absStocProc.get_num_y (KLE ToyRun.kle) = 2%nat.
Proof.
  assert (Hl : length_is_checked (KLE ToyRun.kle) ToyRun.y1)
    by (vm_compute; discriminate).
  assert (Hn : length ToyRun.y1
               <> _absStocProc.get_num_y
                    (fst (run (KLE ToyRun.kle, ToyRun.g0)
                            ToyRun.short_history)))
    by (vm_compute; discriminate).
  destruct (wrong_length_input_is_rejected (NP := numerics) (EX := external)
              (KN := kernels) (SV := solvers)) as [T1 T2].
  split; [exact toy_kle_constructed|]. split; [exact Hl|].
  split; [exact Hn|]. split.
  - destruct (T1 (KLE ToyRun.kle) ToyRun.g0 ToyRun.short_history ToyRun.y1
                (Some 3) ToyRun.g0 _ _ _ toy_kle_constructed Hl Hn eq_refl
                (triple_eta _ eq_refl eq_refl)) as [Hr _].
    exact Hr.
  - apply (T2 ToyRun.r_tau 4 3 2 None 1 3 false ToyRun.g0 ToyRun.kle
              ToyRun.g0 ToyRun.times ToyRun.weights
              (returned (StocProc_KLE._calc_corr_matrix ToyRun.times
                           ToyRun.r_tau) eq_refl)
              ToyRun.eig_val ToyRun.eig_vec);
      reflexivity.
Defined.

End InputLengthRuns.

(** ** The KLE engine without oversampling *)

Section PlainKLE.
Context {NP : Numerics} {EX : External} {KN : Kernels} {SV : Solvers}.

Lemma plain_KLE_calc_z (e0 e : engine) y :
  constructed e0 -> plain_KLE e0 -> same_core e0 e ->
  _absStocProc._calc_z e y = Raise AttributeError.
Proof.
  intros Hc Hp Hs. rewrite (calc_z_same_core Hs).
  apply constructed_restorable in Hc.
  destruct e0 as [o|o|o]; simpl in *; try contradiction;
    destruct Hc as [Hsq [_ [Hki _]]];
    unfold StocProc_KLE._calc_z; rewrite Hki, Hp, Hsq; reflexivity.
Qed.

Lemma plain_KLE_new_process (e0 e : engine) y seed g e1 g1 r :
  constructed e0 -> plain_KLE e0 -> same_core e0 e ->
  match seed with
  | Some s => is_ok (np_random_seed s) = true
  | None => True
  end ->
  _absStocProc.new_process e y seed g = (e1, g1, r) ->
  r = Raise AttributeError.
Proof.
  intros Hc Hp Hs Hseed. rewrite new_process_unfold.
  assert (Hs2 : same_core e0
                  (_absStocProc.with_super e (entered (_absStocProc.super e)))).
  { eapply same_core_trans; [exact Hs|].
    apply same_core_with_super, entered_same_settings. }
  destruct (match seed with Some s => np_random_seed s | None => Ok g end)
    as [ga|ex] eqn:Hsd.
  - destruct (match y with
              | Some v => (v, ga)
              | None => _absStocProc.draw_y _ ga
              end) as [y' g2].
    rewrite (@plain_KLE_calc_z e0 _ y' Hc Hp Hs2).
    intros H. split_pair H. congruence.
  - destruct seed as [s|]; [|discriminate].
    rewrite Hsd in Hseed. discriminate.
Qed.

Lemma plain_KLE_never_ready (e0 : engine) :
  constructed e0 -> plain_KLE e0 ->
  forall h e g,
    same_core e0 e ->
    _absStocProc._z (_absStocProc.super e) = None ->
    (forall y seed, In (Call_new_process y seed) h ->
                    match seed with
                    | Some s => is_ok (np_random_seed s) = true
                    | None => True
                    end) ->
    _absStocProc._z (_absStocProc.super (fst (run (e, g) h))) = None.
Proof.
  intros Hc Hp. induction h as [|c h IH]; intros e g Hs Hz Hseeds; auto.
  rewrite run_cons.
  pose proof (step_same_core e g c) as Hstep.
  pose proof (step_keeps_not_ready e g c Hz) as Hk.
  assert (Hfail : match c with
                  | Call_new_process _ _ => snd (step (e, g) c) = false
                  | _ => True
                  end).
  { destruct c as [y seed|time| |]; auto.
    destruct (_absStocProc.new_process e y seed g) as [[e1 g1] r] eqn:Hn.
    rewrite (step_new_process _ _ _ _ Hn). cbn [snd].
    assert (Hr : r = Raise AttributeError).
    { eapply plain_KLE_new_process; eauto.
      apply (Hseeds y seed). left. reflexivity. }
    rewrite Hr. reflexivity. }
  specialize (Hk Hfail).
  destruct (step (e, g) c) as [[e1 g1] ok]. cbn [fst snd] in *.
  apply IH; auto.
  - eapply same_core_trans; eauto.
  - intros y seed Hin. apply (Hseeds y seed). right. exact Hin.
Qed.

(** C4 (the code departs from the claim).  [_calc_z] of a KLE engine with
    [ng_fac = 1] reads the attribute [_sqrt_eig_val], which no statement
    assigns: on such an engine, in whatever state it has reached, every
    [new_process] raises [AttributeError] and no realization is ever
    stored; the weighted eigenfunction sum is not computed. *)
Theorem plain_KLE_new_process_raises :
  forall (e0 : engine) (g0 : RNG) (h : list call) (y : option (list C))
         (g : RNG) (e1 : engine) (g1 : RNG) (r : result unit),
    constructed e0 ->
    plain_KLE e0 ->
    (forall y' seed, In (Call_new_process y' seed) h -> seed = None) ->
    _absStocProc.new_process (fst (run (e0, g0) h)) y None g = (e1, g1, r) ->
    r = Raise AttributeError /\ _absStocProc.get_z e1 = None.
Proof.
  intros e0 g0 h y g e1 g1 r Hc Hp Hseeds Hn.
  pose proof (run_same_core h e0 g0) as Hs.
  assert (Hr : r = Raise AttributeError).
  { eapply plain_KLE_new_process with (seed := None); eauto. }
  split; [exact Hr|].
  pose proof (new_process_effect _ _ _ _ Hn) as [_ [_ [_ [Hkeep _]]]].
  unfold _absStocProc.get_z. rewrite Hkeep; [|rewrite Hr; reflexivity].
  apply (@plain_KLE_never_ready e0); auto.
  - apply same_core_refl.
  - apply constructed_fresh in Hc. apply Hc.
  - intros y' seed Hin. rewrite (Hseeds y' seed Hin). exact I.
Qed.

End PlainKLE.

Section PlainKLERuns.
Import Toy.

Lemma toy_kle_plain_constructed : constructed (KLE ToyRun.kle_plain).
Proof.
  eapply (constructed_KLE (NP := numerics) (EX := external) (KN := kernels)
            (SV := solvers) ToyRun.r_tau 4 3 1 None 1 3 false ToyRun.g0
            (o := ToyRun.kle_plain) (g' := 0)).
  reflexivity.
Defined.

Lemma plain_KLE_new_process_raises_witness :
  constructed (KLE ToyRun.kle_plain) /\
  plain_KLE (KLE ToyRun.kle_plain) /\
  length ToyRun.y2 = _absStocProc.get_num_y (KLE ToyRun.kle_plain) /\
  snd (_absStocProc.new_process (KLE ToyRun.kle_plain) (Some ToyRun.y2) None
         ToyRun.g0) = Raise AttributeError /\
  _absStocProc.get_z
    (fst (fst (_absStocProc.new_process (KLE ToyRun.kle_plain)
                 (Some ToyRun.y2) None ToyRun.g0))) = None.
Proof.
  split; [exact toy_kle_plain_constructed|].
  split; [reflexivity|]. split; [reflexivity|].
  apply (plain_KLE_new_process_raises (NP := numerics) (EX := external)
           (KN := kernels) (SV := solvers) ToyRun.g0 [] (Some ToyRun.y2)
           ToyRun.g0 toy_kle_plain_constructed eq_refl
           (fun y' seed (H : In (Call_new_process y' seed) []) =>
              match H with end)
           (triple_eta
              (_absStocProc.new_process (KLE ToyRun.kle_plain)
                 (Some ToyRun.y2) None ToyRun.g0) eq_refl eq_refl)).
Defined.

End PlainKLERuns.

(** ** The search for the number of nodes *)

Section Search.
Context {NP : Numerics} {EX : External} {KN : Kernels} {SV : Solvers}.

(** C2 (the code departs from the claim).  The object is initialised anew
    by every probe of the search and the search ends without initialising
    it once more, so it ends in the state of its last probe.  When the
    first probe ([c = 4], nine nodes) meets the tolerance and the probe of
    the bisection ([c = 3], seven nodes) does not, the bracket is
    [(3, 4)], the smallest validated [c] is 4, and the object is left
    initialised for seven nodes, whose measured error exceeds the
    tolerance. *)
Theorem auto_grid_points_ends_on_last_probe :
  forall (fuel : nat) (tolerance : F) (kw : StocProc_KLE_tol.kwargs)
         (g g9 g7 : RNG) (o9 o7 : StocProc_KLE.obj) (err9 err7 : F),
    Fgtb Finf tolerance = true ->
    StocProc_KLE_tol._init_StocProc_KLE_and_get_error 9 kw g
    = Ok (o9, err9, g9) ->
    Fgtb err9 tolerance = false ->
    StocProc_KLE_tol._init_StocProc_KLE_and_get_error 7 kw g9
    = Ok (o7, err7, g7) ->
    Fgtb err7 tolerance = true ->
    StocProc_KLE_tol._auto_grid_points (S fuel) tolerance kw g
    = Some (Ok (Some o7, g7)).
Proof.
  intros fuel tolerance kw g g9 g7 o9 o7 err9 err7 Hinf H9 He9 H7 He7.
  unfold StocProc_KLE_tol._auto_grid_points.
  rewrite doubling_S, Hinf.
  change (2 * (2 * 2) + 1) with 9. rewrite H9.
  assert (Hd : StocProc_KLE_tol.doubling fuel tolerance kw err9 (2 * 2)
                 (Some o9) g9 = Some (Ok (4, Some o9, g9))).
  { destruct fuel; [rewrite doubling_O|rewrite doubling_S];
      rewrite He9; reflexivity. }
  rewrite Hd. rewrite bisection_S.
  change (4 - 4 / 2 >? 1) with true. cbv iota.
  change (2 * ((4 / 2 + 4) / 2) + 1) with 7. rewrite H7, He7.
  change ((4 / 2 + 4) / 2) with 3.
  destruct fuel; [rewrite bisection_O|rewrite bisection_S]; reflexivity.
Qed.

End Search.

Lemma returned_triple {A B D : Type} (r : result (A * B * D))
      (H : is_ok r = true) :
  r = Ok (fst (fst (returned r H)), snd (fst (returned r H)),
          snd (returned r H)).
Proof.
  destruct r as [[[a b] d]|e]; [reflexivity|discriminate].
Defined.

Section SearchRuns.
Import Toy.

Lemma auto_grid_points_ends_on_last_probe_witness :
  Fgtb Finf 1 = true /\
  Fgtb (snd (fst (returned (ToyRun.probe 9) eq_refl))) 1 = false /\
  Fgtb (snd (fst (returned (ToyRun.probe 7) eq_refl))) 1 = true /\
  StocProc_KLE_tol._auto_grid_points 5 1 ToyRun.kw ToyRun.g0
  = Some (Ok (Some (fst (fst (returned (ToyRun.probe 7) eq_refl))),
              ToyRun.g0)) /\
  shape0 (StocProc_KLE._A (fst (fst (returned (ToyRun.probe 7) eq_refl))))
  = 7%nat.
Proof.
  split; [reflexivity|]. split; [reflexivity|]. split; [reflexivity|].
  split; [|reflexivity].
  apply (auto_grid_points_ends_on_last_probe (NP := numerics)
           (EX := external) (KN := kernels) (SV := solvers) 4 1 ToyRun.kw
           ToyRun.g0 (g9 := ToyRun.g0) (g7 := ToyRun.g0)
           (o9 := fst (fst (returned (ToyRun.probe 9) eq_refl)))
           (err9 := snd (fst (returned (ToyRun.probe 9) eq_refl)))
           (err7 := snd (fst (returned (ToyRun.probe 7) eq_refl)))
           eq_refl
           (returned_triple (ToyRun.probe 9) eq_refl) eq_refl
           (returned_triple (ToyRun.probe 7) eq_refl) eq_refl).
Defined.

End SearchRuns.

(** ** The FFT engine *)

Section FFT.
Context {NP : Numerics} {EX : External} {KN : Kernels} {SV : Solvers}.

Lemma np_linspace_length start stop num l :
  np_linspace start stop num = Ok l -> length l = Z.to_nat num /\ 0 <= num.
Proof.
  unfold np_linspace. destruct (Z.ltb_spec num 0) as [Hlt|Hge];
    [discriminate|].
  destruct (Z.to_nat num) as [|[|n]] eqn:Hn; intros H; inversion H; subst;
    (split; [|exact Hge]); try reflexivity.
  cbn [length]. rewrite length_app, length_map, length_seq.
  cbn [length]. lia.
Qed.

Lemma base_init_grid t_max n seed k g b g' :
  _absStocProc.__init__ t_max n seed k g = Ok (b, g') ->
  np_linspace (F_of_Z 0) t_max n = Ok (_absStocProc.t b).
Proof.
  unfold _absStocProc.__init__. intros H.
  inv_bind H as grid. inv_bind H as gg. inversion H; subst. exact Hb.
Qed.

Lemma py_slice_prefix {A : Type} (l : list A) (n : Z) :
  0 <= n -> py_slice l 0 n = firstn (Z.to_nat n) l.
Proof.
  intros Hn. unfold py_slice, clip_index.
  destruct (Z.ltb_spec n 0); [lia|]. simpl.
  rewrite Nat.sub_0_r.
  destruct (Nat.le_ge_cases (Z.to_nat n) (length l)) as [Hle|Hge].
  - rewrite Nat.min_l; auto.
  - rewrite Nat.min_r; auto. rewrite !firstn_all2; auto.
Qed.

Lemma np_binop_same_length {A B D : Type} (f : A -> B -> D) l r :
  length l = length r -> np_binop f l r = Ok (map2 f l r).
Proof.
  intros H. unfold np_binop. rewrite H, Nat.eqb_refl. reflexivity.
Qed.

Lemma map2_length {A B D : Type} (f : A -> B -> D) l r :
  length l = length r -> length (map2 f l r) = length l.
Proof.
  revert r. induction l as [|a l IH]; intros [|b r] H; simpl in *;
    try discriminate; auto.
Qed.

Lemma FFT_init_inv sd t_max bcf_ref intgr_tol intpl_tol seed k neg g o g'
      a b N dx dt :
  StocProc_FFT_tol.resolve sd t_max bcf_ref intgr_tol intpl_tol neg
  = Ok (a, b, N, dx, dt) ->
  StocProc_FFT_tol.__init__ sd t_max bcf_ref intgr_tol intpl_tol seed k neg g
  = Ok (o, g') ->
  StocProc_FFT_tol.yl o = StocProc_FFT_tol.sample_density sd a N dx /\
  StocProc_FFT_tol.omega_min_correction o
  = StocProc_FFT_tol.phase_correction a dx
      (_absStocProc.t (StocProc_FFT_tol.base o)) /\
  _absStocProc.num_grid_points (StocProc_FFT_tol.base o)
  = Fceil (Fdiv t_max dt) + 1 /\
  np_linspace (F_of_Z 0)
    (Fmul (F_of_Z (Fceil (Fdiv t_max dt) + 1 - 1)) dt)
    (Fceil (Fdiv t_max dt) + 1)
  = Ok (_absStocProc.t (StocProc_FFT_tol.base o)).
Proof.
  intros Hres H. unfold StocProc_FFT_tol.__init__ in H.
  rewrite Hres in H. cbn [bind] in H. cbv beta iota in H.
  destruct (Fltb _ _); try discriminate.
  inv_bind H as [b0 gg]. inversion H; subst. simpl.
  destruct (base_init_fields _ _ _ _ _ Hb) as [_ [Hn _]].
  repeat split; auto. eapply base_init_grid; eauto.
Qed.

(** C7.  Let [(a, b, N, dx, dt)] be what the search of [__init__] returned
    and let [__init__] return.  The sampled density is
    [yl_k = sqrt(spectral_density(dx*k + a + dx/2) * dx / pi)] for
    [k = 0 .. N-1] (which is the argument [a + dx/2 + k*dx] of the claim
    when the sum and the product commute and the sum is associative); the
    phase correction is [exp(-1j*(a + dx/2)*t_j)] for the times [t_j] of the
    grid, which has [ceil(t_max/dt) + 1] points.  When the transform keeps
    the length of its argument and the grid has at most [N] points,
    [new_process] with an input vector [y] of length [N] returns and the
    realization it stores is the first [num_grid_points] values of the
    transform of [yl * y], each times the phase correction of its grid
    point, in whatever state the engine has reached. *)
Theorem FFT_samples_phase_and_realization :
  forall sd t_max bcf_ref intgr_tol intpl_tol seed k neg g o g' a b N dx dt,
    StocProc_FFT_tol.resolve sd t_max bcf_ref intgr_tol intpl_tol neg
    = Ok (a, b, N, dx, dt) ->
    StocProc_FFT_tol.__init__ sd t_max bcf_ref intgr_tol intpl_tol seed k neg g
    = Ok (o, g') ->
    StocProc_FFT_tol.yl o
    = map (fun i : nat =>
             Fsqrt (Fdiv (Fmul (sd (Fadd (Fadd (Fmul dx (F_of_Z (Z.of_nat i)))
                                               a)
                                         (Fdiv dx (F_of_Z 2))))
                               dx)
                         Fpi))
          (seq 0 (Z.to_nat N)) /\
    ((forall x y, Fadd x y = Fadd y x) ->
     (forall x y z, Fadd (Fadd x y) z = Fadd x (Fadd y z)) ->
     (forall x y, Fmul x y = Fmul y x) ->
     StocProc_FFT_tol.yl o
     = map (fun i : nat =>
              Fsqrt (Fdiv (Fmul (sd (Fadd (Fadd a (Fdiv dx (F_of_Z 2)))
                                          (Fmul (F_of_Z (Z.of_nat i)) dx)))
                                dx)
                          Fpi))
           (seq 0 (Z.to_nat N))) /\
    _absStocProc.get_num_y (FFT_tol o) = Z.to_nat N /\
    StocProc_FFT_tol.omega_min_correction o
    = map (fun x =>
             Cexp (Cmul (Cmul (Cneg Cj)
                              (C_of_F (Fadd a (Fdiv dx (F_of_Z 2)))))
                        (C_of_F x)))
          (_absStocProc.get_time (FFT_tol o)) /\
    length (_absStocProc.get_time (FFT_tol o))
    = Z.to_nat (Fceil (Fdiv t_max dt) + 1) /\
    (forall (g0 : RNG) (h : list call) (y : list C) (ga : RNG)
            (e1 : engine) (g1 : RNG) (r : result unit),
        (forall x, length (np_fft_fft x) = length x) ->
        Fceil (Fdiv t_max dt) + 1 <= N ->
        length y = Z.to_nat N ->
        _absStocProc.new_process (fst (run (FFT_tol o, g0) h)) (Some y) None ga
        = (e1, g1, r) ->
        r = Ok tt /\
        _absStocProc.get_z e1
        = Some (map2 Cmul
                  (firstn (Z.to_nat (Fceil (Fdiv t_max dt) + 1))
                     (np_fft_fft
                        (map2 (fun u v => Cmul (C_of_F u) v)
                              (StocProc_FFT_tol.yl o) y)))
                  (StocProc_FFT_tol.omega_min_correction o))).
Proof.
  intros sd t_max bcf_ref intgr_tol intpl_tol seed k neg g o g' a b N dx dt
         Hres Hinit.
  destruct (FFT_init_inv _ _ _ _ _ _ _ _ _ Hres Hinit)
    as [Hyl [Homc [Hngp Hgrid]]].
  assert (Hyl' : StocProc_FFT_tol.yl o
                 = map (fun i : nat =>
                          Fsqrt (Fdiv (Fmul (sd (Fadd (Fadd (Fmul dx
                                                   (F_of_Z (Z.of_nat i))) a)
                                               (Fdiv dx (F_of_Z 2)))) dx) Fpi))
                       (seq 0 (Z.to_nat N))).
  { rewrite Hyl. unfold StocProc_FFT_tol.sample_density, np_arange.
    rewrite !map_map. reflexivity. }
  assert (Hlen : length (StocProc_FFT_tol.yl o) = Z.to_nat N)
    by (rewrite Hyl', length_map, length_seq; reflexivity).
  destruct (np_linspace_length _ _ _ Hgrid) as [Hglen Hpos].
  split; [exact Hyl'|]. split.
  { intros Hc Ha Hm. rewrite Hyl'. apply map_ext. intros i.
    rewrite (Hm dx), (Hc _ a), Ha, (Hc _ (Fdiv dx (F_of_Z 2))), <- Ha.
    reflexivity. }
  split; [exact Hlen|]. split; [exact Homc|]. split; [exact Hglen|].
  intros g0 h y ga e1 g1 r Hfft Hle Hy Hnp.
  pose proof (run_same_core h (FFT_tol o) g0) as Hs.
  apply new_process_explicit in Hnp. destruct Hnp as [Hr Hz].
  rewrite (calc_z_same_core Hs) in Hr, Hz.
  assert (Hcz : _absStocProc._calc_z (FFT_tol o) y
                = Ok (map2 Cmul
                        (firstn (Z.to_nat (Fceil (Fdiv t_max dt) + 1))
                           (np_fft_fft
                              (map2 (fun u v => Cmul (C_of_F u) v)
                                    (StocProc_FFT_tol.yl o) y)))
                        (StocProc_FFT_tol.omega_min_correction o))).
  { simpl. unfold StocProc_FFT_tol._calc_z.
    rewrite np_binop_same_length by congruence. cbn [bind].
    rewrite Hngp, py_slice_prefix by exact Hpos.
    apply np_binop_same_length.
    rewrite Homc. unfold StocProc_FFT_tol.phase_correction.
    rewrite length_map, Hglen, length_firstn, Hfft, map2_length by congruence.
    rewrite Hlen. lia. }
  rewrite Hcz in Hr, Hz. cbn [bind] in Hr. split; [exact Hr|].
  destruct (Hz Hr) as [z [Hz1 Hz2]]. congruence.
Qed.

End FFT.

Section FFTRuns.
Import Toy.

Lemma toy_dft_length (x : list C) : length (np_fft_fft x) = length x.
Proof.
  simpl. unfold dft. rewrite length_map, length_seq. reflexivity.
Defined.

Lemma FFT_samples_phase_and_realization_witness :
  StocProc_FFT_tol.resolve ToyRun.spectral_density 3 ToyRun.bcf_ref 1 1 false
  = Ok (0, 2, 2, 1, 3) /\
  ToyRun.fft_init = Ok (ToyRun.fft, ToyRun.g0) /\
  Fceil (Fdiv 3 3) + 1 <= 2 /\
  length ToyRun.y2 = Z.to_nat 2 /\
  StocProc_FFT_tol.yl ToyRun.fft = [2; 4] /\
  snd (_absStocProc.new_process
         (fst (run (FFT_tol ToyRun.fft, ToyRun.g0) ToyRun.short_history))
         (Some ToyRun.y2) None ToyRun.g0) = Ok tt /\
  _absStocProc.get_z
    (fst (fst (_absStocProc.new_process
                 (fst (run (FFT_tol ToyRun.fft, ToyRun.g0)
                         ToyRun.short_history))
                 (Some ToyRun.y2) None ToyRun.g0)))
  = Some [(2, 4); (2, -4)].
Proof.
  assert (Hres : StocProc_FFT_tol.resolve ToyRun.spectral_density 3
                   ToyRun.bcf_ref 1 1 false = Ok (0, 2, 2, 1, 3))
    by reflexivity.
  assert (Hinit : ToyRun.fft_init = Ok (ToyRun.fft, ToyRun.g0))
    by reflexivity.
  assert (Hle : Fceil (Fdiv 3 3) + 1 <= 2) by (vm_compute; discriminate).
  assert (Hy : length ToyRun.y2 = Z.to_nat 2) by reflexivity.
  destruct (FFT_samples_phase_and_realization (NP := numerics)
              (EX := external) (KN := kernels) (SV := solvers)
              ToyRun.spectral_density 3 ToyRun.bcf_ref 1 1 None 1 false
              ToyRun.g0 Hres Hinit)
    as [Hyl [_ [_ [_ [_ Hz]]]]].
  destruct (Hz ToyRun.g0 ToyRun.short_history ToyRun.y2 ToyRun.g0 _ _ _
              toy_dft_length Hle Hy (triple_eta _ eq_refl eq_refl))
    as [Hr Hget].
  split; [exact Hres|]. split; [exact Hinit|]. split; [exact Hle|].
  split; [exact Hy|].
  split; [rewrite Hyl; reflexivity|]. split; [exact Hr|].
  rewrite Hget. reflexivity.
Defined.

End FFTRuns.

(** ** The correlation matrix *)

Section CorrelationMatrix.
Context {NP : Numerics}.

Lemma item_tabulate {A : Type} (d : A) n m (f : nat -> nat -> A) i j :
  (i < n)%nat -> (j < m)%nat -> item d (tabulate n m f) i j = f i j.
Proof.
  intros Hi Hj. unfold item, row, tabulate. simpl.
  rewrite (nth_indep _ [] (map (f 0%nat) (seq 0 m)))
    by (rewrite length_map, length_seq; exact Hi).
  rewrite (map_nth (fun i => map (f i) (seq 0 m)) (seq 0 n) 0%nat i).
  rewrite seq_nth by exact Hi. simpl.
  rewrite (nth_indep _ d (f i 0%nat))
    by (rewrite length_map, length_seq; exact Hj).
  rewrite (map_nth (f i) (seq 0 m) 0%nat j).
  rewrite seq_nth by exact Hj. reflexivity.
Qed.

Lemma for_in_seq_invariant {S : Type} (P : nat -> S -> Prop)
      (body : nat -> S -> result S) :
  forall len start s,
    (forall i x, (start <= i < start + len)%nat -> P i x ->
                 exists x', body i x = Ok x' /\ P (Datatypes.S i) x') ->
    P start s ->
    exists s', for_in (seq start len) body s = Ok s' /\ P (start + len)%nat s'.
Proof.
  induction len as [|len IH]; intros start s Hbody Hs; simpl.
  - exists s. rewrite Nat.add_0_r. auto.
  - destruct (Hbody start s ltac:(lia) Hs) as [x' [Hx' HP]].
    rewrite Hx'. cbn [bind].
    destruct (IH (Datatypes.S start) x') as [s' [Hs' HP']]; auto.
    + intros i x Hi. apply Hbody. lia.
    + exists s'. split; auto.
      replace (start + Datatypes.S len)%nat
        with (Datatypes.S start + len)%nat by lia.
      exact HP'.
Qed.

(** The slice [v[idx:idx+n]] with [idx = n-1-i] of a vector of length
    [2n-1]. *)
Lemma py_slice_window {A : Type} (v : list A) (n i : nat) (d : A) :
  length v = (2 * n - 1)%nat -> (i < n)%nat ->
  let w := py_slice v (Z.of_nat n - 1 - Z.of_nat i)
             (Z.of_nat n - 1 - Z.of_nat i + Z.of_nat n) in
  length w = n /\
  forall a, (a < n)%nat -> nth a w d = nth (n - 1 - i + a) v d.
Proof.
  intros Hv Hi w. unfold w, py_slice, clip_index.
  destruct (Z.ltb_spec (Z.of_nat n - 1 - Z.of_nat i) 0); [lia|].
  destruct (Z.ltb_spec (Z.of_nat n - 1 - Z.of_nat i + Z.of_nat n) 0); [lia|].
  replace (Nat.min (Z.to_nat (Z.of_nat n - 1 - Z.of_nat i)) (length v))
    with (n - 1 - i)%nat by lia.
  replace (Nat.min (Z.to_nat (Z.of_nat n - 1 - Z.of_nat i + Z.of_nat n))
             (length v))
    with (n - 1 - i + n)%nat by lia.
  replace (n - 1 - i + n - (n - 1 - i))%nat with n by lia.
  split.
  - rewrite length_firstn, length_skipn. lia.
  - intros a Ha. rewrite nth_firstn.
    destruct (Nat.ltb_spec a n); [|lia]. apply nth_skipn.
Qed.

Lemma fill_columns_spec (n : nat) (v : list C) :
  length v = (2 * n - 1)%nat ->
  exists r,
    StocProc_KLE.fill_columns n v = Ok r /\
    shape0 r = n /\ shape1 r = n /\
    forall i j, (i < n)%nat -> (j < n)%nat ->
                item np_empty r i j = nth (n - 1 - j + i) v np_empty.
Proof.
  intros Hv. unfold StocProc_KLE.fill_columns, range.
  destruct (@for_in_seq_invariant _
              (fun m r =>
                 shape0 r = n /\ shape1 r = n /\
                 forall i j, (i < n)%nat -> (j < m)%nat ->
                             item np_empty r i j
                             = nth (n - 1 - j + i) v np_empty)
              (fun i r =>
                 set_column np_empty r i
                   (py_slice v (Z.of_nat n - 1 - Z.of_nat i)
                      (Z.of_nat n - 1 - Z.of_nat i + Z.of_nat n)))
              n 0%nat (tabulate n n (fun _ _ => np_empty)))
    as [r [Hr [H0 [H1 Hitem]]]].
  - intros m x Hm [Hx0 [Hx1 Hx]].
    destruct (py_slice_window v np_empty Hv (proj2 Hm)) as [Hlen Hnth].
    unfold set_column. rewrite Hlen, Hx0, Nat.eqb_refl. simpl orb. cbv iota.
    eexists. split; [reflexivity|]. simpl. rewrite Hx1.
    split; [reflexivity|]. split; [reflexivity|].
    intros i j Hi Hj. rewrite item_tabulate by lia.
    destruct (Nat.eqb_spec j m) as [->|Hne].
    + unfold bidx. destruct (Nat.eqb_spec n 1) as [E|E].
      * rewrite Hnth by lia. f_equal. lia.
      * apply Hnth. exact Hi.
    + apply Hx; lia.
  - simpl. split; [reflexivity|]. split; [reflexivity|]. intros; lia.
  - exists r. simpl in Hitem. auto.
Qed.

Lemma nth_map_lt {A B : Type} (f : A -> B) (l : list A) (k : nat) d e :
  (k < length l)%nat -> nth k (map f l) e = f (nth k l d).
Proof.
  intros Hk. rewrite (nth_indep _ e (f d)) by (rewrite length_map; exact Hk).
  apply map_nth.
Qed.

Lemma doubled_vector_spec (s : list F) (bcf : F -> C) (d : F) :
  s <> [] ->
  exists v,
    StocProc_KLE._calc_corr_min_t_plus_t s bcf = Ok v /\
    length v = (2 * length s - 1)%nat /\
    (forall k, (k < length s)%nat ->
               nth (length s - 1 + k) v np_empty
               = bcf (Fsub (nth k s d) (nth 0 s d))) /\
    (forall k, (1 <= k < length s)%nat ->
               nth (length s - 1 - k) v np_empty
               = Cconj (bcf (Fsub (nth k s d) (nth 0 s d)))).
Proof.
  intros Hs. destruct s as [|s0 s']; [contradiction|]. clear Hs.
  unfold StocProc_KLE._calc_corr_min_t_plus_t. cbn [py_item0 bind].
  set (s := s0 :: s').
  set (P := map bcf (map (fun x => Fsub x s0) s)).
  assert (HP : length P = length s) by (unfold P; rewrite !length_map; auto).
  assert (HPk : forall k, (k < length s)%nat ->
                          nth k P np_empty = bcf (Fsub (nth k s d) s0)).
  { intros k Hk. unfold P. rewrite map_map.
    apply (nth_map_lt (fun x => bcf (Fsub x s0)) s d np_empty Hk). }
  assert (HL : length (map Cconj (py_slice_rev_to_1 P)) = (length s - 1)%nat).
  { unfold py_slice_rev_to_1. rewrite length_map, length_rev, length_skipn.
    lia. }
  eexists. split; [reflexivity|]. split; [|split].
  - rewrite length_app, HL, HP. unfold s. simpl. lia.
  - intros k Hk. rewrite <- HL, app_nth2_plus. apply HPk. exact Hk.
  - intros k Hk. rewrite app_nth1 by lia.
    rewrite (nth_map_lt Cconj _ np_empty np_empty)
      by (rewrite length_map in HL; lia).
    f_equal. unfold py_slice_rev_to_1.
    rewrite rev_nth by (rewrite length_skipn; lia).
    rewrite length_skipn, nth_skipn, HP.
    replace (1 + (length s - 1 - Datatypes.S (length s - 1 - k)))%nat
      with k by lia.
    apply HPk. lia.
Qed.

(** *** Exact arithmetic *)

Section Exact.
Hypothesis Fring :
  ring_theory (F_of_Z 0) (F_of_Z 1) Fadd Fmul Fsub
    (fun x => Fsub (F_of_Z 0) x) eq.

Add Ring Fr : Fring.

Lemma sub_shift x y delta : Fsub (Fadd x delta) (Fadd y delta) = Fsub x y.
Proof. ring. Qed.

Lemma sub_swap x y : Fsub x y = Fsub (F_of_Z 0) (Fsub y x).
Proof. ring. Qed.

Lemma lag_shift (s : list F) (d : F) :
  equidistant s d ->
  forall j i, (j <= i < length s)%nat ->
              Fsub (nth i s d) (nth j s d)
              = Fsub (nth (i - j) s d) (nth 0 s d).
Proof.
  intros [delta Hd]. induction j as [|j IH]; intros i Hi.
  - rewrite Nat.sub_0_r. reflexivity.
  - destruct i as [|i]; [lia|].
    rewrite (Hd i) by lia. rewrite (Hd j) by lia.
    rewrite sub_shift. simpl. apply IH. lia.
Qed.
End Exact.

Lemma corr_min_agree (s : list F) (bcf bcf' : F -> C) (d : F) :
  (forall k, (k < length s)%nat ->
             bcf' (Fsub (nth k s d) (nth 0 s d))
             = bcf (Fsub (nth k s d) (nth 0 s d))) ->
  StocProc_KLE._calc_corr_min_t_plus_t s bcf'
  = StocProc_KLE._calc_corr_min_t_plus_t s bcf.
Proof.
  intros H. unfold StocProc_KLE._calc_corr_min_t_plus_t.
  destruct s as [|s0 s']; [reflexivity|]. cbn [py_item0 bind].
  assert (E : map bcf' (map (fun x => Fsub x s0) (s0 :: s'))
              = map bcf (map (fun x => Fsub x s0) (s0 :: s'))).
  { rewrite !map_map. apply map_ext_in. intros x Hx.
    destruct (In_nth _ _ d Hx) as [k [Hk Hnth]]. rewrite <- Hnth.
    apply (H k Hk). }
  rewrite E. reflexivity.
Qed.

(** C6.  For a time grid [s] of [n >= 1] points the doubled lag vector is
    built and has length [2n - 1]; its entry [n-1+k] is [R(s_k - s_0)] and
    its entry [n-1-k] is the conjugate of [R(s_k - s_0)]; the matrix is
    built, has shape [(n, n)], and its entry [(i, j)] is the entry
    [n-1+i-j] of the doubled vector.  [R] is evaluated at the lags
    [s_k - s_0] only: a function that agrees with [R] on these [n] lags
    gives the same vector and the same matrix.  When the grid is
    equidistant, [R(-tau) = conj(R(tau))] and the arithmetic of the times is
    exact, entry [(i, j)] is [R(s_i - s_j)]. *)
Theorem corr_matrix_from_lags :
  forall (s : list F) (bcf : F -> C) (d : F),
    s <> [] ->
    exists v r,
      StocProc_KLE._calc_corr_min_t_plus_t s bcf = Ok v /\
      StocProc_KLE._calc_corr_matrix s bcf = Ok r /\
      length v = (2 * length s - 1)%nat /\
      (forall k, (k < length s)%nat ->
                 nth (length s - 1 + k) v np_empty
                 = bcf (Fsub (nth k s d) (nth 0 s d))) /\
      (forall k, (1 <= k < length s)%nat ->
                 nth (length s - 1 - k) v np_empty
                 = Cconj (bcf (Fsub (nth k s d) (nth 0 s d)))) /\
      shape0 r = length s /\ shape1 r = length s /\
      (forall i j, (i < length s)%nat -> (j < length s)%nat ->
                   item np_empty r i j
                   = nth (length s - 1 - j + i) v np_empty) /\
      (forall bcf' : F -> C,
          (forall k, (k < length s)%nat ->
                     bcf' (Fsub (nth k s d) (nth 0 s d))
                     = bcf (Fsub (nth k s d) (nth 0 s d))) ->
          StocProc_KLE._calc_corr_min_t_plus_t s bcf' = Ok v /\
          StocProc_KLE._calc_corr_matrix s bcf' = Ok r) /\
      (exact_arithmetic -> equidistant s d -> hermitian bcf ->
       forall i j, (i < length s)%nat -> (j < length s)%nat ->
                   item np_empty r i j
                   = bcf (Fsub (nth i s d) (nth j s d))).
Proof.
  intros s bcf d Hs.
  destruct (doubled_vector_spec bcf d Hs) as [v [Hv [Hlen [Hpos Hneg]]]].
  destruct (@fill_columns_spec (length s) v Hlen) as [r [Hr [H0 [H1 Hitem]]]].
  assert (Hm : StocProc_KLE._calc_corr_matrix s bcf = Ok r).
  { unfold StocProc_KLE._calc_corr_matrix. rewrite Hv. exact Hr. }
  exists v, r.
  split; [exact Hv|]. split; [exact Hm|]. split; [exact Hlen|].
  split; [exact Hpos|]. split; [exact Hneg|]. split; [exact H0|].
  split; [exact H1|]. split; [exact Hitem|]. split.
  - intros bcf' Hag.
    pose proof (corr_min_agree s bcf bcf' d Hag) as E.
    split; [rewrite E; exact Hv|].
    unfold StocProc_KLE._calc_corr_matrix. rewrite E, Hv. exact Hr.
  - intros Hring Heq Hherm i j Hi Hj. rewrite Hitem by assumption.
    destruct (Nat.le_gt_cases j i) as [Hji|Hij].
    + replace (length s - 1 - j + i)%nat with (length s - 1 + (i - j))%nat
        by lia.
      rewrite Hpos by lia.
      assert (E : Fsub (nth i s d) (nth j s d)
                  = Fsub (nth (i - j) s d) (nth 0 s d))
        by (apply (lag_shift Hring Heq); lia).
      rewrite E. reflexivity.
    + replace (length s - 1 - j + i)%nat with (length s - 1 - (j - i))%nat
        by lia.
      rewrite Hneg by lia.
      assert (E : Fsub (nth j s d) (nth i s d)
                  = Fsub (nth (j - i) s d) (nth 0 s d))
        by (apply (lag_shift Hring Heq); lia).
      rewrite <- E, <- Hherm, <- (sub_swap Hring). reflexivity.
Qed.

End CorrelationMatrix.

Section CorrelationMatrixRuns.
Import Toy.

Lemma toy_exact_arithmetic : exact_arithmetic.
Proof.
  constructor.
  - exact Z.add_0_l.
  - exact Z.add_comm.
  - exact Z.add_assoc.
  - exact Z.mul_1_l.
  - exact Z.mul_comm.
  - exact Z.mul_assoc.
  - exact Z.mul_add_distr_r.
  - intros x y. exact (eq_sym (Z.add_opp_r x y)).
  - exact Z.add_opp_diag_r.
Defined.

Lemma corr_matrix_from_lags_witness :
  ToyRun.lag_grid <> [] /\
  exact_arithmetic /\
  equidistant ToyRun.lag_grid 0 /\
  hermitian ToyRun.lag_kernel /\
  StocProc_KLE._calc_corr_min_t_plus_t ToyRun.lag_grid ToyRun.lag_kernel
  = Ok [(36, -6); (9, -3); (0, 0); (9, 3); (36, 6)] /\
  option_map (@rows C)
    (match StocProc_KLE._calc_corr_matrix ToyRun.lag_grid ToyRun.lag_kernel
     with Ok r => Some r | Raise _ => None end)
  = Some [[(0, 0); (9, -3); (36, -6)];
          [(9, 3); (0, 0); (9, -3)];
          [(36, 6); (9, 3); (0, 0)]] /\
  exists r,
    StocProc_KLE._calc_corr_matrix ToyRun.lag_grid ToyRun.lag_kernel = Ok r /\
    item np_empty r 0 2
    = ToyRun.lag_kernel (Fsub (nth 0 ToyRun.lag_grid 0)
                              (nth 2 ToyRun.lag_grid 0)).
Proof.
  assert (Hne : ToyRun.lag_grid <> []) by discriminate.
  assert (Heq : equidistant ToyRun.lag_grid 0).
  { exists 3. intros [|[|k]] Hk; simpl in *; try reflexivity; lia. }
  assert (Hh : hermitian ToyRun.lag_kernel).
  { intros x. unfold ToyRun.lag_kernel. simpl. unfold cconj. simpl.
    f_equal; ring. }
  split; [exact Hne|]. split; [exact toy_exact_arithmetic|].
  split; [exact Heq|]. split; [exact Hh|].
  split; [reflexivity|]. split; [reflexivity|].
  destruct (corr_matrix_from_lags (NP := numerics) ToyRun.lag_kernel 0 Hne)
    as [v [r [_ [Hr [_ [_ [_ [_ [_ [_ [_ Hex]]]]]]]]]]].
  exists r. split; [exact Hr|].
  apply (Hex toy_exact_arithmetic Heq Hh); simpl; lia.
Defined.

End CorrelationMatrixRuns.

(** ** The random input vector *)

Section ViewPairs.
Variables A B : Type.
Variable mk : A -> A -> B.

Lemma view_pairs_length (n : nat) :
  forall a : list A,
    length a = (2 * n)%nat -> length (view_pairs mk a) = n.
Proof.
  induction n as [|n IH]; intros a Ha.
  - destruct a; [reflexivity|discriminate].
  - destruct a as [|x [|y a]]; simpl in Ha; try lia.
    simpl. f_equal. apply IH. lia.
Qed.

Lemma view_pairs_nth (n : nat) :
  forall (a : list A) (i : nat) (d : B) (d' : A),
    length a = (2 * n)%nat -> (i < n)%nat ->
    nth i (view_pairs mk a) d
    = mk (nth (2 * i) a d') (nth (2 * i + 1) a d').
Proof.
  induction n as [|n IH]; intros a i d d' Ha Hi; [lia|].
  destruct a as [|x [|y a]]; simpl in Ha; try lia.
  destruct i as [|i].
  - reflexivity.
  - replace (2 * S i)%nat with (S (S (2 * i))) by lia.
    replace (S (S (2 * i)) + 1)%nat with (S (S (2 * i + 1))) by lia.
    cbn [view_pairs nth]. apply IH; lia.
Qed.
End ViewPairs.

Section SecondMoment.
Local Open Scope R_scope.
Variable Omega : Type.
Variable E : (Omega -> R) -> R.
Variable G : nat -> Omega -> R.

Lemma normal_length scale size : length (normal G scale size) = size.
Proof. unfold normal. rewrite length_map, length_seq. reflexivity. Qed.

Lemma normal_nth scale size k (d : rv Omega) :
  (k < size)%nat ->
  nth k (normal G scale size) d = fun w => scale * G k w.
Proof.
  intros Hk. unfold normal.
  rewrite (nth_map_lt (fun k w => scale * G k w) (seq 0 size) 0%nat d)
    by (rewrite length_seq; exact Hk).
  rewrite seq_nth by exact Hk. reflexivity.
Qed.

Lemma random_input_nth scale num_y i :
  (i < num_y)%nat ->
  nth i (random_input G scale num_y) (zero_crv Omega)
  = (fun w => scale * G (2 * i)%nat w,
     fun w => scale * G (2 * i + 1)%nat w).
Proof.
  intros Hi. unfold random_input.
  rewrite (view_pairs_nth (fun x y : rv Omega => (x, y)) (n := num_y)
             _ (zero_crv Omega) (fun _ => 0))
    by (try apply normal_length; exact Hi).
  rewrite !normal_nth by lia. reflexivity.
Qed.

(** The second moments of the input vector drawn with scale [scale]:
    [E(Y_i conj(Y_j))] is [2 scale^2] for [i = j] and 0 otherwise. *)
Lemma second_moment scale num_y i j :
  sampler_contract E G (2 * num_y) ->
  (i < num_y)%nat -> (j < num_y)%nat ->
  expectation E
    (mul_conj (nth i (random_input G scale num_y) (zero_crv Omega))
              (nth j (random_input G scale num_y) (zero_crv Omega)))
  = (if Nat.eqb i j then 2 * (scale * scale) else 0, 0).
Proof.
  intros [Hext [Hadd [Hscal Hmom]]] Hi Hj.
  rewrite !random_input_nth by assumption.
  unfold expectation, mul_conj. cbn [fst snd].
  assert (Hprod : forall k l, (k < 2 * num_y)%nat -> (l < 2 * num_y)%nat ->
            E (fun w => scale * G k w * (scale * G l w))
            = scale * scale * (if Nat.eqb k l then 1 else 0)).
  { intros k l Hk Hl.
    rewrite (Hext _ (fun w => (scale * scale) * (G k w * G l w)))
      by (intros w; ring).
    rewrite Hscal, Hmom by assumption. reflexivity. }
  f_equal.
  - rewrite Hadd, !Hprod by lia.
    destruct (Nat.eqb_spec i j) as [->|Hne].
    + rewrite !Nat.eqb_refl. ring.
    + destruct (Nat.eqb_spec (2 * i) (2 * j)); [lia|].
      destruct (Nat.eqb_spec (2 * i + 1) (2 * j + 1)); [lia|]. ring.
  - rewrite (Hext _ (fun w => scale * G (2 * i + 1)%nat w
                              * (scale * G (2 * j)%nat w)
                              + -1 * (scale * G (2 * i)%nat w
                                      * (scale * G (2 * j + 1)%nat w))))
      by (intros w; ring).
    rewrite Hadd, Hscal, !Hprod by lia.
    destruct (Nat.eqb_spec (2 * i + 1) (2 * j)); [lia|].
    destruct (Nat.eqb_spec (2 * i) (2 * j + 1)); [lia|]. ring.
Qed.

Lemma two_scale_squared : 2 * (one_over_sqrt_2 * one_over_sqrt_2) = 1.
Proof.
  unfold one_over_sqrt_2.
  assert (H2 : sqrt 2 * sqrt 2 = 2) by (apply sqrt_sqrt; lra).
  assert (Hn : sqrt 2 <> 0) by (intros H0; rewrite H0 in H2; lra).
  field_simplify; [|exact Hn]. rewrite <- H2 at 1.
  field. exact Hn.
Qed.

(** With the scale [1/sqrt(2)] of [new_process] the second moment is
    [delta_ij]. *)
Lemma unit_second_moment num_y i j :
  sampler_contract E G (2 * num_y) ->
  (i < num_y)%nat -> (j < num_y)%nat ->
  expectation E
    (mul_conj
       (nth i (random_input G one_over_sqrt_2 num_y) (zero_crv Omega))
       (nth j (random_input G one_over_sqrt_2 num_y) (zero_crv Omega)))
  = (if Nat.eqb i j then 1 else 0, 0).
Proof.
  intros Hc Hi Hj. rewrite (second_moment one_over_sqrt_2 Hc Hi Hj).
  rewrite two_scale_squared. reflexivity.
Qed.
End SecondMoment.

Lemma coins_contract : sampler_contract Coins.E Coins.G 2.
Proof.
  unfold sampler_contract, Coins.E. repeat split.
  - intros f g H. rewrite !H. reflexivity.
  - intros f g. lra.
  - intros c f. lra.
  - intros k l Hk Hl.
    destruct k as [|[|k]]; destruct l as [|[|l]]; try lia;
      unfold Coins.G, Coins.sign; simpl; lra.
Qed.

(** C8, as stated, fails: the input variables have second moment one, not
    two. *)
Lemma second_moment_is_not_two :
  ~ (forall (Omega : Type) (E : (Omega -> R) -> R) (G : nat -> Omega -> R),
        sampler_contract E G 2 ->
        expectation E
          (mul_conj
             (nth 0 (random_input G one_over_sqrt_2 1) (zero_crv Omega))
             (nth 0 (random_input G one_over_sqrt_2 1) (zero_crv Omega)))
        = (2, 0)%R).
Proof.
  intros H. specialize (H _ _ _ coins_contract).
  rewrite (unit_second_moment (num_y := 1) (i := 0) (j := 0) coins_contract)
    in H by lia.
  simpl in H. inversion H. lra.
Qed.

Section Drawing.
Context {NP : Numerics} {EX : External} {KN : Kernels} {SV : Solvers}.

Lemma base_init_scale t_max n seed k g b g' :
  _absStocProc.__init__ t_max n seed k g = Ok (b, g') ->
  _absStocProc._one_over_sqrt_2 b = Fdiv (F_of_Z 1) (Fsqrt (F_of_Z 2)).
Proof.
  unfold _absStocProc.__init__. intros H.
  inv_bind H as grid. inv_bind H as gg. inversion H; subst. reflexivity.
Qed.

Lemma KLE_setstate_scale st g o g' :
  StocProc_KLE.__setstate__ st g = Ok (o, g') ->
  has_scale (StocProc_KLE.base o).
Proof.
  unfold StocProc_KLE.__setstate__.
  destruct st as [[[[[A alpha] seed] k] t_max] fac]. intros H.
  inv_bind H as [b g1]. inversion H; subst. simpl.
  eapply base_init_scale; eauto.
Qed.

Lemma KLE_init_scale r_tau t_max ng fac seed sig_min k al g o g' :
  StocProc_KLE.__init__ r_tau t_max ng fac seed sig_min k al g = Ok (o, g') ->
  has_scale (StocProc_KLE.base o).
Proof.
  unfold StocProc_KLE.__init__. intros H.
  inv_bind H as [times w]. inv_bind H as r.
  inv_bind H as [eig_val eig_vec0]. inv_bind H as eig_vec.
  inv_bind H as wu. inv_bind H as A. inv_bind H as fine.
  inv_bind H as alpha. inv_bind H as [self g1].
  inversion H; subst. simpl.
  eapply KLE_setstate_scale; eauto.
Qed.

Lemma constructed_scale (e : engine) :
  constructed e -> has_scale (_absStocProc.super e).
Proof.
  intros H. destruct H as [? ? ? ? ? ? ? ? ? o gx H|? ? o gx H
                           |? ? ? ? ? ? ? ? ? o gx H
                           |? ? ? ? ? ? ? ? ? o gx H|st0 ? o gx H]; simpl.
  - eapply KLE_init_scale; eauto.
  - eapply KLE_setstate_scale; eauto.
  - apply KLE_tol_init_inv in H. destruct H as [self [key [Ha Ho]]].
    subst o. simpl.
    eapply (auto_grid_points_invariant
              (fun o => has_scale (StocProc_KLE.base o)));
      [|exact Ha|reflexivity].
    intros ng g1 o g1' Hi. eapply KLE_init_scale; eauto.
  - unfold StocProc_FFT_tol.__init__ in H.
    inv_bind H as [[[[a b] N] dx] dt].
    destruct (Fltb _ _); try discriminate.
    inv_bind H as [b0 gg]. inversion H; subst. simpl.
    eapply base_init_scale; eauto.
  - unfold StocProc_FFT_tol.__setstate__ in H.
    destruct st0 as [[[[[yl0 n] omc] t_max] seed] k].
    inv_bind H as [b gg]. inversion H; subst. simpl.
    eapply base_init_scale; eauto.
Qed.

Lemma new_process_drawn (e : engine) seed g g1 e1 g' r :
  match seed with Some s => np_random_seed s | None => Ok g end = Ok g1 ->
  _absStocProc.new_process e None seed g = (e1, g', r) ->
  g' = snd (np_random_normal (_absStocProc._one_over_sqrt_2
                                (_absStocProc.super e))
              (2 * _absStocProc.get_num_y e) g1) /\
  r = (_ <- _absStocProc._calc_z e
             (view_complex
                (fst (np_random_normal
                        (_absStocProc._one_over_sqrt_2 (_absStocProc.super e))
                        (2 * _absStocProc.get_num_y e) g1))) ;; Ok tt) /\
  (r = Ok tt ->
   exists z,
     _absStocProc._calc_z e
       (view_complex
          (fst (np_random_normal
                  (_absStocProc._one_over_sqrt_2 (_absStocProc.super e))
                  (2 * _absStocProc.get_num_y e) g1))) = Ok z /\
     _absStocProc.get_z e1 = Some z).
Proof.
  intros Hseed. rewrite new_process_unfold, Hseed.
  assert (Hs : same_core e
                 (_absStocProc.with_super e (entered (_absStocProc.super e))))
    by (apply same_core_with_super, entered_same_settings).
  unfold _absStocProc.draw_y.
  rewrite super_with_super, (get_num_y_same_core Hs).
  change (_absStocProc._one_over_sqrt_2 (entered (_absStocProc.super e)))
    with (_absStocProc._one_over_sqrt_2 (_absStocProc.super e)).
  destruct (np_random_normal _ _ g1) as [a g2]. cbn [fst snd].
  rewrite (calc_z_same_core Hs).
  destruct (_absStocProc._calc_z e (view_complex a)) as [z|ex]; cbn [bind];
    intros H; split_pair H; subst; repeat split; auto; try discriminate.
  intros _. exists z. split; auto.
  unfold _absStocProc.get_z. rewrite super_with_super. reflexivity.
Qed.

Lemma new_process_explicit_rng (e : engine) v seed g g1 e1 g' r :
  match seed with Some s => np_random_seed s | None => Ok g end = Ok g1 ->
  _absStocProc.new_process e (Some v) seed g = (e1, g', r) ->
  g' = g1.
Proof.
  intros Hseed. rewrite new_process_unfold, Hseed.
  destruct (_absStocProc._calc_z _ v); intros H; split_pair H; subst;
    reflexivity.
Qed.

(** C8 (amended).  When [y] is omitted, [new_process] draws
    [2 * get_num_y()] floats from the generator with the scale
    [1/sqrt(2)] (after the seeding, when a seed is given), reads them as
    [get_num_y()] complex numbers and hands this vector to [_calc_z]: the
    outcome and the stored realization are those of [_calc_z] on it.  When
    [y] is given nothing is drawn: the generator is left as the seeding
    left it and [_calc_z] runs on [y].  For draws that are uncorrelated
    with second moment one, the vector drawn has
    [E(Y_i conj(Y_j)) = delta_ij]: each input variable has second moment
    one (one half for each of its two parts), not two. *)
Theorem new_process_draws_unit_variance_input :
  (forall (e0 : engine) (g0 : RNG) (h : list call) (seed : option Z)
          (g g1 : RNG),
      constructed e0 ->
      match seed with Some s => np_random_seed s | None => Ok g end = Ok g1 ->
      (forall e1 g' r,
          _absStocProc.new_process (fst (run (e0, g0) h)) None seed g
          = (e1, g', r) ->
          g' = snd (np_random_normal (Fdiv (F_of_Z 1) (Fsqrt (F_of_Z 2)))
                      (2 * _absStocProc.get_num_y (fst (run (e0, g0) h))) g1) /\
          (length (fst (np_random_normal
                          (Fdiv (F_of_Z 1) (Fsqrt (F_of_Z 2)))
                          (2 * _absStocProc.get_num_y (fst (run (e0, g0) h)))
                          g1))
           = (2 * _absStocProc.get_num_y (fst (run (e0, g0) h)))%nat ->
           length (view_complex
                     (fst (np_random_normal
                             (Fdiv (F_of_Z 1) (Fsqrt (F_of_Z 2)))
                             (2 * _absStocProc.get_num_y
                                    (fst (run (e0, g0) h))) g1)))
           = _absStocProc.get_num_y (fst (run (e0, g0) h))) /\
          r = (_ <- _absStocProc._calc_z (fst (run (e0, g0) h))
                     (view_complex
                        (fst (np_random_normal
                                (Fdiv (F_of_Z 1) (Fsqrt (F_of_Z 2)))
                                (2 * _absStocProc.get_num_y
                                       (fst (run (e0, g0) h))) g1))) ;;
               Ok tt) /\
          (r = Ok tt ->
           exists z,
             _absStocProc._calc_z (fst (run (e0, g0) h))
               (view_complex
                  (fst (np_random_normal
                          (Fdiv (F_of_Z 1) (Fsqrt (F_of_Z 2)))
                          (2 * _absStocProc.get_num_y (fst (run (e0, g0) h)))
                          g1))) = Ok z /\
             _absStocProc.get_z e1 = Some z)) /\
      (forall v e1 g' r,
          _absStocProc.new_process (fst (run (e0, g0) h)) (Some v) seed g
          = (e1, g', r) ->
          g' = g1 /\
          r = (_ <- _absStocProc._calc_z (fst (run (e0, g0) h)) v ;; Ok tt) /\
          (r = Ok tt ->
           exists z,
             _absStocProc._calc_z (fst (run (e0, g0) h)) v = Ok z /\
             _absStocProc.get_z e1 = Some z))) /\
  (forall (Omega : Type) (E : (Omega -> R) -> R) (G : nat -> Omega -> R)
          (num_y i j : nat),
      sampler_contract E G (2 * num_y) ->
      (i < num_y)%nat -> (j < num_y)%nat ->
      expectation E
        (mul_conj
           (nth i (random_input G one_over_sqrt_2 num_y) (zero_crv Omega))
           (nth j (random_input G one_over_sqrt_2 num_y) (zero_crv Omega)))
      = ((if Nat.eqb i j then 1 else 0)%R, 0%R)).
Proof.
  split.
  - intros e0 g0 h seed g g1 Hc Hseed.
    pose proof (run_same_core h e0 g0) as Hs.
    assert (Hscale : _absStocProc._one_over_sqrt_2
                       (_absStocProc.super (fst (run (e0, g0) h)))
                     = Fdiv (F_of_Z 1) (Fsqrt (F_of_Z 2))).
    { destruct Hs as [b [-> Hb]]. rewrite super_with_super.
      destruct Hb as [_ [_ [_ [_ [_ Hb]]]]]. rewrite Hb.
      apply (constructed_scale Hc). }
    split.
    + intros e1 g' r Hn.
      destruct (new_process_drawn _ _ _ Hseed Hn) as [Hg [Hr Hz]].
      rewrite Hscale in Hg, Hr, Hz.
      split; [exact Hg|]. split; [|split; [exact Hr|exact Hz]].
      intros Hlen. unfold view_complex. apply view_pairs_length. exact Hlen.
    + intros v e1 g' r Hn.
      split; [eapply new_process_explicit_rng; eauto|].
      apply new_process_explicit in Hn. destruct Hn as [Hr Hz].
      rewrite Hseed in Hr. cbn [bind] in Hr. auto.
  - intros Omega E G num_y i j Hc Hi Hj.
    apply unit_second_moment; assumption.
Qed.

End Drawing.

Section DrawingRuns.
Import Toy.

Lemma new_process_draws_unit_variance_input_witness :
  constructed (KLE ToyRun.kle) /\
  sampler_contract Coins.E Coins.G 2 /\
  snd (_absStocProc.new_process
         (fst (run (KLE ToyRun.kle, ToyRun.g0) ToyRun.short_history))
         None (Some 7) ToyRun.g0) = Ok tt /\
  snd (fst (_absStocProc.new_process
              (fst (run (KLE ToyRun.kle, ToyRun.g0) ToyRun.short_history))
              None (Some 7) ToyRun.g0)) = 11 /\
  snd (fst (_absStocProc.new_process
              (fst (run (KLE ToyRun.kle, ToyRun.g0) ToyRun.short_history))
              (Some ToyRun.y2) (Some 7) ToyRun.g0)) = 7 /\
  expectation Coins.E
    (mul_conj
       (nth 0 (random_input Coins.G one_over_sqrt_2 1)
            (zero_crv Coins.Omega))
       (nth 0 (random_input Coins.G one_over_sqrt_2 1)
            (zero_crv Coins.Omega)))
  = (1, 0)%R.
Proof.
  destruct (new_process_draws_unit_variance_input (NP := numerics)
              (EX := external) (KN := kernels) (SV := solvers))
    as [T1 T2].
  destruct (T1 (KLE ToyRun.kle) ToyRun.g0 ToyRun.short_history (Some 7)
              ToyRun.g0 7 toy_kle_constructed eq_refl) as [Td Te].
  split; [exact toy_kle_constructed|]. split; [exact coins_contract|].
  split; [reflexivity|]. split; [|split].
  - destruct (Td _ _ _ (triple_eta _ eq_refl eq_refl)) as [Hg _].
    rewrite Hg. reflexivity.
  - destruct (Te ToyRun.y2 _ _ _ (triple_eta _ eq_refl eq_refl)) as [Hg _].
    exact Hg.
  - apply (T2 Coins.Omega Coins.E Coins.G 1%nat 0%nat 0%nat coins_contract);
      lia.
Defined.

End DrawingRuns.

(** * Further properties of the process interface *)

Section Interface.
Context {NP : Numerics} {EX : External} {KN : Kernels} {SV : Solvers}.

Lemma KLE_setstate_base st g o g' :
  StocProc_KLE.__setstate__ st g = Ok (o, g') ->
  base_initialised (StocProc_KLE.base o).
Proof.
  unfold StocProc_KLE.__setstate__.
  destruct st as [[[[[A alpha] seed] k] t_max] fac]. intros H.
  inv_bind H as [b g1]. inversion H; subst. simpl.
  do 6 eexists. exact Hb.
Qed.

Lemma KLE_init_base r_tau t_max ng fac seed sig_min k al g o g' :
  StocProc_KLE.__init__ r_tau t_max ng fac seed sig_min k al g = Ok (o, g') ->
  base_initialised (StocProc_KLE.base o).
Proof.
  unfold StocProc_KLE.__init__. intros H.
  inv_bind H as [times w]. inv_bind H as r.
  inv_bind H as [eig_val eig_vec0]. inv_bind H as eig_vec.
  inv_bind H as wu. inv_bind H as A. inv_bind H as fine.
  inv_bind H as alpha. inv_bind H as [self g1].
  inversion H; subst. simpl.
  eapply KLE_setstate_base; eauto.
Qed.

Lemma constructed_base (e : engine) :
  constructed e -> base_initialised (_absStocProc.super e).
Proof.
  intros H. destruct H as [? ? ? ? ? ? ? ? ? o gx H|? ? o gx H
                           |? ? ? ? ? ? ? ? ? o gx H
                           |? ? ? ? ? ? ? ? ? o gx H|st0 ? o gx H]; simpl.
  - eapply KLE_init_base; eauto.
  - eapply KLE_setstate_base; eauto.
  - apply KLE_tol_init_inv in H. destruct H as [self [key [Ha Ho]]].
    subst o. simpl.
    eapply (auto_grid_points_invariant
              (fun o => base_initialised (StocProc_KLE.base o)));
      [|exact Ha|reflexivity].
    intros ng g1 o g1' Hi. eapply KLE_init_base; eauto.
  - unfold StocProc_FFT_tol.__init__ in H.
    inv_bind H as [[[[a b] N] dx] dt].
    destruct (Fltb _ _); try discriminate.
    inv_bind H as [b0 gg]. inversion H; subst. simpl.
    do 6 eexists. exact Hb0.
  - unfold StocProc_FFT_tol.__setstate__ in H.
    destruct st0 as [[[[[yl0 n] omc] t_max] seed] k].
    inv_bind H as [b gg]. inversion H; subst. simpl.
    do 6 eexists. exact Hb.
Qed.

Lemma base_initialised_proc_cnt b :
  base_initialised b -> _absStocProc._proc_cnt b = 0.
Proof.
  intros [t_max [n [seed [k [g [g' H]]]]]].
  unfold _absStocProc.__init__ in H.
  inv_bind H as grid. inv_bind H as gg. inversion H; subst. reflexivity.
Qed.

(** *** The counter of realizations *)

Lemma step_proc_cnt (e : engine) g c :
  _absStocProc._proc_cnt (_absStocProc.super (fst (fst (step (e, g) c))))
  = _absStocProc._proc_cnt (_absStocProc.super e)
    + match c with Call_new_process _ _ => 1 | _ => 0 end.
Proof.
  destruct c as [y seed|time| |]; [| |cbn [step fst snd]; lia..].
  - destruct (_absStocProc.new_process e y seed g) as [[e1 g1] r] eqn:Hn.
    rewrite (step_new_process _ _ _ _ Hn). cbn [fst snd].
    apply new_process_cases in Hn.
    destruct Hn as [[ex [Hr He]]|[y' [z [Hr [Hz [Hy He]]]]]]; subst e1;
      rewrite !super_with_super; reflexivity.
  - destruct (_absStocProc.__call__ e time) as [e1 r] eqn:Hn.
    rewrite (step___call__ _ g _ Hn). cbn [fst snd].
    apply call_effect in Hn.
    destruct Hn as [_ [_ [_ [He|[z [itp [Hz [Hi [Hb He]]]]]]]]]; subst e1.
    + lia.
    + rewrite super_with_super. simpl. lia.
Qed.

Lemma run_proc_cnt (h : list call) :
  forall e g,
    _absStocProc._proc_cnt (_absStocProc.super (fst (run (e, g) h)))
    = _absStocProc._proc_cnt (_absStocProc.super e) + count_new_process h.
Proof.
  induction h as [|c h IH]; intros e g.
  - simpl. lia.
  - rewrite run_cons.
    pose proof (step_proc_cnt e g c) as Hs.
    destruct (step (e, g) c) as [[e1 g1] ok]. cbn [fst snd] in *.
    rewrite IH, Hs. destruct c; cbn [count_new_process]; lia.
Qed.

(** X1.  The counter [_proc_cnt] of an engine is the number of calls of
    [new_process] made on it since its construction, the calls that raised
    included; [__call__], [get_z] and [get_time] do not count. *)
Theorem proc_cnt_counts_new_process :
  forall (e0 : engine) (g0 : RNG) (h : list call),
    constructed e0 ->
    _absStocProc._proc_cnt (_absStocProc.super (fst (run (e0, g0) h)))
    = count_new_process h.
Proof.
  intros e0 g0 h Hc. rewrite run_proc_cnt.
  rewrite (base_initialised_proc_cnt (constructed_base Hc)). lia.
Qed.

(** *** Reproducible realizations *)

Lemma same_core_scale (e e' : engine) :
  same_core e e' ->
  _absStocProc._one_over_sqrt_2 (_absStocProc.super e')
  = _absStocProc._one_over_sqrt_2 (_absStocProc.super e).
Proof.
  intros [b [-> Hb]]. rewrite super_with_super.
  destruct Hb as [_ [_ [_ [_ [_ Hb]]]]]. exact Hb.
Qed.

(** X2.  [new_process(seed=s)] without [y] is reproducible: on one engine,
    whatever calls were made before and whatever the state of the generator,
    it has the same outcome, leaves the generator in the same state when
    the seeding returns, and stores the same realization when it returns. *)
Theorem seeded_new_process_is_reproducible :
  forall (e0 : engine) (g0 g0' : RNG) (h1 h2 : list call) (s : Z)
         (ga gb : RNG) (a b : engine) (ga' gb' : RNG) (ra rb : result unit),
    constructed e0 ->
    _absStocProc.new_process (fst (run (e0, g0) h1)) None (Some s) ga
    = (a, ga', ra) ->
    _absStocProc.new_process (fst (run (e0, g0') h2)) None (Some s) gb
    = (b, gb', rb) ->
    ra = rb /\
    (is_ok (np_random_seed s) = true -> ga' = gb') /\
    (ra = Ok tt ->
     exists z, _absStocProc.get_z a = Some z /\
               _absStocProc.get_z b = Some z).
Proof.
  intros e0 g0 g0' h1 h2 s ga gb a b ga' gb' ra rb Hc Ha Hb.
  pose proof (run_same_core h1 e0 g0) as H1.
  pose proof (run_same_core h2 e0 g0') as H2.
  destruct (np_random_seed s) as [g1|ex] eqn:Hseed.
  - destruct (new_process_drawn _ (Some s) ga Hseed Ha) as [Hga [Hra Hza]].
    destruct (new_process_drawn _ (Some s) gb Hseed Hb) as [Hgb [Hrb Hzb]].
    rewrite (same_core_scale H1), (get_num_y_same_core H1) in Hga, Hra, Hza.
    rewrite (same_core_scale H2), (get_num_y_same_core H2) in Hgb, Hrb, Hzb.
    rewrite (calc_z_same_core H1) in Hra.
    rewrite (calc_z_same_core H2) in Hrb.
    setoid_rewrite (calc_z_same_core H1) in Hza.
    setoid_rewrite (calc_z_same_core H2) in Hzb.
    split; [congruence|]. split; [intros _; congruence|].
    intros Hok. destruct (Hza Hok) as [z [Hz1 Hz2]].
    assert (Hok' : rb = Ok tt) by congruence.
    destruct (Hzb Hok') as [z' [Hz1' Hz2']].
    exists z. split; [exact Hz2|]. congruence.
  - rewrite new_process_unfold, Hseed in Ha, Hb.
    split_pair Ha. split_pair Hb. subst.
    split; [reflexivity|]. split; [discriminate|]. discriminate.
Qed.

(** *** A call of [new_process] that raises *)

Lemma coherent_call_value (e : engine) x e1 v :
  coherent e ->
  _absStocProc.__call__ e (Some x) = (e1, Ok (_absStocProc.Value v)) ->
  exists z itp,
    _absStocProc._z (_absStocProc.super e) = Some z /\
    tools.ComplexInterpolatedUnivariateSpline.__init__
      (_absStocProc.t (_absStocProc.super e)) z
      (_absStocProc._k (_absStocProc.super e)) = Ok itp /\
    v = tools.ComplexInterpolatedUnivariateSpline.__call__ itp x.
Proof.
  intros Hco. unfold _absStocProc.__call__.
  destruct (_absStocProc._z (_absStocProc.super e)) as [z|] eqn:Hz.
  - destruct (_absStocProc._interpolator (_absStocProc.super e))
      as [itp|] eqn:Hi.
    + intros H. split_pair H. exists z, itp.
      destruct (Hco itp Hi) as [z' [Hz' Hb]].
      rewrite Hz in Hz'. inversion Hz'; subst z'.
      repeat split; auto. congruence.
    + destruct (tools.ComplexInterpolatedUnivariateSpline.__init__ _ _ _)
        as [itp|ex] eqn:Hb; intros H; split_pair H; try discriminate.
      exists z, itp. repeat split; auto. congruence.
  - intros H. split_pair H. discriminate.
Qed.

(** X3.  A [new_process] that raises (in the seeding or in [_calc_z]) has
    discarded the interpolator but not the realization: an evaluation that
    returned [v] at [x] before the call returns [v] at [x] after it, from an
    interpolator built anew. *)
Theorem failed_new_process_keeps_the_process :
  forall (e0 : engine) (g0 : RNG) (h : list call) (x : F)
         (e' : engine) (v : C) (y : option (list C)) (seed : option Z)
         (g : RNG) (e1 : engine) (g1 : RNG) (ex : exn),
    constructed e0 ->
    _absStocProc.__call__ (fst (run (e0, g0) h)) (Some x)
    = (e', Ok (_absStocProc.Value v)) ->
    _absStocProc.new_process (fst (run (e0, g0) h)) y seed g
    = (e1, g1, Raise ex) ->
    _absStocProc._interpolator (_absStocProc.super e1) = None /\
    _absStocProc.get_z e1 = _absStocProc.get_z (fst (run (e0, g0) h)) /\
    exists e2,
      _absStocProc.__call__ e1 (Some x) = (e2, Ok (_absStocProc.Value v)) /\
      _absStocProc._interpolator (_absStocProc.super e2) <> None.
Proof.
  intros e0 g0 h x e' v y seed g e1 g1 ex Hc Hcall Hn.
  assert (Hco : coherent (fst (run (e0, g0) h)))
    by (apply run_coherent, constructed_coherent; exact Hc).
  destruct (coherent_call_value _ Hco Hcall) as [z [itp [Hz [Hb Hv]]]].
  pose proof (new_process_effect _ _ _ _ Hn) as [Hi [Ht [Hk [Hkeep _]]]].
  specialize (Hkeep eq_refl).
  split; [exact Hi|]. split; [exact Hkeep|].
  unfold _absStocProc.__call__.
  rewrite Hkeep, Hz, Hi, Ht, Hk, Hb.
  eexists. split; [rewrite Hv; reflexivity|].
  rewrite super_with_super. discriminate.
Qed.

(** *** What the process interface leaves alone *)

Lemma same_core_getstate (e e' : engine) :
  same_core e e' -> __getstate__ e' = __getstate__ e.
Proof.
  intros [b [-> Hb]].
  destruct Hb as [H1 [H2 [H3 [H4 [H5 H6]]]]].
  destruct e as [o|o|o]; simpl in *; unfold StocProc_KLE.__getstate__,
    StocProc_FFT_tol.__getstate__; simpl; rewrite ?H1, ?H2, ?H4, ?H5;
    reflexivity.
Qed.

Lemma same_core_getkey (e e' : engine) :
  same_core e e' -> _getkey e' = _getkey e.
Proof.
  intros [b [-> Hb]]. destruct e as [o|o|o]; reflexivity.
Qed.

Lemma same_core_time (e e' : engine) :
  same_core e e' -> _absStocProc.get_time e' = _absStocProc.get_time e.
Proof.
  intros [b [-> Hb]]. unfold _absStocProc.get_time.
  rewrite super_with_super. apply Hb.
Qed.

(** X4.  No history of calls of the process interface changes the time
    grid, the number of input variables, the snapshot [__getstate__]
    exports or the key: the snapshot of an engine does not carry its
    realization. *)
Theorem process_interface_frame :
  forall (e : engine) (g : RNG) (h : list call),
    _absStocProc.get_time (fst (run (e, g) h)) = _absStocProc.get_time e /\
    _absStocProc.get_num_y (fst (run (e, g) h)) = _absStocProc.get_num_y e /\
    __getstate__ (fst (run (e, g) h)) = __getstate__ e /\
    _getkey (fst (run (e, g) h)) = _getkey e.
Proof.
  intros e g h. pose proof (run_same_core h e g) as Hs.
  split; [exact (same_core_time Hs)|].
  split; [exact (get_num_y_same_core Hs)|].
  split; [exact (same_core_getstate Hs)|exact (same_core_getkey Hs)].
Qed.

End Interface.

Lemma pair_eta {A B : Type} (r : A * B) (b : B) : snd r = b -> r = (fst r, b).
Proof.
  destruct r as [a b']. simpl. intros <-. reflexivity.
Defined.

Section InterfaceRuns.
Import Toy.

Lemma proc_cnt_counts_new_process_witness :
  constructed (KLE ToyRun.kle) /\
  _absStocProc._proc_cnt
    (_absStocProc.super
       (fst (run (KLE ToyRun.kle, ToyRun.g0) ToyRun.busy_history))) = 2.
Proof.
  split; [exact toy_kle_constructed|].
  apply (proc_cnt_counts_new_process (NP := numerics) (EX := external)
           (KN := kernels) (SV := solvers) ToyRun.g0 ToyRun.busy_history
           toy_kle_constructed).
Defined.

Lemma seeded_new_process_is_reproducible_witness :
  constructed (KLE ToyRun.kle) /\
  snd (_absStocProc.new_process
         (fst (run (KLE ToyRun.kle, ToyRun.g0) ToyRun.busy_history))
         None (Some 7) ToyRun.g0)
  = snd (_absStocProc.new_process
           (fst (run (KLE ToyRun.kle, 5) ToyRun.idle_history))
           None (Some 7) 9) /\
  snd (fst (_absStocProc.new_process
              (fst (run (KLE ToyRun.kle, ToyRun.g0) ToyRun.busy_history))
              None (Some 7) ToyRun.g0))
  = snd (fst (_absStocProc.new_process
                (fst (run (KLE ToyRun.kle, 5) ToyRun.idle_history))
                None (Some 7) 9)).
Proof.
  split; [exact toy_kle_constructed|].
  pose proof (seeded_new_process_is_reproducible (NP := numerics)
                (EX := external) (KN := kernels) (SV := solvers)
                ToyRun.g0 5 ToyRun.busy_history ToyRun.idle_history
                7 ToyRun.g0 9 toy_kle_constructed
                (triple_eta _ eq_refl eq_refl)
                (triple_eta _ eq_refl eq_refl)) as [T1 [T2 _]].
  split; [exact T1|]. apply T2. reflexivity.
Defined.

Lemma failed_new_process_keeps_the_process_witness :
  constructed (KLE ToyRun.kle) /\
  snd (_absStocProc.__call__
         (fst (run (KLE ToyRun.kle, ToyRun.g0) ToyRun.short_history))
         (Some 2))
  = Ok (_absStocProc.Value (-15, 30)) /\
  snd (_absStocProc.new_process
         (fst (run (KLE ToyRun.kle, ToyRun.g0) ToyRun.short_history))
         (Some ToyRun.y1) None ToyRun.g0)
  = Raise ValueError /\
  exists e2,
    _absStocProc.__call__
      (fst (fst (_absStocProc.new_process
                   (fst (run (KLE ToyRun.kle, ToyRun.g0)
                           ToyRun.short_history))
                   (Some ToyRun.y1) None ToyRun.g0)))
      (Some 2)
    = (e2, Ok (_absStocProc.Value (-15, 30))).
Proof.
  split; [exact toy_kle_constructed|].
  split; [reflexivity|]. split; [reflexivity|].
  destruct (failed_new_process_keeps_the_process (NP := numerics)
              (EX := external) (KN := kernels) (SV := solvers)
              ToyRun.g0 ToyRun.short_history 2 (v := (-15, 30))
              (Some ToyRun.y1) None ToyRun.g0 toy_kle_constructed
              (pair_eta _ eq_refl) (triple_eta _ eq_refl eq_refl))
    as [_ [_ [e2 [H _]]]].
  exists e2. exact H.
Defined.

End InterfaceRuns.

(** * Snapshots, keys and seeds *)

Section Keys.
Context {NP : Numerics} {EX : External} {KN : Kernels} {SV : Solvers}.

Lemma base_init_seeded t_max n seed k g b g' :
  _absStocProc.__init__ t_max n seed k g = Ok (b, g') -> seeded seed g g'.
Proof.
  unfold _absStocProc.__init__. intros H.
  inv_bind H as grid. inv_bind H as gg. inversion H; subst.
  destruct seed as [s|]; simpl; [exact Hb0|]. inversion Hb0; reflexivity.
Qed.

(** X5.  Importing a snapshot and exporting it again gives the snapshot
    back, for the KLE and for the FFT engine: [__setstate__] keeps every
    component of the snapshot it is given. *)
Theorem import_then_export_is_identity :
  (forall (st : StocProc_KLE.state) (g : RNG) o g',
      StocProc_KLE.__setstate__ st g = Ok (o, g') ->
      StocProc_KLE.__getstate__ o = st) /\
  (forall (st : StocProc_FFT_tol.state) (g : RNG) o g',
      StocProc_FFT_tol.__setstate__ st g = Ok (o, g') ->
      StocProc_FFT_tol.__getstate__ o = st).
Proof.
  split.
  - intros st g o g'. unfold StocProc_KLE.__setstate__.
    destruct st as [[[[[A alpha] seed] k] t_max] fac]. intros H.
    inv_bind H as [b g1]. inversion H; subst.
    destruct (base_init_fields _ _ _ _ _ Hb) as [Ht [_ [Hk Hs]]].
    unfold StocProc_KLE.__getstate__. simpl. rewrite Ht, Hk, Hs. reflexivity.
  - intros st g o g'. unfold StocProc_FFT_tol.__setstate__.
    destruct st as [[[[[yl0 n] omc] t_max] seed] k]. intros H.
    inv_bind H as [b g1]. inversion H; subst.
    destruct (base_init_fields _ _ _ _ _ Hb) as [Ht [Hn [Hk Hs]]].
    unfold StocProc_FFT_tol.__getstate__. simpl.
    rewrite Ht, Hn, Hk, Hs. reflexivity.
Qed.

Lemma KLE_setstate_key st g o g' :
  StocProc_KLE.__setstate__ st g = Ok (o, g') -> StocProc_KLE.key o = None.
Proof.
  unfold StocProc_KLE.__setstate__.
  destruct st as [[[[[A alpha] seed] k] t_max] fac]. intros H.
  inv_bind H as [b g1]. inversion H; subst. reflexivity.
Qed.

Lemma KLE_init_key r_tau t_max ng fac seed sig_min k al g o g' :
  StocProc_KLE.__init__ r_tau t_max ng fac seed sig_min k al g = Ok (o, g') ->
  StocProc_KLE.key o = Some (r_tau, t_max, inl ng, fac, sig_min, al).
Proof.
  unfold StocProc_KLE.__init__. intros H.
  inv_bind H as [times w]. inv_bind H as r.
  inv_bind H as [eig_val eig_vec0]. inv_bind H as eig_vec.
  inv_bind H as wu. inv_bind H as A. inv_bind H as fine.
  inv_bind H as alpha. inv_bind H as [self g1].
  inversion H; subst. reflexivity.
Qed.

(** X6.  [_getkey] returns the class name and the constructor arguments
    of a KLE engine built by [__init__], in any state the engine has
    reached; on an engine imported from a snapshot it raises
    [AttributeError], since [__setstate__] does not assign [key]. *)
Theorem getkey_after_init_and_after_import :
  (forall r_tau t_max ng fac seed sig_min k al g o g' g0 h,
      StocProc_KLE.__init__ r_tau t_max ng fac seed sig_min k al g
      = Ok (o, g') ->
      _getkey (fst (run (KLE o, g0) h))
      = Ok ("StocProc_KLE"%string,
            (r_tau, t_max, inl ng, fac, sig_min, al))) /\
  (forall (e0 : engine) (g0 : RNG) (h : list call) (g : RNG) e' g',
      constructed e0 ->
      export_import (fst (run (e0, g0) h)) g = Ok (e', g') ->
      _getkey e' = Raise AttributeError).
Proof.
  split.
  - intros r_tau t_max ng fac seed sig_min k al g o g' g0 h H.
    rewrite (same_core_getkey (run_same_core h (KLE o) g0)).
    simpl. unfold StocProc_KLE._getkey.
    rewrite (KLE_init_key _ _ _ _ _ _ _ _ _ H). reflexivity.
  - intros e0 g0 h g e' g' Hc H.
    rewrite (export_import_same_core g (run_same_core h e0 g0)) in H.
    destruct e0 as [o|o|o]; unfold export_import in H;
      inv_bind H as [o1 g1]; inversion H; subst; cbn [fst snd _getkey].
    + unfold StocProc_KLE._getkey.
      rewrite (KLE_setstate_key _ _ Hb). reflexivity.
    + unfold StocProc_KLE._getkey.
      rewrite (KLE_setstate_key _ _ Hb). reflexivity.
    + reflexivity.
Qed.

Lemma KLE_tol_init_key_inv fuel r_tau t_max tolerance fac seed k al g o g' :
  StocProc_KLE_tol.__init__ fuel r_tau t_max tolerance fac seed k al g
  = Some (Ok (o, g')) ->
  exists self k0 k1 k2 k3 k4 k5,
    StocProc_KLE_tol._auto_grid_points fuel tolerance
      (StocProc_KLE_tol.mk_kwargs r_tau t_max fac seed (Fpow tolerance 2) k al)
      g = Some (Ok (Some self, g')) /\
    StocProc_KLE.key self = Some (k0, k1, k2, k3, k4, k5) /\
    o = StocProc_KLE_tol.mk
          (StocProc_KLE.set_key (Some (k0, k1, inr tolerance, k3, k4, k5))
             self)
          tolerance.
Proof.
  unfold StocProc_KLE_tol.__init__. intros H.
  destruct (StocProc_KLE_tol._auto_grid_points fuel tolerance _ g)
    as [[[self g1]|]|] eqn:Ha; try discriminate.
  inversion H as [H']; clear H.
  inv_bind H' as o1. inv_bind H' as [[[[[k0 k1] k2] k3] k4] k5].
  inversion H'; subst.
  destruct self as [self|]; simpl in Hb; [|discriminate].
  inversion Hb; subst.
  destruct (StocProc_KLE.key o1) as [key|] eqn:Hk; simpl in Hb0;
    [|discriminate].
  inversion Hb0; subst.
  exists o1, k0, k1, k2, k3, k4, k5. auto.
Qed.

(** X7.  The key of a [StocProc_KLE_tol] engine holds the tolerance where
    the key of [StocProc_KLE] holds the number of nodes, and the square of
    the tolerance as [sig_min]: it does not tell the number of nodes the
    search ended on. *)
Theorem KLE_tol_key_holds_the_tolerance :
  forall fuel r_tau t_max tolerance fac seed k al g o g',
    StocProc_KLE_tol.__init__ fuel r_tau t_max tolerance fac seed k al g
    = Some (Ok (o, g')) ->
    _getkey (KLE_tol o)
    = Ok ("StocProc_KLE_tol"%string,
          (r_tau, t_max, inr tolerance, fac, Fpow tolerance 2, al)) /\
    StocProc_KLE_tol.tol o = tolerance.
Proof.
  intros fuel r_tau t_max tolerance fac seed k al g o g' H.
  destruct (KLE_tol_init_key_inv _ _ _ _ _ _ _ _ _ H)
    as [self [k0 [k1 [k2 [k3 [k4 [k5 [Ha [Hk Ho]]]]]]]]].
  assert (Hkey : exists ng,
             StocProc_KLE.key self
             = Some (r_tau, t_max, inl ng, fac, Fpow tolerance 2, al)).
  { eapply (auto_grid_points_invariant
              (fun o => exists ng,
                   StocProc_KLE.key o
                   = Some (r_tau, t_max, inl ng, fac, Fpow tolerance 2, al)));
      [|exact Ha|reflexivity].
    intros ng g1 o1 g1' Hi. exists ng.
    apply (KLE_init_key _ _ _ _ _ _ _ _ _ Hi). }
  destruct Hkey as [ng Hkey]. rewrite Hkey in Hk. inversion Hk; subst.
  split; reflexivity.
Qed.

(** X8.  When [inf > tol] does not hold (a tolerance that is infinite or
    not a number) no loop of the search runs its body, the object is never
    initialised, and the constructor raises [AttributeError] where it reads
    [self.key]. *)
Theorem KLE_tol_without_probe_raises :
  forall fuel r_tau t_max tolerance fac seed k al g,
    Fgtb Finf tolerance = false ->
    StocProc_KLE_tol.__init__ fuel r_tau t_max tolerance fac seed k al g
    = Some (Raise AttributeError).
Proof.
  intros fuel r_tau t_max tolerance fac seed k al g Hinf.
  unfold StocProc_KLE_tol.__init__, StocProc_KLE_tol._auto_grid_points.
  assert (Hd : forall kw,
             StocProc_KLE_tol.doubling fuel tolerance kw Finf 2 None g
             = Some (Ok (2, None, g))).
  { intros kw. destruct fuel; [rewrite doubling_O|rewrite doubling_S];
      rewrite Hinf; reflexivity. }
  rewrite Hd.
  assert (Hb : forall kw,
             StocProc_KLE_tol.bisection fuel tolerance kw (2 / 2) 2 None g
             = Some (Ok (None, g))).
  { intros kw. destruct fuel; [rewrite bisection_O|rewrite bisection_S];
      reflexivity. }
  rewrite Hb. reflexivity.
Qed.

End Keys.

(** * The search, probe by probe *)

Section SearchTrace.
Context {NP : Numerics} {EX : External} {KN : Kernels} {SV : Solvers}.
Variable kw : StocProc_KLE_tol.kwargs.
Variable I : option StocProc_KLE.obj -> RNG -> Prop.
Hypothesis I_probe :
  forall c self g o err g',
    3 <= c -> I self g ->
    StocProc_KLE_tol._init_StocProc_KLE_and_get_error (2 * c + 1) kw g
    = Ok (o, err, g') ->
    I (Some o) g'.

Lemma doubling_trace fuel tolerance :
  forall err c self g c' self' g',
    2 <= c -> I self g ->
    StocProc_KLE_tol.doubling fuel tolerance kw err c self g
    = Some (Ok (c', self', g')) ->
    I self' g' /\ (c' = c \/ 2 * c <= c').
Proof.
  induction fuel as [|fuel IH]; intros err c self g c' self' g' Hc HI H.
  - rewrite doubling_O in H. destruct (Fgtb err tolerance); try discriminate.
    inversion H; subst. auto.
  - rewrite doubling_S in H. destruct (Fgtb err tolerance).
    + destruct (StocProc_KLE_tol._init_StocProc_KLE_and_get_error
                  (2 * (c * 2) + 1) kw g) as [[[o e] g1]|] eqn:Hi;
        try discriminate.
      apply IH in H; [|lia|].
      * destruct H as [HI' [->|Hle]]; split; auto; right; lia.
      * apply (I_probe (c := c * 2) (self := self) (g := g) (err := e));
          [lia|exact HI|exact Hi].
    + inversion H; subst. auto.
Qed.

Lemma bisection_trace fuel tolerance :
  forall c_low c_high self g self' g',
    (2 <= c_low \/ c_high - c_low <= 1) -> I self g ->
    StocProc_KLE_tol.bisection fuel tolerance kw c_low c_high self g
    = Some (Ok (self', g')) ->
    I self' g'.
Proof.
  induction fuel as [|fuel IH]; intros c_low c_high self g self' g' Hb HI H.
  - rewrite bisection_O in H. destruct (c_high - c_low >? 1);
      try discriminate. inversion H; subst; assumption.
  - rewrite bisection_S in H.
    destruct (c_high - c_low >? 1) eqn:Hw.
    + apply Z.gtb_lt in Hw.
      assert (Hlo : 2 <= c_low) by lia.
      assert (Hmid : c_low + 1 <= (c_low + c_high) / 2)
        by (apply Z.div_le_lower_bound; lia).
      destruct (StocProc_KLE_tol._init_StocProc_KLE_and_get_error
                  (2 * ((c_low + c_high) / 2) + 1) kw g)
        as [[[o e] g1]|] eqn:Hi; try discriminate.
      assert (HI' : I (Some o) g1).
      { apply (I_probe (c := (c_low + c_high) / 2) (self := self) (g := g)
                 (err := e)); [lia|exact HI|exact Hi]. }
      destruct (Fgtb e tolerance); eapply IH; try exact H; auto; left; lia.
    + inversion H; subst; assumption.
Qed.

Lemma auto_grid_points_trace fuel tolerance g self' g' :
  I None g ->
  StocProc_KLE_tol._auto_grid_points fuel tolerance kw g
  = Some (Ok (self', g')) ->
  I self' g'.
Proof.
  unfold StocProc_KLE_tol._auto_grid_points. intros HI H.
  destruct (StocProc_KLE_tol.doubling fuel tolerance kw Finf 2 None g)
    as [[[[c self] g1]|]|] eqn:Hd; try discriminate.
  apply doubling_trace in Hd; [|lia|exact HI].
  destruct Hd as [HI' Hc].
  eapply bisection_trace; [|exact HI'|exact H].
  destruct Hc as [->|Hc]; [right; reflexivity|].
  left. apply Z.div_le_lower_bound; lia.
Qed.
End SearchTrace.

Section SearchFacts.
Context {NP : Numerics} {EX : External} {KN : Kernels} {SV : Solvers}.

(** X9.  A [StocProc_KLE_tol] engine was initialised, last of all, by
    [StocProc_KLE.__init__] for [2*c + 1] nodes with some [c >= 3] (the
    search never probes [c = 2]): it has an odd number of at least seven
    nodes, and its attributes other than the key are those of that
    initialisation. *)
Theorem KLE_tol_has_at_least_seven_nodes :
  forall fuel r_tau t_max tolerance fac seed k al g o g',
    StocProc_KLE_tol.__init__ fuel r_tau t_max tolerance fac seed k al g
    = Some (Ok (o, g')) ->
    exists c g1 o1,
      3 <= c /\
      StocProc_KLE.__init__ r_tau t_max (2 * c + 1) fac seed
        (Fpow tolerance 2) k al g1 = Ok (o1, g') /\
      StocProc_KLE_tol.kle o
      = StocProc_KLE.set_key
          (Some (r_tau, t_max, inr tolerance, fac, Fpow tolerance 2, al)) o1.
Proof.
  intros fuel r_tau t_max tolerance fac seed k al g o g' H.
  destruct (KLE_tol_init_key_inv _ _ _ _ _ _ _ _ _ H)
    as [self [k0 [k1 [k2 [k3 [k4 [k5 [Ha [Hk Ho]]]]]]]]].
  pose (kw := StocProc_KLE_tol.mk_kwargs r_tau t_max fac seed
                (Fpow tolerance 2) k al).
  assert (HI : match Some self with
               | None => True
               | Some o1 =>
                   exists c g1, 3 <= c /\
                     StocProc_KLE.__init__ r_tau t_max (2 * c + 1) fac seed
                       (Fpow tolerance 2) k al g1 = Ok (o1, g')
               end).
  { refine (@auto_grid_points_trace _ _ _ _ kw
              (fun self g2 =>
                 match self with
                 | None => True
                 | Some o1 =>
                     exists c g1, 3 <= c /\
                       StocProc_KLE.__init__ r_tau t_max (2 * c + 1) fac seed
                         (Fpow tolerance 2) k al g1 = Ok (o1, g2)
                 end) _ fuel tolerance g (Some self) g' I Ha).
    intros c self0 g0 o0 err g0' Hc _ Hp. exists c, g0. split; [exact Hc|].
    apply (init_and_error_is_init _ _ _ Hp). }
  destruct HI as [c [g1 [Hc Hi]]].
  exists c, g1, self. split; [exact Hc|]. split; [exact Hi|].
  rewrite (KLE_init_key _ _ _ _ _ _ _ _ _ Hi) in Hk. inversion Hk; subst.
  reflexivity.
Qed.

Lemma KLE_setstate_seeded A alpha seed k t_max fac g o g' :
  StocProc_KLE.__setstate__ (A, alpha, seed, k, t_max, fac) g = Ok (o, g') ->
  seeded seed g g'.
Proof.
  unfold StocProc_KLE.__setstate__. intros H.
  inv_bind H as [b g1]. inversion H; subst.
  eapply base_init_seeded; eauto.
Qed.

Lemma KLE_init_seeded r_tau t_max ng fac seed sig_min k al g o g' :
  StocProc_KLE.__init__ r_tau t_max ng fac seed sig_min k al g = Ok (o, g') ->
  seeded seed g g'.
Proof.
  unfold StocProc_KLE.__init__. intros H.
  inv_bind H as [times w]. inv_bind H as r.
  inv_bind H as [eig_val eig_vec0]. inv_bind H as eig_vec.
  inv_bind H as wu. inv_bind H as A. inv_bind H as fine.
  inv_bind H as alpha. inv_bind H as [self g1].
  inversion H; subst.
  eapply KLE_setstate_seeded; eauto.
Qed.

(** X10.  A constructor that is given a seed leaves the process-wide
    generator in the state [np.random.seed(seed)] gives, whatever its state
    was; without a seed it leaves the generator as it was.  This holds for
    the three constructors (every probe of the search seeds anew) and for
    the import of a snapshot, which seeds with the seed the snapshot
    holds. *)
Theorem constructors_seed_the_generator :
  (forall r_tau t_max ng fac seed sig_min k al g o g',
      StocProc_KLE.__init__ r_tau t_max ng fac seed sig_min k al g
      = Ok (o, g') -> seeded seed g g') /\
  (forall fuel r_tau t_max tolerance fac seed k al g o g',
      StocProc_KLE_tol.__init__ fuel r_tau t_max tolerance fac seed k al g
      = Some (Ok (o, g')) -> seeded seed g g') /\
  (forall sd t_max bcf_ref intgr_tol intpl_tol seed k neg g o g',
      StocProc_FFT_tol.__init__ sd t_max bcf_ref intgr_tol intpl_tol seed k
        neg g = Ok (o, g') -> seeded seed g g') /\
  (forall A alpha seed k t_max fac g o g',
      StocProc_KLE.__setstate__ (A, alpha, seed, k, t_max, fac) g
      = Ok (o, g') -> seeded seed g g') /\
  (forall yl n omc t_max seed k g o g',
      StocProc_FFT_tol.__setstate__ (yl, n, omc, t_max, seed, k) g
      = Ok (o, g') -> seeded seed g g').
Proof.
  split; [|split; [|split; [|split]]].
  - intros. eapply KLE_init_seeded; eauto.
  - intros fuel r_tau t_max tolerance fac seed k al g o g' H.
    destruct (KLE_tol_init_key_inv _ _ _ _ _ _ _ _ _ H)
      as [self [k0 [k1 [k2 [k3 [k4 [k5 [Ha [Hk Ho]]]]]]]]].
    pose (kw := StocProc_KLE_tol.mk_kwargs r_tau t_max fac seed
                  (Fpow tolerance 2) k al).
    assert (HI : (Some self = None /\ g' = g) \/ seeded seed g g').
    { refine (@auto_grid_points_trace _ _ _ _ kw
                (fun self g2 => (self = None /\ g2 = g) \/ seeded seed g g2)
                _ fuel tolerance g (Some self) g' (or_introl (conj eq_refl eq_refl))
                Ha).
      intros c self0 g0 o0 err g0' Hc HI Hp. right.
      apply init_and_error_is_init in Hp. apply KLE_init_seeded in Hp.
      simpl in Hp. destruct seed as [s|]; simpl in *; [exact Hp|].
      destruct HI as [[_ ->]| ->]; exact Hp. }
    destruct HI as [[Hn _]|HI]; [discriminate|exact HI].
  - intros sd t_max bcf_ref intgr_tol intpl_tol seed k neg g o g' H.
    unfold StocProc_FFT_tol.__init__ in H.
    inv_bind H as [[[[a b] N] dx] dt].
    destruct (Fltb _ _); try discriminate.
    inv_bind H as [b0 gg]. inversion H; subst.
    eapply base_init_seeded; eauto.
  - intros. eapply KLE_setstate_seeded; eauto.
  - intros yl n omc t_max seed k g o g' H.
    unfold StocProc_FFT_tol.__setstate__ in H.
    inv_bind H as [b gg]. inversion H; subst.
    eapply base_init_seeded; eauto.
Qed.

(** *** Termination of the second loop *)

Lemma bisection_terminates fuel tolerance kw :
  forall c_low c_high self g,
    c_high - c_low <= Z.of_nat fuel ->
    StocProc_KLE_tol.bisection fuel tolerance kw c_low c_high self g <> None.
Proof.
  induction fuel as [|fuel IH]; intros c_low c_high self g Hw.
  - rewrite bisection_O.
    destruct (c_high - c_low >? 1) eqn:Hg; [|discriminate].
    apply Z.gtb_lt in Hg. lia.
  - rewrite bisection_S.
    destruct (c_high - c_low >? 1) eqn:Hg; [|discriminate].
    apply Z.gtb_lt in Hg.
    assert (Hmid : c_low + 1 <= (c_low + c_high) / 2)
      by (apply Z.div_le_lower_bound; lia).
    assert (Hmid' : (c_low + c_high) / 2 < c_high)
      by (apply Z.div_lt_upper_bound; lia).
    destruct (StocProc_KLE_tol._init_StocProc_KLE_and_get_error _ kw g)
      as [[[o e] g1]|]; [|discriminate].
    destruct (Fgtb e tolerance); apply IH; lia.
Qed.

Lemma doubling_more_fuel tolerance kw fuel :
  forall err c self g r more,
    StocProc_KLE_tol.doubling fuel tolerance kw err c self g = Some r ->
    StocProc_KLE_tol.doubling (fuel + more) tolerance kw err c self g = Some r.
Proof.
  induction fuel as [|fuel IH]; intros err c self g r more H.
  - rewrite doubling_O in H.
    destruct (Fgtb err tolerance) eqn:He; try discriminate.
    destruct more; simpl plus; [rewrite doubling_O|rewrite doubling_S];
      rewrite He; exact H.
  - change (S fuel + more)%nat with (S (fuel + more)).
    rewrite doubling_S in *. destruct (Fgtb err tolerance); [|exact H].
    destruct (StocProc_KLE_tol._init_StocProc_KLE_and_get_error _ kw g)
      as [[[o e] g1]|]; [|exact H].
    apply IH. exact H.
Qed.

(** X11.  The search terminates as soon as its first loop does: when the
    doubling reaches a probe that meets the tolerance (or raises) within
    [fuel] iterations, [_auto_grid_points] returns or raises within
    [fuel + c] iterations of either loop, [c] being the value the doubling
    stopped at.  The bisection always ends, after fewer probes than the
    width of its bracket. *)
Theorem search_terminates_after_the_doubling :
  forall fuel tolerance kw g r,
    StocProc_KLE_tol.doubling fuel tolerance kw Finf 2 None g = Some r ->
    exists bound,
      forall more,
        StocProc_KLE_tol._auto_grid_points (fuel + bound + more) tolerance kw g
        <> None.
Proof.
  intros fuel tolerance kw g r Hd.
  exists (match r with
          | Ok (c, _, _) => Z.to_nat c
          | Raise _ => O
          end).
  intros more. unfold StocProc_KLE_tol._auto_grid_points.
  rewrite <- Nat.add_assoc.
  rewrite (doubling_more_fuel _ _ _ _ _ _ _ _ Hd).
  destruct r as [[[c self] g1]|ex]; [|discriminate].
  apply bisection_terminates.
  assert (Hc : 2 <= c).
  { assert (HT : True /\ (c = 2 \/ 2 * 2 <= c)).
    { refine (@doubling_trace _ _ _ _ kw (fun _ _ => True) _ fuel tolerance
                Finf 2 None g c self g1 _ I Hd); [auto|lia]. }
    lia. }
  assert (Hhalf : 1 <= c / 2) by (apply Z.div_le_lower_bound; lia).
  lia.
Qed.

End SearchFacts.

Section KeysRuns.
Import Toy.

Lemma import_then_export_is_identity_witness :
  is_ok (StocProc_KLE.__setstate__
           (StocProc_KLE.__getstate__ ToyRun.kle) ToyRun.g0) = true /\
  StocProc_KLE.__getstate__
    (fst (returned (StocProc_KLE.__setstate__
                      (StocProc_KLE.__getstate__ ToyRun.kle) ToyRun.g0) eq_refl))
  = StocProc_KLE.__getstate__ ToyRun.kle.
Proof.
  split; [reflexivity|].
  destruct (import_then_export_is_identity (NP := numerics) (EX := external))
    as [T _].
  apply (T (StocProc_KLE.__getstate__ ToyRun.kle) ToyRun.g0 _
           (snd (returned (StocProc_KLE.__setstate__
                             (StocProc_KLE.__getstate__ ToyRun.kle) ToyRun.g0)
                   eq_refl))).
  rewrite <- surjective_pairing. apply returned_spec.
Defined.

Lemma getkey_after_init_and_after_import_witness :
  ToyRun.kle_init 2 = Ok (ToyRun.kle, ToyRun.g0) /\
  _getkey (fst (run (KLE ToyRun.kle, ToyRun.g0) ToyRun.short_history))
  = Ok ("StocProc_KLE"%string, (ToyRun.r_tau, 4, inl 3, 2, 1, false)) /\
  constructed (KLE ToyRun.kle) /\
  exists e' g',
    export_import
      (fst (run (KLE ToyRun.kle, ToyRun.g0) ToyRun.short_history)) ToyRun.g0
    = Ok (e', g') /\
    _getkey e' = Raise AttributeError.
Proof.
  destruct (getkey_after_init_and_after_import (NP := numerics)
              (EX := external) (KN := kernels) (SV := solvers)) as [T1 T2].
  assert (Hi : ToyRun.kle_init 2 = Ok (ToyRun.kle, ToyRun.g0)) by reflexivity.
  split; [exact Hi|]. split.
  - apply (T1 ToyRun.r_tau 4 3 2 None 1 3 false ToyRun.g0 ToyRun.kle
              ToyRun.g0 ToyRun.g0 ToyRun.short_history Hi).
  - split; [exact toy_kle_constructed|].
    assert (Hok : is_ok (export_import
                           (fst (run (KLE ToyRun.kle, ToyRun.g0)
                                   ToyRun.short_history)) ToyRun.g0) = true)
      by reflexivity.
    destruct (export_import
                (fst (run (KLE ToyRun.kle, ToyRun.g0) ToyRun.short_history))
                ToyRun.g0) as [[e' g']|ex] eqn:He; [|discriminate].
    exists e', g'. split; [reflexivity|].
    apply (T2 (KLE ToyRun.kle) ToyRun.g0 ToyRun.short_history ToyRun.g0 e' g'
              toy_kle_constructed He).
Defined.

Lemma toy_kle_tol_init :
  ToyRun.kle_tol_init = Some (Ok (ToyRun.kle_tol, ToyRun.g0)).
Proof. reflexivity. Defined.

Lemma KLE_tol_key_holds_the_tolerance_witness :
  ToyRun.kle_tol_init = Some (Ok (ToyRun.kle_tol, ToyRun.g0)) /\
  _getkey (KLE_tol ToyRun.kle_tol)
  = Ok ("StocProc_KLE_tol"%string, (ToyRun.r_tau, 4, inr 1, 2, 1, false)).
Proof.
  split; [exact toy_kle_tol_init|].
  apply (KLE_tol_key_holds_the_tolerance (NP := numerics) (EX := external)
           (KN := kernels) (SV := solvers) 5 ToyRun.r_tau 4 1 2 None 3 false
           ToyRun.g0 toy_kle_tol_init).
Defined.

Lemma KLE_tol_without_probe_raises_witness :
  Fgtb Finf (2 ^ 1024) = false /\
  StocProc_KLE_tol.__init__ 3 ToyRun.r_tau 4 (2 ^ 1024) 2 None 3 false
    ToyRun.g0
  = Some (Raise AttributeError).
Proof.
  assert (H : Fgtb Finf (2 ^ 1024) = false) by reflexivity.
  split; [exact H|].
  apply (KLE_tol_without_probe_raises (NP := numerics) (EX := external)
           (KN := kernels) (SV := solvers) 3 ToyRun.r_tau 4 (2 ^ 1024) 2
           None 3 false ToyRun.g0 H).
Defined.

Lemma KLE_tol_has_at_least_seven_nodes_witness :
  ToyRun.kle_tol_init = Some (Ok (ToyRun.kle_tol, ToyRun.g0)) /\
  exists c g1 o1,
    3 <= c /\
    StocProc_KLE.__init__ ToyRun.r_tau 4 (2 * c + 1) 2 None (Fpow 1 2) 3 false
      g1 = Ok (o1, ToyRun.g0) /\
    StocProc_KLE_tol.kle ToyRun.kle_tol
    = StocProc_KLE.set_key
        (Some (ToyRun.r_tau, 4, inr 1, 2, Fpow 1 2, false)) o1.
Proof.
  split; [exact toy_kle_tol_init|].
  apply (KLE_tol_has_at_least_seven_nodes (NP := numerics) (EX := external)
           (KN := kernels) (SV := solvers) 5 ToyRun.r_tau 4 1 2 None 3 false
           ToyRun.g0 toy_kle_tol_init).
Defined.

Lemma constructors_seed_the_generator_witness :
  is_ok ToyRun.kle_seeded_init = true /\
  np_random_seed 7 = Ok (snd (returned ToyRun.kle_seeded_init eq_refl)) /\
  seeded None ToyRun.g0 ToyRun.g0.
Proof.
  destruct (constructors_seed_the_generator (NP := numerics)
              (EX := external) (KN := kernels) (SV := solvers))
    as [T1 [T2 _]].
  split; [reflexivity|]. split.
  - apply (T1 ToyRun.r_tau 4 3 2 (Some 7) 1 3 false ToyRun.g0
              (fst (returned ToyRun.kle_seeded_init eq_refl))
              (snd (returned ToyRun.kle_seeded_init eq_refl))).
    rewrite <- surjective_pairing. apply returned_spec.
  - apply (T2 5%nat ToyRun.r_tau 4 1 2 None 3 false ToyRun.g0 ToyRun.kle_tol
              ToyRun.g0 toy_kle_tol_init).
Defined.

Lemma search_terminates_after_the_doubling_witness :
  is_ok (match StocProc_KLE_tol.doubling 1 ToyRun.tol_one ToyRun.kw Finf 2 None ToyRun.g0
         with Some r => r | None => Raise RuntimeError end) = true /\
  exists bound,
    forall more,
      StocProc_KLE_tol._auto_grid_points (1 + bound + more) ToyRun.tol_one ToyRun.kw
        ToyRun.g0 <> None.
Proof.
  assert (Hok : is_ok (match StocProc_KLE_tol.doubling 1 ToyRun.tol_one ToyRun.kw Finf 2
                               None ToyRun.g0
                       with Some r => r | None => Raise RuntimeError end)
                = true) by reflexivity.
  split; [exact Hok|].
  destruct (StocProc_KLE_tol.doubling 1 ToyRun.tol_one ToyRun.kw Finf 2 None ToyRun.g0)
    as [r|] eqn:Hd.
  - apply (search_terminates_after_the_doubling (NP := numerics)
             (EX := external) (KN := kernels) (SV := solvers) 1 ToyRun.tol_one ToyRun.kw
             ToyRun.g0 Hd).
  - discriminate Hok.
Defined.

End KeysRuns.

(** * The matrices of the KLE engine *)

Section Matrices.
Context {NP : Numerics} {EX : External} {KN : Kernels} {SV : Solvers}.

Lemma corr_matrix_inv (s : list F) (bcf : F -> C) (r : ndarray2 C) (d : F) :
  StocProc_KLE._calc_corr_matrix s bcf = Ok r ->
  exists v,
    length v = (2 * length s - 1)%nat /\
    (forall k, (k < length s)%nat ->
               nth (length s - 1 + k) v np_empty
               = bcf (Fsub (nth k s d) (nth 0 s d))) /\
    (forall k, (1 <= k < length s)%nat ->
               nth (length s - 1 - k) v np_empty
               = Cconj (bcf (Fsub (nth k s d) (nth 0 s d)))) /\
    shape0 r = length s /\ shape1 r = length s /\
    (forall i j, (i < length s)%nat -> (j < length s)%nat ->
                 item np_empty r i j
                 = nth (length s - 1 - j + i) v np_empty).
Proof.
  intros H.
  assert (Hs : s <> []).
  { intros ->. unfold StocProc_KLE._calc_corr_matrix,
      StocProc_KLE._calc_corr_min_t_plus_t in H. discriminate. }
  destruct (doubled_vector_spec bcf d Hs) as [v [Hv [Hlen [Hpos Hneg]]]].
  destruct (@fill_columns_spec _ (length s) v Hlen) as [r' [Hr [H0 [H1 Hitem]]]].
  unfold StocProc_KLE._calc_corr_matrix in H. rewrite Hv in H.
  cbn [bind] in H. rewrite Hr in H. inversion H; subst r'.
  exists v. auto 10.
Qed.

(** X12.  The matrix [_calc_corr_matrix] returns, for any grid and any
    function (no symmetry of the function is needed): it is square with one
    row for each grid point, constant along its diagonals, its entries
    above the diagonal are the conjugates of their mirror images, and its
    diagonal holds the value of the function at [s_0 - s_0].  On an empty
    grid the function raises [IndexError] (it reads [s[0]]). *)
Theorem corr_matrix_is_toeplitz_and_hermitian :
  (forall bcf : F -> C,
      StocProc_KLE._calc_corr_min_t_plus_t [] bcf = Raise IndexError /\
      StocProc_KLE._calc_corr_matrix [] bcf = Raise IndexError) /\
  (forall (s : list F) (bcf : F -> C) (r : ndarray2 C) (d : F),
      StocProc_KLE._calc_corr_matrix s bcf = Ok r ->
      shape0 r = length s /\ shape1 r = length s /\
      (forall i j, (S i < length s)%nat -> (S j < length s)%nat ->
                   item np_empty r (S i) (S j) = item np_empty r i j) /\
      (forall i j, (j < i < length s)%nat ->
                   item np_empty r j i = Cconj (item np_empty r i j)) /\
      (forall i, (i < length s)%nat ->
                 item np_empty r i i
                 = bcf (Fsub (nth 0 s d) (nth 0 s d)))).
Proof.
  split; [intros bcf; split; reflexivity|].
  intros s bcf r d H.
  destruct (corr_matrix_inv s bcf d H)
    as [v [Hlen [Hpos [Hneg [H0 [H1 Hitem]]]]]].
  split; [exact H0|]. split; [exact H1|]. split; [|split].
  - intros i j Hi Hj. rewrite !Hitem by lia. f_equal. lia.
  - intros i j Hij. rewrite !Hitem by lia.
    replace (length s - 1 - i + j)%nat with (length s - 1 - (i - j))%nat
      by lia.
    replace (length s - 1 - j + i)%nat with (length s - 1 + (i - j))%nat
      by lia.
    rewrite Hneg, Hpos by lia. reflexivity.
  - intros i Hi. rewrite Hitem by lia.
    replace (length s - 1 - i + i)%nat with (length s - 1 + 0)%nat by lia.
    apply Hpos. lia.
Qed.

(** *** [align_eig_vec] *)

Lemma column_nth {A : Type} (d : A) (x : ndarray2 A) (j i : nat) :
  (i < shape0 x)%nat -> nth i (column d x j) d = item d x i j.
Proof.
  intros Hi. unfold column.
  rewrite (nth_map_lt (fun i => item d x i j) (seq 0 (shape0 x)) 0%nat d)
    by (rewrite length_seq; exact Hi).
  rewrite seq_nth by exact Hi. reflexivity.
Qed.

Lemma column_length {A : Type} (d : A) (x : ndarray2 A) (j : nat) :
  length (column d x j) = shape0 x.
Proof. unfold column. rewrite length_map, length_seq. reflexivity. Qed.

Lemma column_ext {A : Type} (d : A) (x y : ndarray2 A) (j : nat) :
  shape0 x = shape0 y ->
  (forall i, (i < shape0 y)%nat -> item d x i j = item d y i j) ->
  column d x j = column d y j.
Proof.
  intros Hs H. unfold column. rewrite Hs. apply map_ext_in.
  intros i Hi. apply in_seq in Hi. apply H. lia.
Qed.

Lemma bidx_lt (n i : nat) : (i < n)%nat -> bidx n i = i.
Proof.
  intros Hi. unfold bidx. destruct (Nat.eqb_spec n 1); [lia|reflexivity].
Qed.

Lemma align_spec (ev : ndarray2 C) :
  exists ev',
    StocProc_KLE.align ev = Ok ev' /\
    shape0 ev' = shape0 ev /\ shape1 ev' = shape1 ev /\
    forall i j, (i < shape0 ev)%nat -> (j < shape1 ev)%nat ->
                item np_empty ev' i j
                = Cdiv (item np_empty ev i j)
                       (column_phase (column np_empty ev j)).
Proof.
  unfold StocProc_KLE.align, range.
  destruct (@for_in_seq_invariant _
              (fun m x =>
                 shape0 x = shape0 ev /\ shape1 x = shape1 ev /\
                 forall i j, (i < shape0 ev)%nat -> (j < shape1 ev)%nat ->
                             item np_empty x i j
                             = if (j <? m)%nat
                               then Cdiv (item np_empty ev i j)
                                         (column_phase (column np_empty ev j))
                               else item np_empty ev i j)
              (fun i x =>
                 let s := np_sum (column np_empty x i) in
                 let phase :=
                   Cexp (Cmul Cj (C_of_F (Farctan2 (Cre s) (Cim s)))) in
                 set_column np_empty x i
                   (map (fun c => Cdiv c phase) (column np_empty x i)))
              (shape1 ev) 0%nat ev)
    as [ev' [Hr [H0 [H1 Hitem]]]].
  - intros m x Hm [Hx0 [Hx1 Hx]]. cbv zeta.
    assert (Hcol : column np_empty x m = column np_empty ev m).
    { apply column_ext; [exact Hx0|]. intros i Hi.
      rewrite Hx by lia. rewrite Nat.ltb_irrefl. reflexivity. }
    rewrite Hcol. unfold set_column.
    rewrite length_map, column_length, Hx0, Nat.eqb_refl.
    simpl orb. cbv iota.
    eexists. split; [reflexivity|]. simpl. rewrite Hx1.
    split; [reflexivity|]. split; [reflexivity|].
    intros i j Hi Hj. rewrite item_tabulate by lia.
    destruct (Nat.eqb_spec j m) as [->|Hne].
    + rewrite bidx_lt by exact Hi.
      rewrite (nth_map_lt (fun c => Cdiv c _) _ np_empty np_empty)
        by (rewrite column_length; exact Hi).
      rewrite column_nth by exact Hi.
      assert (Hlt : (m <? S m)%nat = true) by (apply Nat.ltb_lt; lia).
      rewrite Hlt. reflexivity.
    + rewrite Hx by lia.
      destruct (Nat.ltb_spec j m); destruct (Nat.ltb_spec j (S m));
        try reflexivity; lia.
  - split; [reflexivity|]. split; [reflexivity|].
    intros i j Hi Hj. reflexivity.
  - exists ev'. simpl in Hitem. split; [exact Hr|].
    split; [exact H0|]. split; [exact H1|].
    intros i j Hi Hj. rewrite Hitem by assumption.
    assert (Hlt : (j <? shape1 ev)%nat = true) by (apply Nat.ltb_lt; lia).
    rewrite Hlt. reflexivity.
Qed.

(** What [__init__] of [StocProc_KLE] computes, step by step. *)
Lemma KLE_init_parts r_tau t_max ng fac seed sig_min k al g o g'
      times w r eig_val ev0 :
  get_mid_point_weights_times t_max ng = Ok (times, w) ->
  StocProc_KLE._calc_corr_matrix times r_tau = Ok r ->
  solve_hom_fredholm r w (Fpow sig_min 2) = Ok (eig_val, ev0) ->
  StocProc_KLE.__init__ r_tau t_max ng fac seed sig_min k al g = Ok (o, g') ->
  exists ev wu A fine alpha b,
    (if al then StocProc_KLE.align ev0 else Ok ev0) = Ok ev /\
    np_binop2 (fun a b => Cmul (C_of_F a) b) (F_of_Z 0) np_empty
      (as_column w) ev = Ok wu /\
    np_binop2 (fun a b => Cdiv a (C_of_F b)) np_empty (F_of_Z 0)
      wu (as_row (map Fsqrt eig_val)) = Ok A /\
    np_linspace (F_of_Z 0) t_max (fac * (ng - 1) + 1) = Ok fine /\
    StocProc_KLE._calc_corr_min_t_plus_t fine r_tau = Ok alpha /\
    _absStocProc.__init__ t_max (fac * (Z.of_nat (shape0 A) - 1) + 1) seed k g
    = Ok (b, g') /\
    o = StocProc_KLE.mk b A alpha fac (if fac =? 1 then false else true)
          (shape1 A)
          (Some (r_tau, t_max, inl ng, fac, sig_min, al))
          (Some times) (Some w) (Some eig_val) (Some ev) None.
Proof.
  intros Hq Hr Hsolve H. unfold StocProc_KLE.__init__ in H.
  change (String.eqb StocProc_KLE.METHOD "midp") with true in H.
  cbv iota in H. rewrite Hq in H. cbn [bind] in H. cbv beta iota in H.
  rewrite Hr in H. cbn [bind] in H. rewrite Hsolve in H.
  cbn [bind] in H. cbv beta iota in H.
  inv_bind H as ev. inv_bind H as wu. inv_bind H as A. inv_bind H as fine.
  inv_bind H as alpha. inv_bind H as [self g1].
  inversion H; subst. clear H.
  unfold StocProc_KLE.__setstate__ in Hb4. inv_bind Hb4 as [b gg].
  inversion Hb4; subst. simpl.
  exists ev, wu, A, fine, alpha, b. auto 10.
Qed.

(** X13.  The eigenvectors [__init__] keeps are the solver's when
    [align_eig_vec] is off; when it is on, every column is the solver's
    column divided by [exp(1j*arctan2(re(s), im(s)))], [s] being the sum of
    that column: the alignment never raises, keeps the shape and treats
    each column on its own. *)
Theorem stored_eigenvectors_are_aligned_columnwise :
  forall r_tau t_max ng fac seed sig_min k al g o g' times w r eig_val ev0,
    get_mid_point_weights_times t_max ng = Ok (times, w) ->
    StocProc_KLE._calc_corr_matrix times r_tau = Ok r ->
    solve_hom_fredholm r w (Fpow sig_min 2) = Ok (eig_val, ev0) ->
    StocProc_KLE.__init__ r_tau t_max ng fac seed sig_min k al g
    = Ok (o, g') ->
    exists ev,
      StocProc_KLE._eig_vec o = Some ev /\
      shape0 ev = shape0 ev0 /\ shape1 ev = shape1 ev0 /\
      forall i j, (i < shape0 ev0)%nat -> (j < shape1 ev0)%nat ->
                  item np_empty ev i j
                  = if al
                    then Cdiv (item np_empty ev0 i j)
                              (column_phase (column np_empty ev0 j))
                    else item np_empty ev0 i j.
Proof.
  intros r_tau t_max ng fac seed sig_min k al g o g' times w r eig_val ev0
         Hq Hr Hsolve H.
  destruct (KLE_init_parts _ _ _ _ _ _ _ _ _ Hq Hr Hsolve H)
    as [ev [wu [A [fine [alpha [b [Hev [_ [_ [_ [_ [_ Ho]]]]]]]]]]]].
  exists ev. subst o. split; [reflexivity|].
  destruct al.
  - destruct (align_spec ev0) as [ev' [Ha [H0 [H1 Hitem]]]].
    rewrite Ha in Hev. inversion Hev; subst ev'. auto.
  - inversion Hev; subst ev. auto.
Qed.

Lemma np_binop2_item {A B D : Type} (f : A -> B -> D) dx dy d x y z :
  np_binop2 f dx dy x y = Ok z ->
  forall i j, (i < shape0 z)%nat -> (j < shape1 z)%nat ->
              item d z i j
              = f (item dx x (bidx (shape0 x) i) (bidx (shape1 x) j))
                  (item dy y (bidx (shape0 y) i) (bidx (shape1 y) j)).
Proof.
  unfold np_binop2. intros H. inv_bind H as n. inv_bind H as m.
  inversion H; subst. intros i j Hi Hj.
  simpl in Hi, Hj. rewrite item_tabulate by assumption. reflexivity.
Qed.

Lemma broadcast_dim_1_r n : broadcast_dim n 1 = Ok n.
Proof.
  unfold broadcast_dim. destruct (Nat.eqb_spec n 1) as [->|Hn]; reflexivity.
Qed.

Lemma item_as_column {A : Type} (d : A) (v : list A) (i : nat) :
  (i < length v)%nat -> item d (as_column v) i 0 = nth i v d.
Proof.
  intros Hi. unfold item, row, as_column. simpl.
  rewrite (nth_map_lt (fun a => [a]) v d []) by exact Hi. reflexivity.
Qed.

Lemma KLE_A_shape (w : list F) (sq : list F) (ev wu A : ndarray2 C) :
  length w = shape0 ev -> length sq = shape1 ev ->
  np_binop2 (fun a b => Cmul (C_of_F a) b) (F_of_Z 0) np_empty
    (as_column w) ev = Ok wu ->
  np_binop2 (fun a b => Cdiv a (C_of_F b)) np_empty (F_of_Z 0)
    wu (as_row sq) = Ok A ->
  shape0 wu = shape0 ev /\ shape1 wu = shape1 ev /\
  shape0 A = shape0 ev /\ shape1 A = shape1 ev.
Proof.
  intros Hw Hsq Hwu HA.
  apply np_binop2_shape in Hwu. destruct Hwu as [Hwu0 Hwu1].
  apply np_binop2_shape in HA. destruct HA as [HA0 HA1].
  simpl in Hwu0, Hwu1, HA0, HA1.
  rewrite Hw, broadcast_dim_same in Hwu0. inversion Hwu0 as [E0].
  rewrite broadcast_dim_1_l in Hwu1. inversion Hwu1 as [E1].
  rewrite broadcast_dim_1_r in HA0. inversion HA0 as [E2].
  rewrite <- E1, Hsq, broadcast_dim_same in HA1. inversion HA1 as [E3].
  repeat split; congruence.
Qed.

(** X14.  The projection matrix: when the eigenvectors have one row for
    each weight and one column for each eigenvalue, [_A] has their shape
    and its entry [(i, j)] is [w_i * u_ij / sqrt(lambda_j)], [u] being the
    eigenvectors [__init__] keeps. *)
Theorem projection_matrix_entries :
  forall r_tau t_max ng fac seed sig_min k al g o g' times w r eig_val ev0,
    get_mid_point_weights_times t_max ng = Ok (times, w) ->
    StocProc_KLE._calc_corr_matrix times r_tau = Ok r ->
    solve_hom_fredholm r w (Fpow sig_min 2) = Ok (eig_val, ev0) ->
    length w = shape0 ev0 ->
    length eig_val = shape1 ev0 ->
    StocProc_KLE.__init__ r_tau t_max ng fac seed sig_min k al g
    = Ok (o, g') ->
    exists ev,
      StocProc_KLE._eig_vec o = Some ev /\
      shape0 (StocProc_KLE._A o) = length w /\
      shape1 (StocProc_KLE._A o) = length eig_val /\
      forall i j, (i < length w)%nat -> (j < length eig_val)%nat ->
                  item np_empty (StocProc_KLE._A o) i j
                  = Cdiv (Cmul (C_of_F (nth i w (F_of_Z 0)))
                               (item np_empty ev i j))
                         (C_of_F (Fsqrt (nth j eig_val (F_of_Z 0)))).
Proof.
  intros r_tau t_max ng fac seed sig_min k al g o g' times w r eig_val ev0
         Hq Hr Hsolve Hw Hval H.
  destruct (KLE_init_parts _ _ _ _ _ _ _ _ _ Hq Hr Hsolve H)
    as [ev [wu [A [fine [alpha [b [Hev [Hwu [HA [_ [_ [_ Ho]]]]]]]]]]]].
  assert (Hshape : shape0 ev = shape0 ev0 /\ shape1 ev = shape1 ev0).
  { destruct al; [|inversion Hev; auto].
    destruct (align_spec ev0) as [ev' [Ha [H0 [H1 _]]]].
    rewrite Ha in Hev. inversion Hev; subst ev'. auto. }
  destruct Hshape as [Hs0 Hs1].
  assert (Hw' : length w = shape0 ev) by congruence.
  assert (Hsq : length (map Fsqrt eig_val) = shape1 ev)
    by (rewrite length_map; congruence).
  destruct (@KLE_A_shape w _ ev wu A Hw' Hsq Hwu HA) as [Hwu0 [Hwu1 [HA0 HA1]]].
  exists ev. subst o. cbn [StocProc_KLE._eig_vec StocProc_KLE._A].
  split; [reflexivity|]. split; [congruence|]. split; [congruence|].
  intros i j Hi Hj.
  assert (Hi1 : (i < shape0 A)%nat) by lia.
  assert (Hj1 : (j < shape1 A)%nat) by lia.
  assert (Hi2 : (i < shape0 wu)%nat) by lia.
  assert (Hj2 : (j < shape1 wu)%nat) by lia.
  assert (Hj3 : (j < length (map Fsqrt eig_val))%nat) by lia.
  rewrite (@np_binop2_item _ _ _ _ _ _ np_empty _ _ _ HA i j Hi1 Hj1).
  cbn [shape0 shape1 as_row].
  rewrite (bidx_lt Hi2), (bidx_lt Hj2), (bidx_lt Hj3).
  rewrite (@np_binop2_item _ _ _ _ _ _ np_empty _ _ _ Hwu i j Hi2 Hj2).
  cbn [shape0 shape1 as_column].
  rewrite (bidx_lt Hi).
  rewrite (bidx_lt (n := shape0 ev) (i := i)) by lia.
  rewrite (bidx_lt (n := shape1 ev) (i := j)) by lia.
  change (bidx 1 i) with 0%nat. change (bidx 1 j) with 0%nat.
  rewrite item_as_column by exact Hi.
  change (item (F_of_Z 0) (as_row (map Fsqrt eig_val)) 0 j)
    with (nth j (map Fsqrt eig_val) (F_of_Z 0)).
  rewrite (nth_map_lt Fsqrt eig_val (F_of_Z 0) (F_of_Z 0)) by exact Hj.
  reflexivity.
Qed.

(** X15.  The sizes of a KLE engine: when the quadrature returned
    [ng_fredholm] nodes ([ng_fredholm >= 1]) and the eigenvectors have one
    row for each of them, the time grid has
    [ng_fac*(ng_fredholm - 1) + 1] points and the lag vector [alpha_k] has
    twice as many entries less one, one for each difference of two grid
    points. *)
Theorem KLE_grid_and_lag_sizes :
  forall r_tau t_max ng fac seed sig_min k al g o g' times w r eig_val ev0,
    get_mid_point_weights_times t_max ng = Ok (times, w) ->
    StocProc_KLE._calc_corr_matrix times r_tau = Ok r ->
    solve_hom_fredholm r w (Fpow sig_min 2) = Ok (eig_val, ev0) ->
    1 <= ng ->
    length w = Z.to_nat ng ->
    shape0 ev0 = length w ->
    StocProc_KLE.__init__ r_tau t_max ng fac seed sig_min k al g
    = Ok (o, g') ->
    _absStocProc.num_grid_points (StocProc_KLE.base o)
    = fac * (ng - 1) + 1 /\
    length (_absStocProc.get_time (KLE o))
    = Z.to_nat (fac * (ng - 1) + 1) /\
    (1 <= length (_absStocProc.get_time (KLE o)))%nat /\
    length (StocProc_KLE.alpha_k o)
    = (2 * length (_absStocProc.get_time (KLE o)) - 1)%nat.
Proof.
  intros r_tau t_max ng fac seed sig_min k al g o g' times w r eig_val ev0
         Hq Hr Hsolve Hng Hw Hrows H.
  destruct (KLE_init_parts _ _ _ _ _ _ _ _ _ Hq Hr Hsolve H)
    as [ev [wu [A [fine [alpha [b [Hev [Hwu [HA [Hfine [Halpha [Hb Ho]]]]]]]]]]]].
  assert (Hs0 : shape0 ev = shape0 ev0).
  { destruct al; [|inversion Hev; auto].
    destruct (align_spec ev0) as [ev' [Ha [H0 _]]].
    rewrite Ha in Hev. inversion Hev; subst ev'. auto. }
  assert (HA0 : shape0 A = length w).
  { apply np_binop2_shape in Hwu. destruct Hwu as [Hwu0 _].
    apply np_binop2_shape in HA. destruct HA as [HA0 _].
    simpl in Hwu0, HA0.
    rewrite Hs0, Hrows, broadcast_dim_same in Hwu0. inversion Hwu0 as [E0].
    rewrite broadcast_dim_1_r in HA0. inversion HA0. congruence. }
  assert (Hn : Z.of_nat (shape0 A) = ng) by (rewrite HA0, Hw; lia).
  rewrite Hn in Hb.
  destruct (base_init_fields _ _ _ _ _ Hb) as [_ [Hngp _]].
  pose proof (base_init_grid _ _ _ _ _ Hb) as Hgrid.
  rewrite Hfine in Hgrid. inversion Hgrid as [Ht].
  destruct (np_linspace_length _ _ _ Hfine) as [Hlen Hpos].
  assert (Hne : fine <> []).
  { intros ->. unfold StocProc_KLE._calc_corr_min_t_plus_t in Halpha.
    discriminate. }
  destruct (doubled_vector_spec r_tau (F_of_Z 0) Hne)
    as [v [Hv [Hvlen _]]].
  rewrite Hv in Halpha. inversion Halpha; subst v.
  subst o. unfold _absStocProc.get_time. simpl.
  rewrite <- Ht.
  split; [exact Hngp|]. split; [exact Hlen|]. split; [|exact Hvlen].
  destruct fine; [contradiction|simpl; lia].
Qed.

End Matrices.

Section MatricesRuns.
Import Toy.

Lemma toy_lag_corr :
  StocProc_KLE._calc_corr_matrix ToyRun.lag_grid ToyRun.lag_kernel
  = Ok ToyRun.lag_corr.
Proof. reflexivity. Defined.

Lemma corr_matrix_is_toeplitz_and_hermitian_witness :
  StocProc_KLE._calc_corr_matrix ToyRun.lag_grid ToyRun.lag_kernel
  = Ok ToyRun.lag_corr /\
  shape0 ToyRun.lag_corr = 3%nat /\
  item np_empty ToyRun.lag_corr 2 2 = item np_empty ToyRun.lag_corr 1 1 /\
  item np_empty ToyRun.lag_corr 0 2
  = Cconj (item np_empty ToyRun.lag_corr 2 0) /\
  item np_empty ToyRun.lag_corr 2 0 = (36, 6).
Proof.
  destruct (corr_matrix_is_toeplitz_and_hermitian (NP := numerics))
    as [_ T].
  destruct (T ToyRun.lag_grid ToyRun.lag_kernel ToyRun.lag_corr 0
              toy_lag_corr) as [H0 [_ [Ht [Hh _]]]].
  split; [exact toy_lag_corr|]. split; [exact H0|]. split; [|split].
  - apply (Ht 1%nat 1%nat); simpl; lia.
  - apply (Hh 2%nat 0%nat). simpl. lia.
  - reflexivity.
Defined.

Lemma toy_quadrature :
  get_mid_point_weights_times 4 3 = Ok (ToyRun.times, ToyRun.weights).
Proof. reflexivity. Defined.

Lemma toy_corr :
  StocProc_KLE._calc_corr_matrix ToyRun.times ToyRun.r_tau = Ok ToyRun.corr.
Proof. reflexivity. Defined.

Lemma toy_solve :
  solve_hom_fredholm ToyRun.corr ToyRun.weights (Fpow 1 2)
  = Ok (ToyRun.eig_val, ToyRun.eig_vec).
Proof. reflexivity. Defined.

Lemma toy_kle_aligned_init :
  ToyRun.kle_aligned_init = Ok (ToyRun.kle_aligned, ToyRun.g0).
Proof. reflexivity. Defined.

Lemma toy_kle_init : ToyRun.kle_init 2 = Ok (ToyRun.kle, ToyRun.g0).
Proof. reflexivity. Defined.

Lemma stored_eigenvectors_are_aligned_columnwise_witness :
  get_mid_point_weights_times 4 3 = Ok (ToyRun.times, ToyRun.weights) /\
  StocProc_KLE._calc_corr_matrix ToyRun.times ToyRun.r_tau = Ok ToyRun.corr /\
  solve_hom_fredholm ToyRun.corr ToyRun.weights (Fpow 1 2)
  = Ok (ToyRun.eig_val, ToyRun.eig_vec) /\
  ToyRun.kle_aligned_init = Ok (ToyRun.kle_aligned, ToyRun.g0) /\
  exists ev,
    StocProc_KLE._eig_vec ToyRun.kle_aligned = Some ev /\
    item np_empty ev 2 1
    = Cdiv (item np_empty ToyRun.eig_vec 2 1)
           (column_phase (column np_empty ToyRun.eig_vec 1)).
Proof.
  split; [exact toy_quadrature|]. split; [exact toy_corr|].
  split; [exact toy_solve|]. split; [exact toy_kle_aligned_init|].
  destruct (stored_eigenvectors_are_aligned_columnwise (NP := numerics)
              (EX := external) (SV := solvers)
              ToyRun.r_tau 4 3 2 None 1 3 true ToyRun.g0
              toy_quadrature toy_corr toy_solve toy_kle_aligned_init)
    as [ev [He [_ [_ Hitem]]]].
  exists ev. split; [exact He|].
  apply (Hitem 2%nat 1%nat); simpl; lia.
Defined.

Lemma projection_matrix_entries_witness :
  length ToyRun.weights = shape0 ToyRun.eig_vec /\
  length ToyRun.eig_val = shape1 ToyRun.eig_vec /\
  ToyRun.kle_init 2 = Ok (ToyRun.kle, ToyRun.g0) /\
  shape0 (StocProc_KLE._A ToyRun.kle) = 3%nat /\
  shape1 (StocProc_KLE._A ToyRun.kle) = 2%nat /\
  item np_empty (StocProc_KLE._A ToyRun.kle) 1 1 = (2, 2).
Proof.
  assert (Hw : length ToyRun.weights = shape0 ToyRun.eig_vec) by reflexivity.
  assert (Hv : length ToyRun.eig_val = shape1 ToyRun.eig_vec) by reflexivity.
  split; [exact Hw|]. split; [exact Hv|]. split; [exact toy_kle_init|].
  destruct (projection_matrix_entries (NP := numerics)
              (EX := external) (SV := solvers)
              ToyRun.r_tau 4 3 2 None 1 3 false ToyRun.g0
              toy_quadrature toy_corr toy_solve Hw Hv toy_kle_init)
    as [ev [He [H0 [H1 Hitem]]]].
  split; [exact H0|]. split; [exact H1|].
  rewrite (Hitem 1%nat 1%nat) by (simpl; lia).
  inversion He; subst ev. reflexivity.
Defined.

Lemma KLE_grid_and_lag_sizes_witness :
  1 <= 3 /\
  length ToyRun.weights = Z.to_nat 3 /\
  shape0 ToyRun.eig_vec = length ToyRun.weights /\
  ToyRun.kle_init 2 = Ok (ToyRun.kle, ToyRun.g0) /\
  length (_absStocProc.get_time (KLE ToyRun.kle)) = 5%nat /\
  length (StocProc_KLE.alpha_k ToyRun.kle) = 9%nat.
Proof.
  assert (Hng : 1 <= 3) by lia.
  assert (Hw : length ToyRun.weights = Z.to_nat 3) by reflexivity.
  assert (Hr : shape0 ToyRun.eig_vec = length ToyRun.weights) by reflexivity.
  split; [exact Hng|]. split; [exact Hw|]. split; [exact Hr|].
  split; [exact toy_kle_init|].
  destruct (KLE_grid_and_lag_sizes (NP := numerics)
              (EX := external) (KN := kernels) (SV := solvers)
              ToyRun.r_tau 4 (ng := 3) 2 None 1 3 false ToyRun.g0
              toy_quadrature toy_corr toy_solve Hng Hw Hr toy_kle_init)
    as [_ [Ht [_ Ha]]].
  split; [rewrite Ht; reflexivity|]. rewrite Ha, Ht. reflexivity.
Defined.

End MatricesRuns.

(** * The FFT engines *)

Section FFTMore.
Context {NP : Numerics} {EX : External} {KN : Kernels} {SV : Solvers}.

Lemma np_binop_length {A B D : Type} (f : A -> B -> D) l r z :
  np_binop f l r = Ok z -> length r <> 1%nat -> length z = length r.
Proof.
  unfold np_binop. destruct (Nat.eqb_spec (length l) (length r)) as [E|E].
  - intros H _. inversion H; subst. rewrite map2_length by exact E.
    exact E.
  - destruct l as [|a [|a' l']]; destruct r as [|b [|b' r']];
      simpl in *; intros H Hr; try discriminate; try lia;
      inversion H; subst; simpl; rewrite ?length_map; reflexivity.
Qed.

Lemma FFT_init_omc_length sd t_max bcf_ref intgr_tol intpl_tol seed k neg
      g o g' :
  StocProc_FFT_tol.__init__ sd t_max bcf_ref intgr_tol intpl_tol seed k neg g
  = Ok (o, g') ->
  length (StocProc_FFT_tol.omega_min_correction o)
  = length (_absStocProc.t (StocProc_FFT_tol.base o)).
Proof.
  unfold StocProc_FFT_tol.__init__. intros H.
  inv_bind H as [[[[a b] N] dx] dt].
  destruct (Fltb _ _); try discriminate.
  inv_bind H as [b0 gg]. inversion H; subst. simpl.
  unfold StocProc_FFT_tol.phase_correction. apply length_map.
Qed.

(** X16.  On an FFT engine built by [__init__] whose time grid does not
    consist of a single point, every realization [new_process] stores has
    exactly one value for each point of the time grid, whatever input
    vector it was computed from (given, drawn, or broadcast). *)
Theorem FFT_realization_fits_the_time_grid :
  forall sd t_max bcf_ref intgr_tol intpl_tol seed k neg g o g'
         (g0 : RNG) (h : list call) (y : option (list C)) (s : option Z)
         (ga : RNG) (e1 : engine) (g1 : RNG),
    StocProc_FFT_tol.__init__ sd t_max bcf_ref intgr_tol intpl_tol seed k
      neg g = Ok (o, g') ->
    length (_absStocProc.get_time (FFT_tol o)) <> 1%nat ->
    _absStocProc.new_process (fst (run (FFT_tol o, g0) h)) y s ga
    = (e1, g1, Ok tt) ->
    exists z,
      _absStocProc.get_z e1 = Some z /\
      length z = length (_absStocProc.get_time e1).
Proof.
  intros sd t_max bcf_ref intgr_tol intpl_tol seed k neg g o g' g0 h y s ga
         e1 g1 Hinit Hgrid Hn.
  pose proof (run_same_core h (FFT_tol o) g0) as Hs.
  pose proof (new_process_effect _ _ _ _ Hn) as [_ [Ht _]].
  apply new_process_cases in Hn.
  destruct Hn as [[ex [Hr _]]|[y' [z [_ [Hz [_ He]]]]]]; [discriminate|].
  assert (Hs2 : same_core (FFT_tol o)
                  (_absStocProc.with_super (fst (run (FFT_tol o, g0) h))
                     (entered (_absStocProc.super
                                 (fst (run (FFT_tol o, g0) h)))))).
  { eapply same_core_trans; [exact Hs|].
    apply same_core_with_super, entered_same_settings. }
  rewrite (calc_z_same_core Hs2) in Hz.
  change (StocProc_FFT_tol._calc_z o y' = Ok z) in Hz.
  unfold StocProc_FFT_tol._calc_z in Hz. inv_bind Hz as weighted.
  exists z. split.
  - subst e1. unfold _absStocProc.get_z. rewrite super_with_super.
    reflexivity.
  - unfold _absStocProc.get_time in *. rewrite Ht.
    change (_absStocProc.t (_absStocProc.super (fst (run (FFT_tol o, g0) h))))
      with (_absStocProc.get_time (fst (run (FFT_tol o, g0) h))).
    rewrite (same_core_time Hs). unfold _absStocProc.get_time.
    change (_absStocProc.super (FFT_tol o)) with (StocProc_FFT_tol.base o)
      in *.
    rewrite <- (FFT_init_omc_length _ _ _ _ _ _ _ _ _ Hinit) in *.
    apply (np_binop_length _ _ _ Hz). exact Hgrid.
Qed.

Lemma np_linspace_last start stop num l d :
  np_linspace start stop num = Ok l -> 2 <= num -> last l d = stop.
Proof.
  unfold np_linspace. destruct (Z.ltb_spec num 0) as [Hlt|Hge];
    [discriminate|].
  destruct (Z.to_nat num) as [|[|n]] eqn:Hn; intros H Hnum; try lia.
  injection H as <-. rewrite app_comm_cons. apply last_last.
Qed.

(** X17.  The FFT engine does not keep the [t_max] it is given: it
    stores [ceil(t_max/dt) * dt], the last of its [ceil(t_max/dt) + 1] grid
    points (when there are at least two). *)
Theorem FFT_time_axis_is_a_multiple_of_dt :
  forall sd t_max bcf_ref intgr_tol intpl_tol seed k neg g o g' a b N dx dt
         (d : F),
    StocProc_FFT_tol.resolve sd t_max bcf_ref intgr_tol intpl_tol neg
    = Ok (a, b, N, dx, dt) ->
    StocProc_FFT_tol.__init__ sd t_max bcf_ref intgr_tol intpl_tol seed k
      neg g = Ok (o, g') ->
    _absStocProc.t_max (StocProc_FFT_tol.base o)
    = Fmul (F_of_Z (Fceil (Fdiv t_max dt))) dt /\
    0 <= Fceil (Fdiv t_max dt) + 1 /\
    length (_absStocProc.get_time (FFT_tol o))
    = Z.to_nat (Fceil (Fdiv t_max dt) + 1) /\
    (1 <= Fceil (Fdiv t_max dt) ->
     last (_absStocProc.get_time (FFT_tol o)) d
     = Fmul (F_of_Z (Fceil (Fdiv t_max dt))) dt).
Proof.
  intros sd t_max bcf_ref intgr_tol intpl_tol seed k neg g o g' a b N dx dt d
         Hres H.
  unfold StocProc_FFT_tol.__init__ in H.
  rewrite Hres in H. cbn [bind] in H. cbv beta iota in H.
  destruct (Fltb _ _); try discriminate.
  inv_bind H as [b0 gg]. inversion H; subst. clear H.
  replace (Fceil (Fdiv t_max dt) + 1 - 1) with (Fceil (Fdiv t_max dt))
    in Hb by lia.
  destruct (base_init_fields _ _ _ _ _ Hb) as [Htm _].
  pose proof (base_init_grid _ _ _ _ _ Hb) as Hgrid.
  destruct (np_linspace_length _ _ _ Hgrid) as [Hlen Hpos].
  unfold _absStocProc.get_time. simpl.
  split; [exact Htm|]. split; [exact Hpos|]. split; [exact Hlen|].
  intros Hc. apply (@np_linspace_last _ _ _ _ d Hgrid). lia.
Qed.

(** X18.  How the constructor of the FFT engine fails once the searches
    have returned [(a, b, N, dx, dt)]: when [|2*pi - N*dx*dt| < 1e-12] does
    not hold it raises [AssertionError]; when it holds and
    [ceil(t_max/dt) + 1] is negative it raises the [ValueError] of
    [np.linspace]. *)
Theorem FFT_init_failures :
  forall sd t_max bcf_ref intgr_tol intpl_tol seed k neg g a b N dx dt,
    StocProc_FFT_tol.resolve sd t_max bcf_ref intgr_tol intpl_tol neg
    = Ok (a, b, N, dx, dt) ->
    (Fltb (Fabs (Fsub (Fmul (F_of_Z 2) Fpi)
                      (Fmul (Fmul (F_of_Z N) dx) dt)))
          (F_lit 1 (-12)) = false ->
     StocProc_FFT_tol.__init__ sd t_max bcf_ref intgr_tol intpl_tol seed k
       neg g = Raise AssertionError) /\
    (Fltb (Fabs (Fsub (Fmul (F_of_Z 2) Fpi)
                      (Fmul (Fmul (F_of_Z N) dx) dt)))
          (F_lit 1 (-12)) = true ->
     Fceil (Fdiv t_max dt) + 1 < 0 ->
     StocProc_FFT_tol.__init__ sd t_max bcf_ref intgr_tol intpl_tol seed k
       neg g = Raise ValueError).
Proof.
  intros sd t_max bcf_ref intgr_tol intpl_tol seed k neg g a b N dx dt Hres.
  split.
  - intros Hassert. unfold StocProc_FFT_tol.__init__. rewrite Hres.
    cbn [bind]. cbv beta iota. rewrite Hassert. reflexivity.
  - intros Hassert Hneg. unfold StocProc_FFT_tol.__init__. rewrite Hres.
    cbn [bind]. cbv beta iota. rewrite Hassert.
    unfold _absStocProc.__init__, np_linspace.
    destruct (Z.ltb_spec (Fceil (Fdiv t_max dt) + 1) 0) as [_|Hge];
      [reflexivity|lia].
Qed.

End FFTMore.

Section OlderFFT.
Context {NP : Numerics} {EX : External} {PF : PythonFloat}.

(** X19.  The transform engine of [class_stocproc.py].  With one grid point
    its constructor raises [ZeroDivisionError] (when the seeding returns):
    [delta_t = t_max / (num_grid_points-1)] divides by zero.  A constructor
    that returned was given another number of grid points; the engine needs
    [2*num_grid_points - 1] input variables and has no realization yet; with
    at least two grid points, from an input vector of that length, when the
    transform keeps the length of its argument, [_calc_z] returns the first
    [num_grid_points] values of the transform of the weighted input, one for
    each grid point (no phase factor is applied); an input vector of another
    length, one apart, makes it raise numpy's [ValueError]. *)
Theorem older_FFT_engine :
  (forall sd t_max seed verbose k g,
      is_ok (match seed with
             | Some s => np_random_seed s
             | None => Ok g
             end) = true ->
      class_stocproc.StocProc_FFT.__init__ sd t_max 1 seed verbose k g
      = Raise ZeroDivisionError) /\
  (forall sd t_max n seed verbose k g o g',
    class_stocproc.StocProc_FFT.__init__ sd t_max n seed verbose k g
    = Ok (o, g') ->
    n <> 1 /\
    class_stocproc.StocProc_FFT.get_num_y o = 2 * n - 1 /\
    class_stocproc.StocProc_FFT._z o = None /\
    length (class_stocproc.StocProc_FFT.t o) = Z.to_nat n /\
    (forall y,
        (forall x, length (np_fft_fft x) = length x) ->
        2 <= n ->
        Z.of_nat (length y) = class_stocproc.StocProc_FFT.get_num_y o ->
        exists z,
          class_stocproc.StocProc_FFT._calc_z o y = Ok z /\
          z = firstn (Z.to_nat n)
                (np_fft_fft
                   (map2 (fun a b => Cmul (C_of_F a) b)
                      (class_stocproc.StocProc_FFT.sqrt_spectral_density_over_pi_times_sqrt_delta_omega o)
                      y)) /\
          length z = length (class_stocproc.StocProc_FFT.t o)) /\
    (forall y,
        2 <= n ->
        length y <> 1%nat ->
        Z.of_nat (length y) <> class_stocproc.StocProc_FFT.get_num_y o ->
        class_stocproc.StocProc_FFT._calc_z o y = Raise ValueError)).
Proof.
  split.
  - intros sd t_max seed verbose k g Hseed.
    unfold class_stocproc.StocProc_FFT.__init__.
    destruct (match seed with
              | Some s => np_random_seed s
              | None => Ok g
              end) as [g1|ex]; [|discriminate].
    reflexivity.
  - intros sd t_max n seed verbose k g o g' H.
    unfold class_stocproc.StocProc_FFT.__init__ in H.
    inv_bind H as grid. inv_bind H as gg.
    destruct (Z.eqb_spec (n - 1) 0) as [Hn1|Hn1]; [discriminate|].
    cbn [bind] in H. unfold py_truediv in H.
    destruct (Fis_zero _); [discriminate|].
    cbn [bind] in H. inversion H; subst. clear H.
    destruct (np_linspace_length _ _ _ Hb) as [Hlen Hpos].
    unfold class_stocproc.StocProc_FFT.get_num_y,
      class_stocproc.StocProc_FFT._calc_z.
    cbn [class_stocproc.StocProc_FFT.n_dft class_stocproc.StocProc_FFT._z
         class_stocproc.StocProc_FFT.t
         class_stocproc.StocProc_FFT.num_grid_points
         class_stocproc.StocProc_FFT.sqrt_spectral_density_over_pi_times_sqrt_delta_omega].
    set (weights := map _ (map _ (np_arange (n * 2 - 1)))).
    assert (Hw : length weights = Z.to_nat (n * 2 - 1)).
    { unfold weights, np_arange. rewrite !length_map, length_seq.
      reflexivity. }
    split; [lia|]. split; [lia|]. split; [reflexivity|].
    split; [exact Hlen|]. split.
    + intros y Hfft Hn Hy.
      assert (Hwy : length weights = length y) by lia.
      rewrite np_binop_same_length by exact Hwy. cbn [bind].
      rewrite py_slice_prefix by exact Hpos.
      eexists. split; [reflexivity|]. split; [reflexivity|].
      rewrite length_firstn, Hfft, map2_length, Hw, Hlen by exact Hwy. lia.
    + intros y Hn Hy1 Hy.
      rewrite np_binop_mismatch; [reflexivity|lia|lia|exact Hy1].
Qed.

End OlderFFT.

Section FFTMoreRuns.
Import Toy.

Lemma toy_fft_init : ToyRun.fft_init = Ok (ToyRun.fft, ToyRun.g0).
Proof. reflexivity. Defined.

Lemma FFT_realization_fits_the_time_grid_witness :
  ToyRun.fft_init = Ok (ToyRun.fft, ToyRun.g0) /\
  length (_absStocProc.get_time (FFT_tol ToyRun.fft)) <> 1%nat /\
  snd (_absStocProc.new_process
         (fst (run (FFT_tol ToyRun.fft, ToyRun.g0) ToyRun.short_history))
         (Some ToyRun.y1) None ToyRun.g0) = Ok tt /\
  exists z,
    _absStocProc.get_z
      (fst (fst (_absStocProc.new_process
                   (fst (run (FFT_tol ToyRun.fft, ToyRun.g0)
                           ToyRun.short_history))
                   (Some ToyRun.y1) None ToyRun.g0))) = Some z /\
    length z = 2%nat.
Proof.
  assert (Hg : length (_absStocProc.get_time (FFT_tol ToyRun.fft)) <> 1%nat)
    by (vm_compute; discriminate).
  split; [exact toy_fft_init|]. split; [exact Hg|]. split; [reflexivity|].
  destruct (FFT_realization_fits_the_time_grid (NP := numerics)
              (EX := external) (KN := kernels) (SV := solvers)
              ToyRun.spectral_density 3 ToyRun.bcf_ref 1 1 None 1 false
              ToyRun.g0 ToyRun.g0 ToyRun.short_history (Some ToyRun.y1) None
              ToyRun.g0 toy_fft_init Hg (triple_eta _ eq_refl eq_refl))
    as [z [Hz Hl]].
  exists z. split; [exact Hz|]. rewrite Hl. reflexivity.
Defined.

Lemma toy_fft_resolve :
  StocProc_FFT_tol.resolve ToyRun.spectral_density 3 ToyRun.bcf_ref 1 1 false
  = Ok (0, 2, 2, 1, 3).
Proof. reflexivity. Defined.

Lemma FFT_time_axis_is_a_multiple_of_dt_witness :
  StocProc_FFT_tol.resolve ToyRun.spectral_density 3 ToyRun.bcf_ref 1 1 false
  = Ok (0, 2, 2, 1, 3) /\
  ToyRun.fft_init = Ok (ToyRun.fft, ToyRun.g0) /\
  1 <= Fceil (Fdiv ToyRun.t3 3) /\
  _absStocProc.t_max (StocProc_FFT_tol.base ToyRun.fft) = 3 /\
  last (_absStocProc.get_time (FFT_tol ToyRun.fft)) 0 = 3.
Proof.
  assert (Hc : 1 <= Fceil (Fdiv ToyRun.t3 3)) by (vm_compute; discriminate).
  destruct (FFT_time_axis_is_a_multiple_of_dt (NP := numerics)
              (EX := external) (KN := kernels) (SV := solvers)
              ToyRun.spectral_density ToyRun.t3 ToyRun.bcf_ref 1 1 None 1
              false ToyRun.g0 0 toy_fft_resolve toy_fft_init)
    as [Ht [_ [_ Hl]]].
  split; [exact toy_fft_resolve|]. split; [exact toy_fft_init|].
  split; [exact Hc|]. split; [rewrite Ht; reflexivity|].
  rewrite (Hl Hc). reflexivity.
Defined.

Lemma toy_fft_resolve_neg :
  StocProc_FFT_tol.resolve ToyRun.spectral_density ToyRun.t3 ToyRun.bcf_ref
    ToyRun.tol_one ToyRun.tol_one true
  = Ok (-2, 2, 2, 2, 1).
Proof. reflexivity. Defined.

Lemma toy_fft_resolve_short :
  StocProc_FFT_tol.resolve ToyRun.spectral_density ToyRun.t_neg
    ToyRun.bcf_ref ToyRun.tol_one ToyRun.tol_one false
  = Ok (0, 2, 2, 1, 3).
Proof. reflexivity. Defined.

Lemma FFT_init_failures_witness :
  StocProc_FFT_tol.__init__ ToyRun.spectral_density ToyRun.t3 ToyRun.bcf_ref
    ToyRun.tol_one ToyRun.tol_one None 1 true ToyRun.g0
  = Raise AssertionError /\
  StocProc_FFT_tol.__init__ ToyRun.spectral_density ToyRun.t_neg
    ToyRun.bcf_ref ToyRun.tol_one ToyRun.tol_one None 1 false ToyRun.g0
  = Raise ValueError.
Proof.
  split.
  - apply (@FFT_init_failures numerics external solvers
             ToyRun.spectral_density ToyRun.t3 ToyRun.bcf_ref
             ToyRun.tol_one ToyRun.tol_one None 1 true ToyRun.g0
             _ _ _ _ _ toy_fft_resolve_neg).
    reflexivity.
  - apply (@FFT_init_failures numerics external solvers
             ToyRun.spectral_density ToyRun.t_neg ToyRun.bcf_ref
             ToyRun.tol_one ToyRun.tol_one None 1 false ToyRun.g0
             _ _ _ _ _ toy_fft_resolve_short).
    + reflexivity.
    + vm_compute. reflexivity.
Defined.

Lemma toy_older_fft_init :
  ToyRun.older_fft_init = Ok (ToyRun.older_fft, ToyRun.g0).
Proof. reflexivity. Defined.

Lemma older_FFT_engine_witness :
  class_stocproc.StocProc_FFT.__init__ ToyRun.spectral_density 1 1 None 0 3
    ToyRun.g0 = Raise ZeroDivisionError /\
  ToyRun.older_fft_init = Ok (ToyRun.older_fft, ToyRun.g0) /\
  class_stocproc.StocProc_FFT.get_num_y ToyRun.older_fft = 3 /\
  Z.of_nat (length ToyRun.y3)
  = class_stocproc.StocProc_FFT.get_num_y ToyRun.older_fft /\
  (exists z,
      class_stocproc.StocProc_FFT._calc_z ToyRun.older_fft ToyRun.y3 = Ok z /\
      length z = 2%nat) /\
  Z.of_nat (length ToyRun.y2)
  <> class_stocproc.StocProc_FFT.get_num_y ToyRun.older_fft /\
  class_stocproc.StocProc_FFT._calc_z ToyRun.older_fft ToyRun.y2
  = Raise ValueError.
Proof.
  destruct (older_FFT_engine (NP := numerics) (EX := external)
              (PF := python_float)) as [T1 T2].
  destruct (T2 ToyRun.spectral_density 1 2 None 0 3 ToyRun.g0 _ _
              toy_older_fft_init) as [_ [Hn [_ [Ht [Hz Hm]]]]].
  assert (Hy : Z.of_nat (length ToyRun.y3)
               = class_stocproc.StocProc_FFT.get_num_y ToyRun.older_fft)
    by reflexivity.
  assert (Hy2 : Z.of_nat (length ToyRun.y2)
                <> class_stocproc.StocProc_FFT.get_num_y ToyRun.older_fft)
    by (vm_compute; discriminate).
  split; [apply (T1 ToyRun.spectral_density 1 None 0 3 ToyRun.g0);
          reflexivity|].
  split; [exact toy_older_fft_init|]. split; [exact Hn|].
  split; [exact Hy|]. split; [|split; [exact Hy2|]].
  - destruct (Hz ToyRun.y3 toy_dft_length ltac:(lia) Hy) as [z [Hc [_ Hl]]].
    exists z. split; [exact Hc|]. rewrite Hl, Ht. reflexivity.
  - apply (Hm ToyRun.y2); [lia|vm_compute; discriminate|exact Hy2].
Defined.

End FFTMoreRuns.

(** * The KLE engine with oversampling *)

Section Oversampled.
Context {NP : Numerics} {EX : External} {KN : Kernels} {SV : Solvers}.

(** X20.  On a KLE engine with [ng_fac] other than 1, in any state it has
    reached, [new_process(y)] with [len(y) = get_num_y()] hands to
    [stocproc_c.z_t] the coefficient vector [a_i = sum_j y_j A_ij] (one
    entry for each row of [_A]) together with [ng_fac], the number of rows
    and [alpha_k], with Kahan summation on; it raises what [z_t] raises and
    stores what [z_t] returns. *)
Theorem oversampled_realization_is_z_t_of_A_y :
  forall (e0 : engine) (o : StocProc_KLE.obj) (g0 : RNG) (h : list call)
         (y : list C) (g : RNG) (e1 : engine) (g1 : RNG) (r : result unit),
    constructed e0 ->
    KLE_part e0 = Some o ->
    StocProc_KLE.ng_fac o <> 1 ->
    length y = _absStocProc.get_num_y e0 ->
    _absStocProc.new_process (fst (run (e0, g0) h)) (Some y) None g
    = (e1, g1, r) ->
    r = (_ <- z_t (StocProc_KLE.ng_fac o) (shape0 (StocProc_KLE._A o))
               (StocProc_KLE.alpha_k o)
               (map (fun i => np_dot y (row (StocProc_KLE._A o) i))
                    (seq 0 (shape0 (StocProc_KLE._A o))))
               true ;;
         Ok tt) /\
    (forall z,
        z_t (StocProc_KLE.ng_fac o) (shape0 (StocProc_KLE._A o))
          (StocProc_KLE.alpha_k o)
          (map (fun i => np_dot y (row (StocProc_KLE._A o) i))
               (seq 0 (shape0 (StocProc_KLE._A o))))
          true = Ok z ->
        _absStocProc.get_z e1 = Some z).
Proof.
  intros e0 o g0 h y g e1 g1 r Hc Ho Hfac Hy Hn.
  pose proof (run_same_core h e0 g0) as Hs.
  assert (Hz : _absStocProc._calc_z (fst (run (e0, g0) h)) y
               = z_t (StocProc_KLE.ng_fac o) (shape0 (StocProc_KLE._A o))
                   (StocProc_KLE.alpha_k o)
                   (map (fun i => np_dot y (row (StocProc_KLE._A o) i))
                        (seq 0 (shape0 (StocProc_KLE._A o))))
                   true).
  { rewrite (calc_z_same_core Hs).
    assert (Hr : KLE_restorable o).
    { pose proof (constructed_restorable Hc) as Hr.
      destruct e0 as [o0|o0|o0]; simpl in Ho, Hr; inversion Ho; subst;
        exact Hr. }
    destruct Hr as [_ [Hnum [Hint _]]].
    assert (Hcz : _absStocProc._calc_z e0 y = StocProc_KLE._calc_z o y).
    { destruct e0 as [o0|o0|o0]; simpl in Ho; inversion Ho; subst;
        reflexivity. }
    assert (Hlen : length y = shape1 (StocProc_KLE._A o)).
    { rewrite Hy, <- Hnum.
      destruct e0 as [o0|o0|o0]; simpl in Ho; inversion Ho; subst;
        reflexivity. }
    rewrite Hcz. unfold StocProc_KLE._calc_z. rewrite Hint.
    destruct (Z.eqb_spec (StocProc_KLE.ng_fac o) 1) as [E|_];
      [contradiction|].
    unfold np_tensordot_0_1. rewrite Hlen, Nat.eqb_refl. reflexivity. }
  apply new_process_explicit in Hn. destruct Hn as [Hr Hget].
  rewrite Hz in Hr, Hget. cbn [bind] in Hr.
  split; [exact Hr|].
  intros z Hzt. rewrite Hzt in Hr, Hget. cbn [bind] in Hr.
  destruct (Hget Hr) as [z' [Hz' Hg]]. inversion Hz'; subst. exact Hg.
Qed.

End Oversampled.

Section OversampledRuns.
Import Toy.

Lemma oversampled_realization_is_z_t_of_A_y_witness :
  constructed (KLE ToyRun.kle) /\
  KLE_part (KLE ToyRun.kle) = Some ToyRun.kle /\
  StocProc_KLE.ng_fac ToyRun.kle <> 1 /\
  length ToyRun.y2 = _absStocProc.get_num_y (KLE ToyRun.kle) /\
  _absStocProc.get_z
    (fst (fst (_absStocProc.new_process
                 (fst (run (KLE ToyRun.kle, ToyRun.g0) ToyRun.short_history))
                 (Some ToyRun.y2) None ToyRun.g0)))
  = Some [(-15, 30); (-15, 30); (-15, 30); (-15, 30); (-15, 30)].
Proof.
  assert (Hf : StocProc_KLE.ng_fac ToyRun.kle <> 1)
    by (vm_compute; discriminate).
  assert (Hy : length ToyRun.y2 = _absStocProc.get_num_y (KLE ToyRun.kle))
    by reflexivity.
  split; [exact toy_kle_constructed|]. split; [reflexivity|].
  split; [exact Hf|]. split; [exact Hy|].
  destruct (oversampled_realization_is_z_t_of_A_y (NP := numerics)
              (EX := external) (KN := kernels) (SV := solvers)
              ToyRun.g0 ToyRun.short_history ToyRun.y2 ToyRun.g0
              toy_kle_constructed eq_refl Hf Hy
              (triple_eta _ eq_refl eq_refl)) as [_ Hz].
  apply Hz. reflexivity.
Defined.

End OversampledRuns.

(** * The error a probe of the search measures *)

Section ProbeError.
Context {NP : Numerics} {EX : External} {KN : Kernels} {SV : Solvers}.

Lemma KLE_init_alpha r_tau t_max ng fac seed sig_min k al g o g' :
  StocProc_KLE.__init__ r_tau t_max ng fac seed sig_min k al g = Ok (o, g') ->
  StocProc_KLE.ng_fac o = fac /\
  exists fine,
    np_linspace (F_of_Z 0) t_max (fac * (ng - 1) + 1) = Ok fine /\
    StocProc_KLE._calc_corr_min_t_plus_t fine r_tau
    = Ok (StocProc_KLE.alpha_k o).
Proof.
  unfold StocProc_KLE.__init__. intros H.
  inv_bind H as [times w]. inv_bind H as r.
  inv_bind H as [eig_val eig_vec0]. inv_bind H as eig_vec.
  inv_bind H as wu. inv_bind H as A. inv_bind H as fine.
  inv_bind H as alpha. inv_bind H as [self g1].
  inversion H; subst. clear H.
  unfold StocProc_KLE.__setstate__ in Hb7. inv_bind Hb7 as [b gg].
  inversion Hb7; subst. simpl. split; [reflexivity|].
  exists fine. auto.
Qed.

(** X21.  The error a probe returns is the largest entry of
    [|recs - ref| / |ref|], where [ref] is the matrix [_calc_corr_matrix]
    builds for [r_tau] on the fine grid [np.linspace(0, t_max, ng_fine)],
    [ng_fine = ng_fac*(ng - 1) + 1], and [recs] is the reconstruction
    [sum_k lambda_k u_k(t_i) conj(u_k(t_j))] from the interpolated
    eigenfunctions [u] that [stocproc_c.eig_func_all_interp] returns. *)
Theorem probe_error_is_relative_to_the_fine_grid_matrix :
  forall (ng : Z) (kw : StocProc_KLE_tol.kwargs) (g : RNG)
         (o : StocProc_KLE.obj) (err : F) (g' : RNG),
    StocProc_KLE_tol._init_StocProc_KLE_and_get_error ng kw g
    = Ok (o, err, g') ->
    exists fine ref s w eig_val eig_vec u recs,
      np_linspace (F_of_Z 0) (StocProc_KLE_tol.t_max kw)
        (StocProc_KLE_tol.ng_fac kw * (ng - 1) + 1) = Ok fine /\
      StocProc_KLE._calc_corr_matrix fine (StocProc_KLE_tol.r_tau kw)
      = Ok ref /\
      StocProc_KLE._s o = Some s /\ StocProc_KLE._w o = Some w /\
      StocProc_KLE._eig_val o = Some eig_val /\
      StocProc_KLE._eig_vec o = Some eig_vec /\
      eig_func_all_interp (StocProc_KLE_tol.ng_fac kw) s
        (StocProc_KLE.alpha_k o) w eig_val eig_vec = Ok u /\
      (tmp <- np_binop2 (fun a b => Cmul (C_of_F a) b) (F_of_Z 0) np_empty
                (as_row eig_val) u ;;
       np_tensordot_1_1 tmp (np_map2d Cconj u)) = Ok recs /\
      (diff <- np_binop2 Csub np_empty np_empty recs ref ;;
       quot <- np_binop2 Fdiv (F_of_Z 0) (F_of_Z 0)
                 (np_map2d Cabs diff) (np_map2d Cabs ref) ;;
       np_max2d quot) = Ok err.
Proof.
  intros ng kw g o err g' H.
  unfold StocProc_KLE_tol._init_StocProc_KLE_and_get_error in H.
  inv_bind H as [self g1].
  destruct (KLE_init_alpha _ _ _ _ _ _ _ _ _ Hb) as [Hfac [fine [Hfine Halpha]]].
  inv_bind H as s. inv_bind H as w. inv_bind H as eig_val.
  inv_bind H as eig_vec. inv_bind H as u. inv_bind H as tmp.
  inv_bind H as recs. inv_bind H as refc. inv_bind H as diff.
  inv_bind H as quot. inv_bind H as e. inversion H; subst. clear H.
  rewrite Hfac in *.
  destruct (np_linspace_length _ _ _ Hfine) as [Hlen Hpos].
  assert (Href : StocProc_KLE._calc_corr_matrix fine
                   (StocProc_KLE_tol.r_tau kw) = Ok refc).
  { unfold StocProc_KLE._calc_corr_matrix. rewrite Halpha. cbn [bind].
    rewrite Hlen.
    destruct (Z.ltb_spec (StocProc_KLE_tol.ng_fac kw * (ng - 1) + 1) 0);
      [lia|]. exact Hb7. }
  exists fine, refc, s, w, eig_val, eig_vec, u, recs.
  split; [exact Hfine|]. split; [exact Href|].
  assert (Hattr : forall (A : Type) (x : option A) (v : A),
             StocProc_KLE_tol.attr x = Ok v -> x = Some v).
  { intros A x v. destruct x; simpl; intros E; inversion E; reflexivity. }
  split; [apply Hattr; exact Hb0|]. split; [apply Hattr; exact Hb1|].
  split; [apply Hattr; exact Hb2|]. split; [apply Hattr; exact Hb3|].
  split; [exact Hb4|]. split.
  - rewrite Hb5. cbn [bind]. exact Hb6.
  - rewrite Hb8. cbn [bind]. rewrite Hb9. cbn [bind]. exact Hb10.
Qed.

End ProbeError.

Section ProbeErrorRuns.
Import Toy.

Lemma toy_probe_9 :
  ToyRun.probe 9
  = Ok (fst (fst (returned (ToyRun.probe 9) eq_refl)),
        snd (fst (returned (ToyRun.probe 9) eq_refl)),
        snd (returned (ToyRun.probe 9) eq_refl)).
Proof. apply returned_triple. Defined.

Lemma probe_error_is_relative_to_the_fine_grid_matrix_witness :
  is_ok (ToyRun.probe 9) = true /\
  exists fine ref,
    np_linspace (F_of_Z 0) (StocProc_KLE_tol.t_max ToyRun.kw)
      (StocProc_KLE_tol.ng_fac ToyRun.kw * (9 - 1) + 1) = Ok fine /\
    StocProc_KLE._calc_corr_matrix fine (StocProc_KLE_tol.r_tau ToyRun.kw)
    = Ok ref /\
    length fine = 17%nat.
Proof.
  split; [reflexivity|].
  destruct (probe_error_is_relative_to_the_fine_grid_matrix (NP := numerics)
              (EX := external) (KN := kernels) (SV := solvers)
              9 ToyRun.kw ToyRun.g0 toy_probe_9)
    as [fine [ref [s [w [eig_val [eig_vec [u [recs [Hf [Hr _]]]]]]]]]].
  exists fine, ref. split; [exact Hf|]. split; [exact Hr|].
  assert (E : Ok fine = np_linspace (F_of_Z 0) (StocProc_KLE_tol.t_max ToyRun.kw)
                (StocProc_KLE_tol.ng_fac ToyRun.kw * (9 - 1) + 1))
    by (symmetry; exact Hf).
  injection E as ->. reflexivity.
Defined.

End ProbeErrorRuns.
